(** * A shallow embedding of the layout, feature and TEI code of sciencebeam-parser

    Python [str] values are modelled as [list ascii] ([str]) where their
    characters matter and as [string] where they are compared as labels;
    Python floats are modelled as exact rationals [Q]. *)

From Stdlib Require Import Bool List Ascii String ZArith QArith Qround QOrderedType Qminmax Lqa Lia.
Import ListNotations.
Open Scope list_scope.

(** ** Characters and Python string predicates

    A character is modelled by its code point, below 256 (ASCII and
    Latin-1); the predicates below are Python's [str] methods on one such
    character, as given by its Unicode tables. *)

Definition str := list ascii.

Definition code (c : ascii) : nat := nat_of_ascii c.

(** [str.isspace] on a character: \t \n \v \f \r, \x1c..\x1f, space,
    U+0085 and U+00A0 (no-break space). *)
Definition is_space (c : ascii) : bool :=
  let n := code c in
  (((9 <=? n) && (n <=? 13)) || ((28 <=? n) && (n <=? 31)) || Nat.eqb n 32
   || Nat.eqb n 133 || Nat.eqb n 160)%bool.

(** [str.islower]: a-z, the ordinal indicators U+00AA and U+00BA, U+00B5
    (micro sign) and U+00DF..U+00FF except U+00F7. *)
Definition is_lower (c : ascii) : bool :=
  let n := code c in
  (((97 <=? n) && (n <=? 122)) || Nat.eqb n 170 || Nat.eqb n 181 || Nat.eqb n 186
   || ((223 <=? n) && (n <=? 246)) || ((248 <=? n) && (n <=? 255)))%bool.

(** [str.isupper]: A-Z and U+00C0..U+00DE except U+00D7. *)
Definition is_upper (c : ascii) : bool :=
  let n := code c in
  (((65 <=? n) && (n <=? 90)) || ((192 <=? n) && (n <=? 214))
   || ((216 <=? n) && (n <=? 222)))%bool.

(** [str.isdigit]: 0-9 and the superscripts U+00B2, U+00B3 and U+00B9. *)
Definition is_digit (c : ascii) : bool :=
  let n := code c in
  (((48 <=? n) && (n <=? 57)) || Nat.eqb n 178 || Nat.eqb n 179 || Nat.eqb n 185)%bool.

(** [str.isalpha]: below 256 the letters are exactly the lowercase and the
    uppercase characters. *)
Definition is_alpha (c : ascii) : bool := (is_lower c || is_upper c)%bool.

(** [not s.strip()]: the string is empty or consists of whitespace only. *)
Definition is_blank (s : str) : bool := forallb is_space s.
Arguments is_blank : simpl never.

(** [s.isdigit()]: non-empty and every character a digit. *)
Definition str_isdigit (s : str) : bool :=
  match s with [] => false | _ => forallb is_digit s end.

Definition T (s : string) : str := list_ascii_of_string s.

(** ** sciencebeam_parser/utils/bounding_box.py *)
Module BoundingBox.

Record BoundingBox := mkBox { x : Q; y : Q; width : Q; height : Q }.

(** [not self.width or not self.height] *)
Definition is_empty (b : BoundingBox) : bool :=
  (Qeq_bool (width b) 0 || Qeq_bool (height b) 0)%bool.

Definition include (self other : BoundingBox) : BoundingBox :=
  if is_empty other then self
  else if is_empty self then other
  else
    let x' := Qmin (x self) (x other) in
    let y' := Qmin (y self) (y other) in
    let w := Qmax (x self + width self) (x other + width other) - x' in
    let h := Qmax (y self + height self) (y other + height other) - y' in
    mkBox x' y' w h.

Definition EMPTY_BOUNDING_BOX : BoundingBox := mkBox 0 0 0 0.

(** Python's [functools.reduce(f, iterable)] without an initial value:
    the first item starts the accumulation; [None] stands for the
    [TypeError] raised on an empty iterable. *)
Definition reduce {A : Type} (f : A -> A -> A) (items : list A) : option A :=
  match items with
  | [] => None
  | first :: rest =>
      Some ((fix loop (value : A) (it : list A) : A :=
               match it with
               | [] => value
               | element :: it' => loop (f value element) it'
               end) first rest)
  end.

Definition merge_bounding_boxes (bs : list BoundingBox) : option BoundingBox :=
  reduce include bs.

(** The last branch of [include], taken when neither box is empty. *)
Definition include_nonempty (self other : BoundingBox) : BoundingBox :=
  let x' := Qmin (x self) (x other) in
  let y' := Qmin (y self) (y other) in
  let w := Qmax (x self + width self) (x other + width other) - x' in
  let h := Qmax (y self + height self) (y other + height other) - y' in
  mkBox x' y' w h.


Definition nonneg (b : BoundingBox) : Prop := 0 <= width b /\ 0 <= height b.

End BoundingBox.

(** ** pygrobid/models/data.py: boundary status *)

Definition get_line_status (token_index token_count : Z) : string :=
  if Z.eqb token_index (token_count - 1) then "LINEEND"
  else if Z.eqb token_index 0 then "LINESTART"
  else "LINEIN".

Definition get_block_status (line_index line_count : Z) (line_status : string) : string :=
  if (Z.eqb line_index (line_count - 1) && String.eqb line_status "LINEEND")%bool
  then "BLOCKEND"
  else if (Z.eqb line_index 0 && String.eqb line_status "LINESTART")%bool
  then "BLOCKSTART"
  else "BLOCKIN".

(** ** pygrobid/models/data.py: digit and capitalisation features *)

Definition get_digit_feature (s : str) : string :=
  if str_isdigit s then "ALLDIGIT"
  else if existsb is_digit s then "CONTAINSDIGITS"
  else "NODIGIT".

Definition get_capitalisation_feature (s : str) : string :=
  match s with
  | [] => "NOCAPS"
  | c :: _ =>
      if forallb (fun c => negb (is_lower c)) s then "ALLCAP"
      else if is_upper c then "INITCAP"
      else "NOCAPS"
  end.

(** [CommonLayoutTokenFeatures.get_capitalisation_status] on [token_text]. *)
Definition get_capitalisation_status (token_text : str) : string :=
  if String.eqb (get_digit_feature token_text) "ALLDIGIT" then "NOCAPS"
  else get_capitalisation_feature token_text.

(** ** pygrobid/document/layout_document.py *)

Record LayoutFont := mkFont {
  font_id : string;
  font_family : option string;
  font_size : option Q;
  is_bold : option bool;
  is_italics : option bool
}.

Definition EMPTY_FONT : LayoutFont := mkFont "_EMPTY" None None None None.

Record LayoutCoordinates := mkCoords { x : Q; y : Q; width : Q; height : Q }.

Record LayoutToken := mkToken {
  text : str;
  font : LayoutFont;
  whitespace : str;
  coordinates : option LayoutCoordinates
}.

Definition get_relative_coordinates (coordinates : option LayoutCoordinates)
    (text : str) (text_character_offset total_text_length : nat)
    : option LayoutCoordinates :=
  match coordinates with
  | None => None
  | Some c =>
      Some (mkCoords
        (x c + (width c * inject_Z (Z.of_nat text_character_offset))
                 / inject_Z (Z.of_nat total_text_length))
        (y c)
        ((width c * inject_Z (Z.of_nat (List.length text)))
           / inject_Z (Z.of_nat total_text_length))
        (height c))
  end.

(** The local variables of the loop of [retokenize_layout_token]. *)
Record RetokenizeState := mkRetok {
  texts_with_whitespace : list (str * str * nat);
  pending_token_text : str;
  pending_whitespace : str;
  text_character_offset : nat;
  pending_text_character_offset : nat
}.

Definition retokenize_init : RetokenizeState := mkRetok [] [] [] 0 0.

(** One iteration of [for token_text in token_texts]. *)
Definition retokenize_step (st : RetokenizeState) (token_text : str) : RetokenizeState :=
  if is_blank token_text then
    mkRetok (texts_with_whitespace st) (pending_token_text st)
      (pending_whitespace st ++ token_text)
      (text_character_offset st + List.length token_text)
      (pending_text_character_offset st)
  else
    let acc :=
      match pending_token_text st with
      | [] => texts_with_whitespace st
      | _ :: _ => texts_with_whitespace st ++
          [(pending_token_text st, pending_whitespace st, pending_text_character_offset st)]
      end in
    mkRetok acc token_text []
      (text_character_offset st + List.length token_text)
      (text_character_offset st).

(** The statements after the loop: the last pending token gets the
    original token's trailing whitespace. *)
Definition retokenize_finish (st : RetokenizeState) (ws : str) : list (str * str * nat) :=
  let pws := pending_whitespace st ++ ws in
  match pending_token_text st with
  | [] => texts_with_whitespace st
  | _ :: _ => texts_with_whitespace st ++
      [(pending_token_text st, pws, pending_text_character_offset st)]
  end.

Definition str_list_eqb (a b : list str) : bool :=
  if list_eq_dec (list_eq_dec ascii_dec) a b then true else false.

Definition sum_lengths (ts : list str) : nat := fold_left (fun n t => n + List.length t)%nat ts 0%nat.

(** [retokenize_layout_token]; [tokenize_fn] is the tokenizer passed in.
    The coordinates of every sub-token are computed, as in the source,
    from the loop variable [pending_token_text] left by the loop, not from
    the sub-token's own text. *)
Definition retokenize_layout_token (tokenize_fn : str -> list str)
    (layout_token : LayoutToken) : list LayoutToken :=
  if is_blank (text layout_token) then []
  else
    let token_texts := tokenize_fn (text layout_token) in
    if str_list_eqb token_texts [text layout_token] then [layout_token]
    else
      let total_text_length := sum_lengths token_texts in
      let st := fold_left retokenize_step token_texts retokenize_init in
      let pending_token_text' := pending_token_text st in
      map (fun '(token_text, ws, offset) =>
             mkToken token_text (font layout_token) ws
               (get_relative_coordinates (coordinates layout_token)
                  pending_token_text' offset total_text_length))
          (retokenize_finish st (whitespace layout_token)).

(** [join_layout_tokens]: the whitespace of the last token is left out. *)
Fixpoint join_layout_tokens (ts : list LayoutToken) : str :=
  match ts with
  | [] => []
  | [t] => text t
  | t :: rest => text t ++ whitespace t ++ join_layout_tokens rest
  end.

(** The join of the round-trip property: every token's text followed by
    its whitespace, the last one's included. *)
Definition join_with_whitespace (ts : list LayoutToken) : str :=
  List.concat (map (fun t => text t ++ whitespace t) ts).

Record LayoutLine := mkLine { tokens : list LayoutToken }.
Record LayoutBlock := mkBlock { lines : list LayoutLine }.
Record LayoutPage := mkPage { blocks : list LayoutBlock }.
Record LayoutDocument := mkDocument { pages : list LayoutPage }.

Definition line_flat_map_layout_tokens (fn : LayoutToken -> list LayoutToken)
    (l : LayoutLine) : LayoutLine :=
  mkLine (flat_map fn (tokens l)).

Definition block_flat_map_layout_tokens fn (b : LayoutBlock) : LayoutBlock :=
  mkBlock (map (line_flat_map_layout_tokens fn) (lines b)).

Definition page_flat_map_layout_tokens fn (p : LayoutPage) : LayoutPage :=
  mkPage (map (block_flat_map_layout_tokens fn) (blocks p)).

Definition flat_map_layout_tokens fn (d : LayoutDocument) : LayoutDocument :=
  mkDocument (map (page_flat_map_layout_tokens fn) (pages d)).

Definition iter_all_blocks (d : LayoutDocument) : list LayoutBlock :=
  flat_map blocks (pages d).

(** [dropwhile(lambda t: not t.strip(), token_texts)]: the leading
    whitespace-only strings of a tokenizer's output. *)
Fixpoint drop_leading_blank (ts : list str) : list str :=
  match ts with
  | [] => []
  | t :: rest => if is_blank t then drop_leading_blank rest else ts
  end.

(** [takewhile(lambda t: not t.strip(), token_texts)]: the leading
    whitespace-only strings that [drop_leading_blank] leaves out. *)
Fixpoint take_leading_blank (ts : list str) : list str :=
  match ts with
  | [] => []
  | t :: rest => if is_blank t then t :: take_leading_blank rest else []
  end.

(** The strings of a tokenizer's output that are not whitespace only,
    each with its character offset: the total length of the strings
    before it, counted from [o]. *)
Fixpoint kept_offsets_from (o : nat) (ts : list str) : list (str * nat) :=
  match ts with
  | [] => []
  | t :: rest =>
      (if is_blank t then [] else [(t, o)]) ++ kept_offsets_from (o + List.length t) rest
  end.

(** The pending sub-token of the loop of [retokenize_layout_token], with
    its offset, if there is one. *)
Definition pending_entry (st : RetokenizeState) : list (str * nat) :=
  match pending_token_text st with
  | [] => []
  | _ :: _ => [(pending_token_text st, pending_text_character_offset st)]
  end.

Definition text_and_offset (e : str * str * nat) : str * nat :=
  let '(t, _, o) := e in (t, o).

(** The loop invariant for the offsets of the sub-tokens: the collected
    sub-tokens and the pending one are, in order, the strings processed so
    far that are not whitespace only, each at its offset. *)
Definition kept_inv (P : list str) (st : RetokenizeState) : Prop :=
  text_character_offset st = List.length (List.concat P) /\
  map text_and_offset (texts_with_whitespace st) ++ pending_entry st = kept_offsets_from 0 P.

Definition flat_texts (l : list (str * str * nat)) : str :=
  List.concat (map (fun '(t, w, _) => t ++ w) l).

(** [s] occurs in [whole] at character offset [o]. *)
Definition sub_at (o : nat) (s whole : str) : Prop :=
  exists pre post, whole = pre ++ s ++ post /\ List.length pre = o.

Definition sum_widths (ts : list LayoutToken) : Q :=
  fold_right (fun t acc =>
    match coordinates t with Some c => width c + acc | None => acc end) 0 ts.

(** A tokenizer that keeps whitespace: it splits a string into maximal
    runs of whitespace and of non-whitespace characters, so its output
    concatenates back to its input. It is used only as a concrete
    [tokenize_fn] on sample inputs. *)
Fixpoint split_runs_acc (cur : str) (s : str) : list str :=
  match s with
  | [] => match cur with [] => [] | _ => [rev cur] end
  | c :: rest =>
      match cur with
      | [] => split_runs_acc [c] rest
      | d :: _ =>
          if Bool.eqb (is_space c) (is_space d) then split_runs_acc (c :: cur) rest
          else rev cur :: split_runs_acc [c] rest
      end
  end.

Definition split_runs (s : str) : list str := split_runs_acc [] s.

(** ** pygrobid/document/tei_document.py: style runs *)

(** What [get_element_for_styles] returns: the text itself, or a TEI
    [hi] element with a [rend] attribute around a text or another [hi]. *)
Inductive TeiNode :=
| TextNode (s : str)
| HiNode (rend : string) (child : TeiNode).

(** What [iter_layout_block_tei_children] yields: the attribute dict with
    the coordinates, or a node. *)
Inductive TeiItem :=
| AttribItem (coords : string)
| NodeItem (n : TeiNode).

(** Python truthiness of an [Optional[bool]]. *)
Definition truthy (o : option bool) : bool :=
  match o with Some true => true | _ => false end.

Definition get_required_styles (layout_token : LayoutToken) : list string :=
  (if truthy (is_bold (font layout_token)) then ["bold"%string] else []) ++
  (if truthy (is_italics (font layout_token)) then ["italic"%string] else []).

(** [for style in reversed(styles)]: the current [child] is wrapped. *)
Definition get_element_for_styles (styles : list string) (text : str) : TeiNode :=
  match styles with
  | [] => TextNode text
  | _ :: _ =>
      match fold_left (fun child style =>
                         match child with
                         | Some c => Some (HiNode style c)
                         | None => Some (HiNode style (TextNode text))
                         end) (rev styles) None with
      | Some c => c
      | None => TextNode text (* not reached: [styles] is not empty *)
      end
  end.

Definition styles_eqb (a b : list string) : bool :=
  if list_eq_dec string_dec a b then true else false.

Definition is_nonempty (s : str) : bool := match s with [] => false | _ => true end.

(** The local variables of the generator and what it has yielded so far. *)
Record TeiState := mkTei {
  yielded : list TeiItem;
  pending_styles : list string;
  pending_text : str;
  pending_ws : str
}.

(** The body of [for token in line.tokens]. *)
Definition tei_step (st : TeiState) (token : LayoutToken) : TeiState :=
  let required_styles := get_required_styles token in
  let st1 :=
    if negb (styles_eqb required_styles (pending_styles st)) then
      let out1 := if is_nonempty (pending_text st)
                  then yielded st ++ [NodeItem (get_element_for_styles (pending_styles st) (pending_text st))]
                  else yielded st in
      let text1 := if is_nonempty (pending_text st) then [] else pending_text st in
      let out2 := if is_nonempty (pending_ws st) then out1 ++ [NodeItem (TextNode (pending_ws st))] else out1 in
      let ws2 := if is_nonempty (pending_ws st) then [] else pending_ws st in
      mkTei out2 required_styles text1 ws2
    else st in
  let st2 :=
    if is_nonempty (pending_ws st1)
    then mkTei (yielded st1) (pending_styles st1) (pending_text st1 ++ pending_ws st1) []
    else st1 in
  mkTei (yielded st2) (pending_styles st2) (pending_text st2 ++ text token) (whitespace token).

(** The statements after the loops. *)
Definition tei_finish (st : TeiState) : list TeiItem :=
  if is_nonempty (pending_text st)
  then yielded st ++ [NodeItem (get_element_for_styles (pending_styles st) (pending_text st))]
  else yielded st.

Definition block_tokens (layout_block : LayoutBlock) : list LayoutToken :=
  flat_map tokens (lines layout_block).

(** [iter_layout_block_tei_children]; the merged coordinates string of
    the block, yielded first when [enable_coordinates] is set, is passed
    in as [merged_coords]. *)
Definition iter_layout_block_tei_children (merged_coords : string)
    (layout_block : LayoutBlock) (enable_coordinates : bool) : list TeiItem :=
  let st0 := mkTei (if enable_coordinates then [AttribItem merged_coords] else []) [] [] [] in
  tei_finish (fold_left tei_step (block_tokens layout_block) st0).

(** The runs of the style-run property: maximal groups of consecutive
    tokens with the same required styles. *)
Fixpoint group_runs (ts : list LayoutToken) : list (list string * list LayoutToken) :=
  match ts with
  | [] => []
  | t :: rest =>
      match group_runs rest with
      | (styles, r) :: runs =>
          if styles_eqb (get_required_styles t) styles
          then (styles, t :: r) :: runs
          else (get_required_styles t, [t]) :: (styles, r) :: runs
      | [] => [(get_required_styles t, [t])]
      end
  end.

Definition last_whitespace (ts : list LayoutToken) : str :=
  match rev ts with [] => [] | t :: _ => whitespace t end.

Definition element_if (styles : list string) (s : str) : list TeiItem :=
  if is_nonempty s then [NodeItem (get_element_for_styles styles s)] else [].

Definition text_if (s : str) : list TeiItem :=
  if is_nonempty s then [NodeItem (TextNode s)] else [].

(** The children expected from the runs: one node per run, carrying the
    run's texts joined with the whitespace between them, then the run's
    trailing whitespace as a text node, except after the last run. *)
Fixpoint render_runs (runs : list (list string * list LayoutToken)) : list TeiItem :=
  match runs with
  | [] => []
  | [(styles, r)] => element_if styles (join_layout_tokens r)
  | (styles, r) :: rest =>
      element_if styles (join_layout_tokens r) ++ text_if (last_whitespace r) ++ render_runs rest
  end.

(** * Segmentation model data ([pygrobid/models/segmentation/data.py]) *)

(** Python exceptions that the generators below can raise. *)
Inductive PyError := ValueError | IndexError | AssertionError.

(** [str.isspace], the name [py_strip] and the segmentation code use. *)
Definition py_isspace (c : ascii) : bool := is_space c.

Fixpoint drop_while (f : ascii -> bool) (s : str) : str :=
  match s with
  | [] => []
  | c :: rest => if f c then drop_while f rest else s
  end.

(** [str.strip()] *)
Definition py_strip (s : str) : str :=
  rev (drop_while py_isspace (rev (drop_while py_isspace s))).

Definition NBSP : ascii := ascii_of_nat 160.

(** The separators of [re.split(r" |\t|\f| ", text)]. *)
Definition is_split_sep (c : ascii) : bool :=
  ((code c =? 32)%nat || (code c =? 9)%nat || (code c =? 12)%nat || (code c =? 160)%nat)%bool.

Fixpoint re_split_acc (cur : str) (s : str) : list str :=
  match s with
  | [] => [rev cur]
  | c :: rest => if is_split_sep c then rev cur :: re_split_acc [] rest
                 else re_split_acc (c :: cur) rest
  end.

(** [re.split] on the separators above: never an empty list. *)
Definition re_split (s : str) : list str := re_split_acc [] s.

(** [str.split(' ')] *)
Fixpoint py_split_space_acc (cur : str) (s : str) : list str :=
  match s with
  | [] => [rev cur]
  | c :: rest => if (code c =? 32)%nat then rev cur :: py_split_space_acc [] rest
                 else py_split_space_acc (c :: cur) rest
  end.

Definition py_split_space (s : str) : list str := py_split_space_acc [] s.

(** [' '.join(items)] *)
Fixpoint join_space (items : list str) : str :=
  match items with
  | [] => []
  | [s] => s
  | s :: rest => s ++ " "%char :: join_space rest
  end.

(** [str(n)] for an int. *)
Fixpoint str_of_nat_aux (fuel n : nat) (acc : str) : str :=
  match fuel with
  | O => acc
  | S f =>
      let acc' := ascii_of_nat (48 + n mod 10) :: acc in
      if (n <? 10)%nat then acc' else str_of_nat_aux f (n / 10) acc'
  end.

Definition str_of_Z (z : Z) : str :=
  if (z <? 0)%Z then "-"%char :: str_of_nat_aux (S (Z.to_nat (- z))) (Z.to_nat (- z)) []
  else str_of_nat_aux (S (Z.to_nat z)) (Z.to_nat z) [].

(** [feature_linear_scaling_int]; the float quotient is taken exactly. *)
Definition feature_linear_scaling_int (pos total bin_count : Z) : Z :=
  if (total <=? pos)%Z then bin_count
  else if (pos <=? 0)%Z then 0%Z
  else Qfloor ((inject_Z pos / inject_Z total) * inject_Z bin_count).

Definition get_str_bool_feature_value (value : option bool) : str :=
  if truthy value then T "1" else T "0".

Definition get_token_font_status (previous_token : option LayoutToken)
    (current_token : LayoutToken) : str :=
  match previous_token with
  | None => T "NEWFONT"
  | Some p =>
      match font_family (font current_token), font_family (font p) with
      | None, None => T "SAMEFONT"
      | Some a, Some b => if String.eqb a b then T "SAMEFONT" else T "NEWFONT"
      | _, _ => T "NEWFONT"
      end
  end.

(** [not x] on an optional float: [None] and [0.0] are falsy. *)
Definition falsy_size (o : option Q) : bool :=
  match o with None => true | Some q => Qeq_bool q 0 end.

Definition get_token_font_size_feature (previous_token : option LayoutToken)
    (current_token : LayoutToken) : str :=
  match previous_token with
  | None => T "HIGHERFONT"
  | Some p =>
      let previous_font_size := font_size (font p) in
      let current_font_size := font_size (font current_token) in
      if (falsy_size previous_font_size || falsy_size current_font_size)%bool
      then T "HIGHERFONT"
      else
        match previous_font_size, current_font_size with
        | Some a, Some b =>
            if Qlt_le_dec a b then T "HIGHERFONT"
            else if Qlt_le_dec b a then T "LOWERFONT"
            else T "SAMEFONTSIZE"
        | _, _ => T "HIGHERFONT"
        end
  end.

(** [format_feature_text]: strip, then each space or tab becomes NBSP. *)
Definition format_feature_text (text : str) : str :=
  map (fun c => if ((code c =? 32)%nat || (code c =? 9)%nat)%bool then NBSP else c)
      (py_strip text).

Definition NBBINS_POSITION : Z := 12.

Definition seg_get_block_status (line_index line_count : Z) : str :=
  if (line_index =? 0)%Z then T "BLOCKSTART"
  else if (line_index =? line_count - 1)%Z then T "BLOCKEND"
  else T "BLOCKIN".

Definition get_page_status (block_index block_count : Z) (block_status : str) : str :=
  if ((block_index =? 0)%Z && str_list_eqb [block_status] [T "BLOCKSTART"])%bool
  then T "PAGESTART"
  else if ((block_index =? block_count - 1)%Z && str_list_eqb [block_status] [T "BLOCKEND"])%bool
  then T "PAGEEND"
  else T "PAGEIN".

(** The attributes of a [SegmentationLineFeatures] object at the time
    [iter_line_features] yields it. The generator consumes each one before
    the next is produced, so a snapshot per yield stands for the one
    mutated object. *)
Record SegmentationLineFeatures := mkSegFeatures {
  sf_layout_token : LayoutToken;
  sf_layout_line : LayoutLine;
  sf_line_text : str;
  sf_token_text : str;
  sf_second_token_text : str;
  sf_page_blocks : list LayoutBlock;
  sf_page_block_index : nat;
  sf_block_lines : list LayoutLine;
  sf_block_line_index : nat;
  sf_previous_layout_token : option LayoutToken;
  sf_max_block_line_text_length : nat;
  sf_document_token_count : nat;
  sf_document_token_index : nat
}.

Record LayoutModelData := mkModelData {
  data_line : str;
  model_layout_line : LayoutLine
}.

Section SegmentationData.

(** [LayoutLine.text], [_LINESCALE] and the feature getters the generator
    calls that are not defined in [pygrobid/models/data.py] are left
    abstract. *)
Variable line_text : LayoutLine -> str.
Variable _LINESCALE : Z.
Variable get_lower_token_text : SegmentationLineFeatures -> str.
Variable get_prefix : nat -> SegmentationLineFeatures -> str.
Variable get_capitalisation_status_using_allcap : SegmentationLineFeatures -> str.
Variable get_digit_status_using_containsdigits : SegmentationLineFeatures -> str.
Variable get_dummy_str_relative_page_position : SegmentationLineFeatures -> str.
Variable get_line_punctuation_profile : SegmentationLineFeatures -> str.
Variable get_line_punctuation_profile_length_feature : SegmentationLineFeatures -> str.
Variable get_dummy_str_is_bitmap_around : SegmentationLineFeatures -> str.
Variable get_dummy_str_is_vector_around : SegmentationLineFeatures -> str.

Definition sf_get_block_status (f : SegmentationLineFeatures) : str :=
  seg_get_block_status (Z.of_nat (sf_block_line_index f))
                       (Z.of_nat (List.length (sf_block_lines f))).

Definition sf_get_page_status (f : SegmentationLineFeatures) : str :=
  get_page_status (Z.of_nat (sf_page_block_index f))
                  (Z.of_nat (List.length (sf_page_blocks f))) (sf_get_block_status f).

(** The values of the getters that are not in [pygrobid/models/data.py]. *)
Definition missing_features (f : SegmentationLineFeatures) : list str :=
  [get_lower_token_text f; get_prefix 1 f; get_prefix 2 f; get_prefix 3 f;
   get_prefix 4 f; get_capitalisation_status_using_allcap f;
   get_digit_status_using_containsdigits f; get_dummy_str_relative_page_position f;
   get_line_punctuation_profile f; get_line_punctuation_profile_length_feature f;
   get_dummy_str_is_bitmap_around f; get_dummy_str_is_vector_around f].

(** The 34 entries of [line_features] in
    [SegmentationDataGenerator.iter_model_data_for_layout_document]. *)
Definition line_features (f : SegmentationLineFeatures) : list str :=
  let tok := sf_layout_token f in
  [ sf_token_text f;
    (if is_nonempty (sf_second_token_text f) then sf_second_token_text f else sf_token_text f);
    get_lower_token_text f;
    get_prefix 1 f;
    get_prefix 2 f;
    get_prefix 3 f;
    get_prefix 4 f;
    sf_get_block_status f;
    sf_get_page_status f;
    get_token_font_status (sf_previous_layout_token f) tok;
    get_token_font_size_feature (sf_previous_layout_token f) tok;
    get_str_bool_feature_value (is_bold (font tok));
    get_str_bool_feature_value (is_italics (font tok));
    get_capitalisation_status_using_allcap f;
    get_digit_status_using_containsdigits f;
    get_str_bool_feature_value (Some (List.length (sf_token_text f) =? 1)%nat);
    T "0"; T "0"; T "0"; T "0"; T "0"; T "0"; T "0";
    str_of_Z (feature_linear_scaling_int (Z.of_nat (sf_document_token_index f))
                (Z.of_nat (sf_document_token_count f)) NBBINS_POSITION);
    get_dummy_str_relative_page_position f;
    get_line_punctuation_profile f;
    get_line_punctuation_profile_length_feature f;
    str_of_Z (feature_linear_scaling_int (Z.of_nat (List.length (sf_line_text f)))
                (Z.of_nat (sf_max_block_line_text_length f)) _LINESCALE);
    get_dummy_str_is_bitmap_around f;
    get_dummy_str_is_vector_around f;
    T "0"; T "0"; T "1";
    format_feature_text (sf_line_text f) ].

(** The body of [for line_index, line in enumerate(block_lines)] in
    [SegmentationLineFeaturesProvider.iter_line_features]; the state
    threaded through is [(previous_token, document_token_index)]. *)
Fixpoint iter_block_lines (page_blocks : list LayoutBlock) (block_index : nat)
    (block_lines : list LayoutLine) (max_block_line_text_length : nat)
    (document_token_count : nat) (ls : list LayoutLine) (line_index : nat)
    (previous_token : option LayoutToken) (document_token_index : nat)
    : list SegmentationLineFeatures * option PyError * (option LayoutToken * nat) :=
  match ls with
  | [] => ([], None, (previous_token, document_token_index))
  | line :: rest =>
      let document_token_index' := (document_token_index + List.length (tokens line))%nat in
      let line_text_ := line_text line in
      match re_split line_text_ with
      | [] =>
          iter_block_lines page_blocks block_index block_lines max_block_line_text_length
            document_token_count rest (S line_index) previous_token document_token_index'
      | first_text :: more_texts =>
          match tokens line with
          | [] => ([], Some IndexError, (previous_token, document_token_index'))
          | token :: _ =>
              let f := mkSegFeatures token line line_text_ (py_strip first_text)
                         (match more_texts with t :: _ => t | [] => [] end)
                         page_blocks block_index block_lines line_index previous_token
                         max_block_line_text_length document_token_count
                         document_token_index in
              let '(fs, e, st) :=
                iter_block_lines page_blocks block_index block_lines
                  max_block_line_text_length document_token_count rest (S line_index)
                  (Some token) document_token_index' in
              (f :: fs, e, st)
          end
      end
  end.

(** [for block_index, block in enumerate(blocks)]; [max] of no line
    lengths raises [ValueError]. *)
Fixpoint iter_page_blocks (page_blocks : list LayoutBlock) (document_token_count : nat)
    (bs : list LayoutBlock) (block_index : nat)
    (previous_token : option LayoutToken) (document_token_index : nat)
    : list SegmentationLineFeatures * option PyError * (option LayoutToken * nat) :=
  match bs with
  | [] => ([], None, (previous_token, document_token_index))
  | block :: rest =>
      let block_lines := lines block in
      match block_lines with
      | [] => ([], Some ValueError, (previous_token, document_token_index))
      | _ :: _ =>
          let max_len := list_max (map (fun l => List.length (line_text l)) block_lines) in
          let '(fs, e, st) :=
            iter_block_lines page_blocks block_index block_lines max_len
              document_token_count block_lines 0 previous_token document_token_index in
          match e with
          | Some _ => (fs, e, st)
          | None =>
              let '(fs2, e2, st2) :=
                iter_page_blocks page_blocks document_token_count rest (S block_index)
                  (fst st) (snd st) in
              (fs ++ fs2, e2, st2)
          end
      end
  end.

(** [for page in layout_document.pages] *)
Fixpoint iter_pages (document_token_count : nat) (ps : list LayoutPage)
    (previous_token : option LayoutToken) (document_token_index : nat)
    : list SegmentationLineFeatures * option PyError :=
  match ps with
  | [] => ([], None)
  | page :: rest =>
      let '(fs, e, st) :=
        iter_page_blocks (blocks page) document_token_count (blocks page) 0
          previous_token document_token_index in
      match e with
      | Some _ => (fs, e)
      | None =>
          let '(fs2, e2) := iter_pages document_token_count rest (fst st) (snd st) in
          (fs ++ fs2, e2)
      end
  end.

(** [iter_line_features]: the feature objects yielded, in order, and the
    exception raised after them, if any. *)
Definition iter_line_features (layout_document : LayoutDocument)
    : list SegmentationLineFeatures * option PyError :=
  let document_token_count :=
    list_sum (map (fun b => list_sum (map (fun l => List.length (tokens l)) (lines b)))
                  (iter_all_blocks layout_document)) in
  iter_pages document_token_count (pages layout_document) None 0.

(** The loop of [iter_model_data_for_layout_document] over the yielded
    features, with its length check. *)
Fixpoint iter_model_data (fs : list SegmentationLineFeatures)
    : list LayoutModelData * option PyError :=
  match fs with
  | [] => ([], None)
  | f :: rest =>
      let features := line_features f in
      if negb (List.length features =? 34)%nat then ([], Some AssertionError)
      else
        let '(rows, e) := iter_model_data rest in
        (mkModelData (join_space features) (sf_layout_line f) :: rows, e)
  end.

Definition iter_model_data_for_layout_document (layout_document : LayoutDocument)
    : list LayoutModelData * option PyError :=
  let '(fs, e1) := iter_line_features layout_document in
  let '(rows, e2) := iter_model_data fs in
  (rows, match e2 with Some e => Some e | None => e1 end).

End SegmentationData.

(** Whether a string holds no space character. *)
Definition no_space (s : str) : bool := forallb (fun c => negb (code c =? 32)%nat) s.

(** The token texts [iter_line_features] puts in a feature object hold no
    space. *)
Definition texts_no_space (f : SegmentationLineFeatures) : Prop :=
  no_space (sf_token_text f) = true /\ no_space (sf_second_token_text f) = true.

(** The loop invariant for the texts: once a non-blank string has been
    seen, the collected texts, the pending text and the pending whitespace
    spell the processed strings without their leading blank ones. *)
Definition texts_inv (pre : list str) (st : RetokenizeState) : Prop :=
  (forallb is_blank pre = true ->
     pending_token_text st = [] /\ texts_with_whitespace st = []) /\
  (forallb is_blank pre = false ->
     pending_token_text st <> [] /\
     flat_texts (texts_with_whitespace st) ++ pending_token_text st
       ++ pending_whitespace st = List.concat (drop_leading_blank pre)).

(** The loop invariant for the offsets: every collected text, and the
    pending one, occurs in the processed input at its recorded offset. *)
Definition offsets_inv (P : str) (st : RetokenizeState) : Prop :=
  text_character_offset st = List.length P /\
  Forall (fun '(t, _, o) => sub_at o t P) (texts_with_whitespace st) /\
  (pending_token_text st <> [] ->
     sub_at (pending_text_character_offset st) (pending_token_text st) P).

(** Neighbouring runs have different styles. *)
Fixpoint adjacent_distinct (runs : list (list string * list LayoutToken)) : Prop :=
  match runs with
  | (s1, _) :: ((s2, _) :: _) as rest => s1 <> s2 /\ adjacent_distinct rest
  | _ => True
  end.

Definition runs_homogeneous (runs : list (list string * list LayoutToken)) : Prop :=
  Forall (fun '(s, r) => r <> [] /\ Forall (fun t => get_required_styles t = s) r) runs.

Definition first_styles (runs : list (list string * list LayoutToken)) : option (list string) :=
  match runs with [] => None | (s, _) :: _ => Some s end.

(** * Affiliation-address semantic extraction *)

(** Modelled from the spec: the module
    [sciencebeam_parser.models.affiliation_address.extract] that the tests
    import is not part of this source tree. This is the tag-to-semantic
    state machine of the specification (section 4.4) for the
    affiliation-address model: a fixed table maps tags to leaf classes; a
    leaf is added to the open affiliation, opening one if none is open; a
    marker or institution tag whose class the open affiliation already holds
    closes it and opens a fresh one; the tag [O] is emitted at once as a
    note; an unknown tag continues the open affiliation; a trailing period is
    stripped from a country; the open affiliation is emitted at the end. *)
Module AffiliationAddress.

Inductive SemanticLeafClass :=
  | SemanticMarker | SemanticInstitution | SemanticDepartment | SemanticLaboratory
  | SemanticAddressLine | SemanticPostCode | SemanticPostBox | SemanticRegion
  | SemanticSettlement | SemanticCountry | SemanticMixedContent.

Definition leaf_class_eqb (a b : SemanticLeafClass) : bool :=
  match a, b with
  | SemanticMarker, SemanticMarker | SemanticInstitution, SemanticInstitution
  | SemanticDepartment, SemanticDepartment | SemanticLaboratory, SemanticLaboratory
  | SemanticAddressLine, SemanticAddressLine | SemanticPostCode, SemanticPostCode
  | SemanticPostBox, SemanticPostBox | SemanticRegion, SemanticRegion
  | SemanticSettlement, SemanticSettlement | SemanticCountry, SemanticCountry
  | SemanticMixedContent, SemanticMixedContent => true
  | _, _ => false
  end.

Definition SemanticLeaf : Type := SemanticLeafClass * string.

Inductive SemanticContent :=
  | SemanticNote (text : string)
  | SemanticAffiliationAddress (leaves : list SemanticLeaf).

Definition SIMPLE_SEMANTIC_CONTENT_CLASS_BY_TAG : list (string * SemanticLeafClass) :=
  [("<marker>", SemanticMarker); ("<institution>", SemanticInstitution);
   ("<department>", SemanticDepartment); ("<laboratory>", SemanticLaboratory);
   ("<addrLine>", SemanticAddressLine); ("<postCode>", SemanticPostCode);
   ("<postBox>", SemanticPostBox); ("<region>", SemanticRegion);
   ("<settlement>", SemanticSettlement); ("<country>", SemanticCountry)]%string.

(** The tags whose repetition starts a new affiliation. *)
Definition SPLIT_TAGS : list string := ["<marker>"; "<institution>"]%string.

Fixpoint lookup_tag (name : string) (table : list (string * SemanticLeafClass))
    : option SemanticLeafClass :=
  match table with
  | [] => None
  | (k, c) :: rest => if String.eqb k name then Some c else lookup_tag name rest
  end.

Definition strip_trailing_dot (text : string) : string :=
  let l := list_ascii_of_string text in
  match rev l with
  | "."%char :: rest => string_of_list_ascii (rev rest)
  | _ => text
  end.

Definition postprocess (c : SemanticLeafClass) (text : string) : string :=
  match c with SemanticCountry => strip_trailing_dot text | _ => text end.

Record AffState := mkAff {
  emitted : list SemanticContent;
  current : option (list SemanticLeaf)
}.

Definition aff_init : AffState := mkAff [] None.

Definition aff_step (st : AffState) (entity : string * string) : AffState :=
  let '(name, text) := entity in
  if String.eqb name "O" then mkAff (emitted st ++ [SemanticNote text]) (current st)
  else
    let cls := match lookup_tag name SIMPLE_SEMANTIC_CONTENT_CLASS_BY_TAG with
               | Some c => c
               | None => SemanticMixedContent
               end in
    let leaf := (cls, postprocess cls text) in
    match current st with
    | None => mkAff (emitted st) (Some [leaf])
    | Some leaves =>
        if (existsb (String.eqb name) SPLIT_TAGS
            && existsb (fun l => leaf_class_eqb (fst l) cls) leaves)%bool
        then mkAff (emitted st ++ [SemanticAffiliationAddress leaves]) (Some [leaf])
        else mkAff (emitted st) (Some (leaves ++ [leaf]))
    end.

Definition aff_finish (st : AffState) : list SemanticContent :=
  emitted st ++ match current st with
                 | Some leaves => [SemanticAffiliationAddress leaves]
                 | None => []
                 end.

Definition iter_semantic_content_for_entity_blocks (entities : list (string * string))
    : list SemanticContent :=
  aff_finish (fold_left aff_step entities aff_init).

(** [view_by_type(cls).get_text()]: the texts of the leaves of a class,
    joined with a space. *)
Definition view_text (cls : SemanticLeafClass) (c : SemanticContent) : string :=
  match c with
  | SemanticNote _ => EmptyString
  | SemanticAffiliationAddress leaves =>
      String.concat " " (map snd (filter (fun l => leaf_class_eqb (fst l) cls) leaves))
  end.

End AffiliationAddress.

(** * More of [layout_document.py] *)

(** Python's truthiness of a list. *)
Definition nonempty_list {A : Type} (l : list A) : bool :=
  match l with [] => false | _ :: _ => true end.

(** [LayoutDocument.iter_all_tokens] *)
Definition iter_all_tokens (d : LayoutDocument) : list LayoutToken :=
  flat_map (fun b => flat_map tokens (lines b)) (iter_all_blocks d).

(** [LayoutBlock.remove_empty_lines] *)
Definition block_remove_empty_lines (b : LayoutBlock) : LayoutBlock :=
  mkBlock (filter (fun l => nonempty_list (tokens l)) (lines b)).

(** [LayoutPage.remove_empty_blocks] *)
Definition page_remove_empty_blocks (p : LayoutPage) : LayoutPage :=
  let bs := map block_remove_empty_lines (blocks p) in
  mkPage (filter (fun b => nonempty_list (lines b)) bs).

(** [LayoutDocument.remove_empty_blocks], also the module-level
    [remove_empty_blocks]. *)
Definition remove_empty_blocks (d : LayoutDocument) : LayoutDocument :=
  let ps := map page_remove_empty_blocks (pages d) in
  mkDocument (filter (fun p => nonempty_list (blocks p)) ps).

(** No page, block or line of a document is empty. *)
Definition no_empty_parts (d : LayoutDocument) : Prop :=
  Forall (fun p => blocks p <> [] /\
    Forall (fun b => lines b <> [] /\ Forall (fun l => tokens l <> []) (lines b)) (blocks p))
    (pages d).

(** [outer] covers [inner]. *)
Definition box_contains (outer inner : BoundingBox.BoundingBox) : Prop :=
  BoundingBox.x outer <= BoundingBox.x inner /\
  BoundingBox.y outer <= BoundingBox.y inner /\
  BoundingBox.x inner + BoundingBox.width inner <= BoundingBox.x outer + BoundingBox.width outer /\
  BoundingBox.y inner + BoundingBox.height inner <= BoundingBox.y outer + BoundingBox.height outer.

(** * [sciencebeam_parser/utils/svg.py]: the bounding box of a path *)
Module Svg.

Record SvgPathInstruction := mkInstr { command : ascii; x : Q; y : Q }.

(** [str.islower] and [str.upper] on a command, for commands that are
    ASCII letters: [iter_path_split] splits on [[A-Za-z]], and any other
    alphabetic run it could take as a command is first read as the values
    of the command before it, or of none, where [float] or the indexing
    fails, so [iter_parse_path] only yields ASCII letter commands. *)
Definition is_command_lower (c : ascii) : bool :=
  let n := code c in ((97 <=? n) && (n <=? 122))%bool.

Definition ascii_upper (c : ascii) : ascii :=
  if is_command_lower c then ascii_of_nat (nat_of_ascii c - 32) else c.

Fixpoint iter_absolute_path_instructions_from (previous_x previous_y : Q)
    (path_instructions : list SvgPathInstruction) : list SvgPathInstruction :=
  match path_instructions with
  | [] => []
  | path_instruction :: rest =>
      let absolute_path_instruction :=
        if negb (is_command_lower (command path_instruction)) then path_instruction
        else mkInstr (ascii_upper (command path_instruction))
               (previous_x + x path_instruction) (previous_y + y path_instruction) in
      absolute_path_instruction ::
        iter_absolute_path_instructions_from (x absolute_path_instruction)
          (y absolute_path_instruction) rest
  end.

Definition iter_absolute_path_instructions (path_instructions : list SvgPathInstruction)
    : list SvgPathInstruction :=
  iter_absolute_path_instructions_from 0 0 path_instructions.

(** Python's [min] and [max] of a list; [None] for the [ValueError] on an
    empty one. *)
Definition list_min (l : list Q) : option Q :=
  match l with [] => None | a :: rest => Some (fold_left Qmin rest a) end.

Definition list_max (l : list Q) : option Q :=
  match l with [] => None | a :: rest => Some (fold_left Qmax rest a) end.

(** [get_bounding_box_from_path_instructions]; [None] for the [ValueError]
    of unpacking [zip()] of no points. *)
Definition get_bounding_box_from_path_instructions
    (path_instructions : list SvgPathInstruction) : option BoundingBox.BoundingBox :=
  let ps := iter_absolute_path_instructions path_instructions in
  match ps with
  | [] => None
  | _ :: _ =>
      let x_list := map x ps in
      let y_list := map y ps in
      match list_min x_list, list_min y_list, list_max x_list, list_max y_list with
      | Some x', Some y', Some mx, Some my => Some (BoundingBox.mkBox x' y' (mx - x') (my - y'))
      | _, _, _, _ => None
      end
  end.

End Svg.

Module SvgPoints.
Import Svg.
(** The absolute point an instruction at index [i] is resolved against. *)
Definition previous_point (px py : Q) (abs : list SvgPathInstruction) (i : nat) : Q * Q :=
  match i with
  | O => (px, py)
  | S j => match nth_error abs j with Some q => (x q, y q) | None => (px, py) end
  end.

End SvgPoints.

(** * [pygrobid/models/data.py]: further token features *)

(** [RelativeFontSizeFeature]: the statistics of the truthy font sizes
    (neither [None] nor [0.0]) of the tokens it was built from. *)
Record RelativeFontSizeFeature := mkRelativeFontSizeFeature {
  largest_font_size : Q;
  smallest_font_size : Q;
  mean_font_size : Q
}.

Definition truthy_font_sizes (layout_tokens : list LayoutToken) : list Q :=
  flat_map (fun layout_token =>
              match font_size (font layout_token) with
              | Some s => if Qeq_bool s 0 then [] else [s]
              | None => []
              end) layout_tokens.

(** Python's [sum] of floats, from [0] and left to right. *)
Definition sum_Q (l : list Q) : Q := fold_left Qplus l 0.

Definition new_RelativeFontSizeFeature (layout_tokens : list LayoutToken)
    : RelativeFontSizeFeature :=
  let font_sizes := truthy_font_sizes layout_tokens in
  match font_sizes with
  | [] => mkRelativeFontSizeFeature 0 0 0
  | a :: rest =>
      mkRelativeFontSizeFeature (fold_left Qmax rest a) (fold_left Qmin rest a)
        (sum_Q font_sizes / inject_Z (Z.of_nat (List.length font_sizes)))
  end.

(** [font_size == v] for an optional float: [None] is never equal. *)
Definition font_size_eq (o : option Q) (v : Q) : bool :=
  match o with Some s => Qeq_bool s v | None => false end.

Definition is_largest_font_size (self : RelativeFontSizeFeature) (layout_token : LayoutToken)
    : bool :=
  font_size_eq (font_size (font layout_token)) (largest_font_size self).

Definition is_smallest_font_size (self : RelativeFontSizeFeature) (layout_token : LayoutToken)
    : bool :=
  font_size_eq (font_size (font layout_token)) (smallest_font_size self).

Definition is_larger_than_average_font_size (self : RelativeFontSizeFeature)
    (layout_token : LayoutToken) : bool :=
  match font_size (font layout_token) with
  | None => false
  | Some s => if Qeq_bool s 0 then false else negb (Qle_bool s (mean_font_size self))
  end.

(** [LineIndentationStatusFeature]: its three attributes. *)
Record LineIndentationStatusFeature := mkLineIndentationStatusFeature {
  _line_start_x : option Q;
  _is_new_line : bool;
  _is_indented : bool
}.

Definition new_LineIndentationStatusFeature : LineIndentationStatusFeature :=
  mkLineIndentationStatusFeature None true false.

Definition on_new_line (self : LineIndentationStatusFeature) : LineIndentationStatusFeature :=
  mkLineIndentationStatusFeature (_line_start_x self) true (_is_indented self).

(** [get_is_indented_and_update]: the returned flag and the updated object. *)
Definition get_is_indented_and_update (self : LineIndentationStatusFeature)
    (layout_token : LayoutToken) : bool * LineIndentationStatusFeature :=
  let self1 :=
    if _is_new_line self then
      match coordinates layout_token, text layout_token with
      | Some c, _ :: _ =>
          let previous_line_start_x := _line_start_x self in
          let line_start_x := x c in
          let character_width :=
            width c / inject_Z (Z.of_nat (List.length (text layout_token))) in
          let is_indented :=
            match previous_line_start_x with
            | Some p =>
                let i1 := if Qlt_le_dec character_width (line_start_x - p)
                          then true else _is_indented self in
                if Qlt_le_dec character_width (p - line_start_x) then false else i1
            | None => _is_indented self
            end in
          mkLineIndentationStatusFeature (Some line_start_x) true is_indented
      | _, _ => self
      end
    else self in
  let self2 := mkLineIndentationStatusFeature (_line_start_x self1) false (_is_indented self1) in
  (_is_indented self2, self2).

(** [get_char_shape_feature] and [get_word_shape_feature], for given
    [str.isdigit], [str.isalpha] and [str.isupper] on one character. *)
Section WordShape.
Variables py_isdigit py_isalpha py_isupper : ascii -> bool.

Definition get_char_shape_feature (ch : ascii) : str :=
  if py_isdigit ch then T "d"
  else if py_isalpha ch then (if py_isupper ch then T "X" else T "x")
  else [ch].

(** The loop over [middle[1:]], given the last character kept. *)
Fixpoint without_consequitive_duplicates_from (last : str) (rest : list str) : list str :=
  match rest with
  | [] => []
  | ch :: rest' =>
      if list_eq_dec ascii_dec ch last then without_consequitive_duplicates_from last rest'
      else ch :: without_consequitive_duplicates_from ch rest'
  end.

Definition get_word_shape_feature (text : str) : str :=
  let shape := map get_char_shape_feature text in
  let prefix := firstn 1 shape in
  let middle := firstn (List.length shape - 3) (skipn 1 shape) in
  let suffix := let shape_tail := skipn 1 shape in
                skipn (List.length shape_tail - 2) shape_tail in
  let middle_without_consequitive_duplicates :=
    match middle with
    | [] => []
    | first :: rest => first :: without_consequitive_duplicates_from first rest
    end in
  List.concat (prefix ++ middle_without_consequitive_duplicates ++ suffix).

End WordShape.

(** No two neighbouring elements of a list are equal. *)
Fixpoint no_adjacent_duplicates {A : Type} (l : list A) : Prop :=
  match l with
  | a :: ((b :: _) as rest) => a <> b /\ no_adjacent_duplicates rest
  | _ => True
  end.

(** Bookkeeping of [iter_line_features]: the number of tokens of a line,
    the first token of each line, the running token index and the token
    seen before each element. *)
Definition ntok (l : LayoutLine) : nat := List.length (tokens l).

Definition first_tokens (ls : list LayoutLine) : list LayoutToken :=
  flat_map (fun l => firstn 1 (tokens l)) ls.

Fixpoint running_sums (acc : nat) (l : list nat) : list nat :=
  match l with
  | [] => []
  | n :: rest => acc :: running_sums (acc + n) rest
  end.

Fixpoint previous_items {A : Type} (prev : option A) (l : list A) : list (option A) :=
  match l with
  | [] => []
  | a :: rest => prev :: previous_items (Some a) rest
  end.

Definition block_ok (b : LayoutBlock) : Prop :=
  lines b <> [] /\ Forall (fun l => tokens l <> []) (lines b).

(** The loop invariant for the texts of [retokenize_layout_token], up
    to the blank strings. *)
Definition retok_texts_inv (pre : list str) (st : RetokenizeState) : Prop :=
  (pending_token_text st = [] /\ texts_with_whitespace st = [] /\
     filter (fun s => negb (is_blank s)) pre = []) \/
  (pending_token_text st <> [] /\
     map (fun '(t, _, _) => t) (texts_with_whitespace st) ++ [pending_token_text st] =
     filter (fun s => negb (is_blank s)) pre).

(** [LayoutModelData.label_token_text]: [data_line.split(' ')[0]]. *)
Definition label_token_text (m : LayoutModelData) : str :=
  match py_split_space (data_line m) with
  | first :: _ => first
  | [] => []
  end.

(** A stripped string: empty, or starting and ending with a character that
    is not whitespace. *)
Definition stripped (s : str) : Prop :=
  s = [] \/
  ((exists c r, s = c :: r /\ py_isspace c = false) /\
   (exists r c, s = r ++ [c] /\ py_isspace c = false)).

(** The character map of [format_feature_text]. *)
Definition format_char (c : ascii) : ascii :=
  if ((code c =? 32)%nat || (code c =? 9)%nat)%bool then NBSP else c.

(** [ContextAwareLayoutTokenFeatures], with the [RelativeFontSizeFeature]
    shared by all tokens of a document. The shared
    [LineIndentationStatusFeature] is not a field here: it is only read
    through [get_alignment_status], which the abstract
    [iter_model_data_for_context_layout_token_features] may or may not
    call. *)
Record ContextAwareLayoutTokenFeatures := mkContextAwareLayoutTokenFeatures {
  cf_layout_token : LayoutToken;
  cf_layout_line : LayoutLine;
  cf_previous_layout_token : option LayoutToken;
  cf_token_index : nat;
  cf_token_count : nat;
  cf_line_index : nat;
  cf_line_count : nat;
  cf_relative_font_size_feature : RelativeFontSizeFeature
}.

(** The loops of [ContextAwareLayoutTokenModelDataGenerator
    .iter_model_data_for_layout_document]: the feature objects built, in
    order, and the [previous_layout_token] left after them. *)
Fixpoint iter_line_contexts (relative_font_size_feature : RelativeFontSizeFeature)
    (line : LayoutLine) (line_index line_count token_count : nat)
    (line_tokens : list LayoutToken) (token_index : nat)
    (previous_layout_token : option LayoutToken)
    : list ContextAwareLayoutTokenFeatures * option LayoutToken :=
  match line_tokens with
  | [] => ([], previous_layout_token)
  | token :: rest =>
      let '(cs, p) := iter_line_contexts relative_font_size_feature line line_index line_count
                        token_count rest (S token_index) (Some token) in
      (mkContextAwareLayoutTokenFeatures token line previous_layout_token token_index
         token_count line_index line_count relative_font_size_feature :: cs, p)
  end.

Fixpoint iter_block_contexts (relative_font_size_feature : RelativeFontSizeFeature)
    (line_count : nat) (block_lines : list LayoutLine) (line_index : nat)
    (previous_layout_token : option LayoutToken)
    : list ContextAwareLayoutTokenFeatures * option LayoutToken :=
  match block_lines with
  | [] => ([], previous_layout_token)
  | line :: rest =>
      let '(cs, p) := iter_line_contexts relative_font_size_feature line line_index line_count
                        (List.length (tokens line)) (tokens line) 0 previous_layout_token in
      let '(cs2, p2) := iter_block_contexts relative_font_size_feature line_count rest
                          (S line_index) p in
      (cs ++ cs2, p2)
  end.

Fixpoint iter_document_contexts (relative_font_size_feature : RelativeFontSizeFeature)
    (bs : list LayoutBlock) (previous_layout_token : option LayoutToken)
    : list ContextAwareLayoutTokenFeatures * option LayoutToken :=
  match bs with
  | [] => ([], previous_layout_token)
  | block :: rest =>
      let '(cs, p) := iter_block_contexts relative_font_size_feature
                        (List.length (lines block)) (lines block) 0 previous_layout_token in
      let '(cs2, p2) := iter_document_contexts relative_font_size_feature rest p in
      (cs ++ cs2, p2)
  end.

(** The feature objects passed, in order, to
    [iter_model_data_for_context_layout_token_features]. *)
Definition iter_context_layout_token_features (layout_document : LayoutDocument)
    : list ContextAwareLayoutTokenFeatures :=
  let relative_font_size_feature :=
    new_RelativeFontSizeFeature (iter_all_tokens layout_document) in
  fst (iter_document_contexts relative_font_size_feature
         (iter_all_blocks layout_document) None).

(** Where a feature object points: its token is at [token_index] of its
    line, [token_count] is the line's length, its line is at [line_index]
    of one of the blocks [bs], [line_count] is that block's length, and
    it shares the document's [RelativeFontSizeFeature]. *)
Definition context_ok (rfs : RelativeFontSizeFeature) (bs : list LayoutBlock)
    (c : ContextAwareLayoutTokenFeatures) : Prop :=
  nth_error (tokens (cf_layout_line c)) (cf_token_index c) = Some (cf_layout_token c) /\
  cf_token_count c = List.length (tokens (cf_layout_line c)) /\
  (exists b, In b bs /\ nth_error (lines b) (cf_line_index c) = Some (cf_layout_line c) /\
             cf_line_count c = List.length (lines b)) /\
  cf_relative_font_size_feature c = rfs.


Module SvgParse.
Import Svg SvgPoints.
Local Open Scope Q_scope.

(** The exceptions [iter_parse_path] raises on parsed path items: the
    [assert first_point is not None] of a close-path command that comes
    first, and the [IndexError] of [values[0]], [values[-2]] or
    [values[-1]] on too few values. *)
Inductive PathError := AssertionError | IndexError.

(** The point one path item gives in [iter_parse_path]: [Z]/[z] repeats
    the first point, [H]/[h] and [V]/[v] take [values[0]] for one
    coordinate and, for the other one, the previous value when the
    command is upper case and [0.0] when it is lower case; any other
    command takes [values[-2]] and [values[-1]]. *)
Definition parse_point (previous_x previous_y : Q) (first_point : option (Q * Q))
    (command : ascii) (values : list Q) : (Q * Q) + PathError :=
  let command_upper := ascii_upper command in
  if Ascii.eqb command_upper "Z"%char then
    match first_point with Some p => inl p | None => inr AssertionError end
  else if Ascii.eqb command_upper "H"%char then
    match values with
    | v :: _ => inl (v, if Ascii.eqb command_upper command then previous_y else 0)
    | [] => inr IndexError
    end
  else if Ascii.eqb command_upper "V"%char then
    match values with
    | v :: _ => inl (if Ascii.eqb command_upper command then previous_x else 0, v)
    | [] => inr IndexError
    end
  else
    match rev values with
    | y :: x :: _ => inl (x, y)
    | _ => inr IndexError
    end.

(** The loop of [iter_parse_path] over the items of [iter_path_split],
    each with its values already read by [parse_path_values] (the regular
    expressions and [float] are not modelled): the instructions yielded,
    in order, up to the exception raised, if any. *)
Fixpoint iter_parse_path_from (previous_x previous_y : Q) (first_point : option (Q * Q))
    (items : list (ascii * list Q)) : list SvgPathInstruction * option PathError :=
  match items with
  | [] => ([], None)
  | (command, values) :: rest =>
      match parse_point previous_x previous_y first_point command values with
      | inr e => ([], Some e)
      | inl (x, y) =>
          let '(instrs, e) :=
            iter_parse_path_from x y
              (match first_point with None => Some (x, y) | Some p => Some p end) rest in
          (mkInstr command x y :: instrs, e)
      end
  end.

Definition iter_parse_path (items : list (ascii * list Q))
    : list SvgPathInstruction * option PathError :=
  iter_parse_path_from 0 0 None items.

(** How many values [iter_parse_path] reads for a command. *)
Definition path_values_needed (command : ascii) : nat :=
  if Ascii.eqb (ascii_upper command) "Z"%char then 0
  else if Ascii.eqb (ascii_upper command) "H"%char
          || Ascii.eqb (ascii_upper command) "V"%char then 1
  else 2.

Definition item_ok (item : ascii * list Q) : Prop :=
  (path_values_needed (fst item) <= List.length (snd item))%nat.

(** The [first_point] in force when the instruction at index [i] of the
    output [out] is parsed, starting from [first_point]. *)
Definition first_point_at (first_point : option (Q * Q)) (out : list SvgPathInstruction)
    (i : nat) : option (Q * Q) :=
  match first_point, i with
  | Some p, _ => Some p
  | None, O => None
  | None, S _ => option_map (fun q => (x q, y q)) (hd_error out)
  end.

End SvgParse.


(** The text content of a yielded node ([get_text_content]): the text
    inside its [hi] elements. *)
Fixpoint tei_node_text (n : TeiNode) : str :=
  match n with
  | TextNode s => s
  | HiNode _ child => tei_node_text child
  end.

(** The text content an element gets from the yielded children once
    [extend_element] has added them to it: strings go to [text] or to the
    last child's [tail], elements are appended, so [get_text_content]
    reads the node texts in order; the attribute dict adds none. *)
Definition tei_items_text (items : list TeiItem) : str :=
  List.concat (map (fun item => match item with
                                | AttribItem _ => []
                                | NodeItem n => tei_node_text n
                                end) items).


(** [ContextAwareLayoutTokenFeatures.get_line_status] and
    [.get_block_status]. *)
Definition ctx_get_line_status (c : ContextAwareLayoutTokenFeatures) : string :=
  get_line_status (Z.of_nat (cf_token_index c)) (Z.of_nat (cf_token_count c)).

Definition ctx_get_block_status (c : ContextAwareLayoutTokenFeatures) : string :=
  get_block_status (Z.of_nat (cf_line_index c)) (Z.of_nat (cf_line_count c))
    (ctx_get_line_status c).

(** * Theorems *)

(** ** Retokenization *)

Lemma is_blank_app (a b : str) : is_blank (a ++ b) = (is_blank a && is_blank b)%bool.
Proof. unfold is_blank. apply forallb_app. Qed.

Lemma drop_leading_blank_app (pre q : list str) :
  drop_leading_blank (pre ++ q) =
  if forallb is_blank pre then drop_leading_blank q else drop_leading_blank pre ++ q.
Proof.
  induction pre as [|t pre IH]; simpl; [reflexivity|].
  destruct (is_blank t) eqn:E; simpl; [exact IH|reflexivity].
Qed.

Lemma not_blank_nonempty (t : str) : is_blank t = false -> t <> [].
Proof. intros H ->. discriminate H. Qed.

Lemma flat_texts_snoc l t w o :
  flat_texts (l ++ [(t, w, o)]) = flat_texts l ++ t ++ w.
Proof.
  unfold flat_texts. rewrite map_app, concat_app. simpl. rewrite app_nil_r. reflexivity.
Qed.

Lemma texts_inv_step pre st tt :
  texts_inv pre st -> texts_inv (pre ++ [tt]) (retokenize_step st tt).
Proof.
  intros [Hb Hn]. unfold texts_inv, retokenize_step.
  rewrite forallb_app, drop_leading_blank_app. simpl.
  destruct (is_blank tt) eqn:Ett; simpl.
  - destruct (forallb is_blank pre) eqn:Ep; simpl.
    + destruct (Hb eq_refl) as [H1 H2]. split; intros H; [auto | discriminate H].
    + destruct (Hn eq_refl) as [H1 H2]. split; intros H; [discriminate H|].
      split; [exact H1|]. rewrite concat_app, <- H2. simpl.
      rewrite app_nil_r, !app_assoc. reflexivity.
  - rewrite andb_false_r. split; intros H; [discriminate H|].
    split; [apply not_blank_nonempty; exact Ett|].
    destruct (forallb is_blank pre) eqn:Ep.
    + destruct (Hb eq_refl) as [-> ->]. simpl. rewrite !app_nil_r. reflexivity.
    + destruct (Hn eq_refl) as [H1 H2].
      destruct (pending_token_text st) as [|c r] eqn:Ep'; [contradiction|].
      rewrite flat_texts_snoc, concat_app, <- H2, <- Ep'. simpl.
      rewrite !app_nil_r, !app_assoc. reflexivity.
Qed.

Lemma texts_inv_fold ps : forall pre st,
  texts_inv pre st -> texts_inv (pre ++ ps) (fold_left retokenize_step ps st).
Proof.
  induction ps as [|tt ps IH]; intros pre st H; simpl.
  - rewrite app_nil_r. exact H.
  - replace (pre ++ tt :: ps) with ((pre ++ [tt]) ++ ps)
      by (rewrite <- app_assoc; reflexivity).
    apply IH, texts_inv_step, H.
Qed.

Lemma texts_inv_init : texts_inv [] retokenize_init.
Proof. split; intros H; [split; reflexivity | discriminate H]. Qed.

Lemma join_map_tokens (font0 : LayoutFont) (coords : str -> nat -> option LayoutCoordinates)
    (l : list (str * str * nat)) :
  join_with_whitespace
    (map (fun '(t, w, o) => mkToken t font0 w (coords t o)) l) = flat_texts l.
Proof.
  induction l as [|[[t w] o] l IH]; simpl; [reflexivity|].
  unfold join_with_whitespace in *. simpl. rewrite IH. reflexivity.
Qed.

Lemma str_list_eqb_true a b : str_list_eqb a b = true -> a = b.
Proof. unfold str_list_eqb. destruct (list_eq_dec (list_eq_dec ascii_dec) a b); congruence. Qed.

Lemma concat_blank_is_blank (ts : list str) :
  forallb is_blank ts = true -> is_blank (List.concat ts) = true.
Proof.
  induction ts as [|t ts IH]; simpl; [reflexivity|].
  intros H. apply andb_true_iff in H as [H1 H2].
  rewrite is_blank_app, H1, IH; auto.
Qed.

(** The round trip as the code has it: the leading whitespace-only
    strings of the tokenizer output are dropped, everything else is kept. *)
Lemma retokenize_join_general fn tok :
  is_blank (text tok) = false ->
  List.concat (fn (text tok)) = text tok ->
  join_with_whitespace (retokenize_layout_token fn tok) =
  (if str_list_eqb (fn (text tok)) [text tok] then text tok
   else List.concat (drop_leading_blank (fn (text tok)))) ++ whitespace tok.
Proof.
  intros Hb Hc. unfold retokenize_layout_token. rewrite Hb.
  destruct (str_list_eqb (fn (text tok)) [text tok]) eqn:Eq.
  - unfold join_with_whitespace. simpl. rewrite app_nil_r. reflexivity.
  - set (st := fold_left retokenize_step (fn (text tok)) retokenize_init).
    pose proof (texts_inv_fold (fn (text tok)) [] retokenize_init texts_inv_init) as [_ Hn].
    simpl in Hn. fold st in Hn.
    destruct (forallb is_blank (fn (text tok))) eqn:Eall.
    + apply concat_blank_is_blank in Eall. rewrite Hc, Hb in Eall. discriminate Eall.
    + destruct (Hn eq_refl) as [H1 H2].
      set (cf := fun (t : str) (o : nat) =>
        get_relative_coordinates (coordinates tok) (pending_token_text st) o
          (sum_lengths (fn (text tok)))).
      transitivity (join_with_whitespace
        (map (fun '(t, w, o) => mkToken t (font tok) w (cf t o))
           (retokenize_finish st (whitespace tok)))).
      { reflexivity. }
      rewrite join_map_tokens. unfold retokenize_finish.
      destruct (pending_token_text st) as [|c r] eqn:Ep; [contradiction|].
      rewrite flat_texts_snoc, <- H2, !app_assoc. reflexivity.
Qed.

Lemma concat_drop_leading_blank ts c s :
  List.concat ts = c :: s -> is_space c = false ->
  List.concat (drop_leading_blank ts) = c :: s.
Proof.
  induction ts as [|t ts IH]; simpl; intros Hc Hs; [discriminate Hc|].
  destruct (is_blank t) eqn:Eb; [|exact Hc].
  destruct t as [|c' t]; simpl in Hc.
  - apply IH; assumption.
  - injection Hc as -> _. unfold is_blank in Eb. simpl in Eb. rewrite Hs in Eb. discriminate Eb.
Qed.

Lemma take_drop_leading_blank ts : take_leading_blank ts ++ drop_leading_blank ts = ts.
Proof.
  induction ts as [|t ts IH]; simpl; [reflexivity|].
  destruct (is_blank t); simpl; [rewrite IH|]; reflexivity.
Qed.

Lemma take_leading_blank_blank ts : forallb is_blank (take_leading_blank ts) = true.
Proof.
  induction ts as [|t ts IH]; simpl; [reflexivity|].
  destruct (is_blank t) eqn:E; simpl; [rewrite E, IH|]; reflexivity.
Qed.

(** Claim C1 (as amended): for a token whose text is not whitespace only
    and a tokenizer whose output strings concatenate back to the text,
    the text is the concatenation of the leading whitespace-only strings
    of the tokenizer output and of the strings after them; joining the
    tokens returned by [retokenize_layout_token], each token's text
    followed by its whitespace, gives the strings after them followed by
    the token's whitespace, so the leading whitespace-only strings are
    lost; and when the text does not begin with a whitespace character
    the join is the token's text followed by its whitespace. *)
Theorem retokenize_round_trip (fn : str -> list str) (tok : LayoutToken) :
  is_blank (text tok) = false ->
  List.concat (fn (text tok)) = text tok ->
  text tok = List.concat (take_leading_blank (fn (text tok)))
             ++ List.concat (drop_leading_blank (fn (text tok))) /\
  forallb is_blank (take_leading_blank (fn (text tok))) = true /\
  join_with_whitespace (retokenize_layout_token fn tok) =
    List.concat (drop_leading_blank (fn (text tok))) ++ whitespace tok /\
  (forall (c : ascii) (s : str), text tok = c :: s -> is_space c = false ->
     join_with_whitespace (retokenize_layout_token fn tok) = text tok ++ whitespace tok).
Proof.
  intros Hb Hc.
  assert (Hj : join_with_whitespace (retokenize_layout_token fn tok) =
               List.concat (drop_leading_blank (fn (text tok))) ++ whitespace tok).
  { rewrite (retokenize_join_general fn tok Hb Hc).
    destruct (str_list_eqb (fn (text tok)) [text tok]) eqn:Eq; [|reflexivity].
    apply str_list_eqb_true in Eq. rewrite Eq. simpl. rewrite Hb. simpl.
    rewrite app_nil_r. reflexivity. }
  split; [rewrite <- concat_app, take_drop_leading_blank; symmetry; exact Hc|].
  split; [apply take_leading_blank_blank|].
  split; [exact Hj|].
  intros c s Ht Hs. rewrite Hj. f_equal.
  rewrite Ht in Hc |- *. exact (concat_drop_leading_blank _ c s Hc Hs).
Qed.

(** With a tokenizer that splits off whitespace runs, " a" loses its
    leading space. *)
Lemma retokenize_round_trip_witness :
  let tok := mkToken (T " a") EMPTY_FONT (T " ") None in
  is_blank (text tok) = false /\
  List.concat (split_runs (text tok)) = text tok /\
  take_leading_blank (split_runs (text tok)) = [T " "] /\
  join_with_whitespace (retokenize_layout_token split_runs tok) = T "a ".
Proof.
  intros tok.
  assert (Hb : is_blank (text tok) = false) by reflexivity.
  assert (Hc : List.concat (split_runs (text tok)) = text tok) by reflexivity.
  split; [exact Hb|]. split; [exact Hc|]. split; [reflexivity|].
  destruct (retokenize_round_trip split_runs tok Hb Hc) as (_ & _ & Hj & _).
  rewrite Hj. reflexivity.
Defined.

(** Claim C1 (as stated) fails: a token text with leading whitespace
    loses it, as the leading whitespace-only strings of the tokenizer
    output are never attached to any sub-token. *)
Lemma retokenize_round_trip_counterexample :
  ~ (forall (fn : str -> list str) (tok : LayoutToken),
       is_blank (text tok) = false ->
       List.concat (fn (text tok)) = text tok ->
       join_with_whitespace (retokenize_layout_token fn tok) = text tok ++ whitespace tok).
Proof.
  intros H.
  specialize (H split_runs (mkToken (T " a") EMPTY_FONT (T " ") None) eq_refl eq_refl).
  vm_compute in H. discriminate H.
Qed.

Lemma sub_at_app o t P q : sub_at o t P -> sub_at o t (P ++ q).
Proof.
  intros (pre & post & -> & Hl). exists pre, (post ++ q).
  split; [rewrite <- !app_assoc; reflexivity | exact Hl].
Qed.

Lemma offsets_inv_step P st tt :
  offsets_inv P st -> offsets_inv (P ++ tt) (retokenize_step st tt).
Proof.
  intros (Ho & Hf & Hp). unfold offsets_inv, retokenize_step.
  assert (Hf' : Forall (fun '(t, _, o) => sub_at o t (P ++ tt)) (texts_with_whitespace st)).
  { eapply Forall_impl; [|exact Hf]. intros [[t w] o]. apply sub_at_app. }
  destruct (is_blank tt); simpl.
  - rewrite Ho, length_app. split; [reflexivity|]. split; [exact Hf'|].
    intros Hn. apply sub_at_app, Hp, Hn.
  - rewrite Ho, length_app. split; [reflexivity|]. split.
    + destruct (pending_token_text st) as [|c r] eqn:E; [exact Hf'|].
      apply Forall_app. split; [exact Hf'|]. constructor; [|constructor].
      apply sub_at_app, Hp. discriminate.
    + intros _. exists P, []. rewrite app_nil_r. split; reflexivity.
Qed.

Lemma offsets_inv_fold ps : forall P st,
  offsets_inv P st -> offsets_inv (P ++ List.concat ps) (fold_left retokenize_step ps st).
Proof.
  induction ps as [|tt ps IH]; intros P st H; simpl.
  - rewrite app_nil_r. exact H.
  - rewrite app_assoc. apply IH, offsets_inv_step, H.
Qed.

Lemma offsets_inv_init : offsets_inv [] retokenize_init.
Proof.
  split; [reflexivity|]. split; [constructor|]. intros H. contradiction H. reflexivity.
Qed.

Lemma offsets_finish P st ws :
  offsets_inv P st ->
  Forall (fun '(t, _, o) => sub_at o t P) (retokenize_finish st ws).
Proof.
  intros (_ & Hf & Hp). unfold retokenize_finish.
  destruct (pending_token_text st) as [|c r] eqn:E; [exact Hf|].
  apply Forall_app. split; [exact Hf|]. constructor; [|constructor].
  apply Hp. discriminate.
Qed.

Lemma sum_lengths_concat_aux ts : forall a,
  fold_left (fun n (t : str) => n + List.length t)%nat ts a = (a + List.length (List.concat ts))%nat.
Proof.
  induction ts as [|t ts IH]; intros a; simpl; [lia|].
  rewrite IH, length_app. lia.
Qed.

Lemma sum_lengths_concat ts : sum_lengths ts = List.length (List.concat ts).
Proof. unfold sum_lengths. rewrite sum_lengths_concat_aux. reflexivity. Qed.

Lemma kept_offsets_from_app o P q :
  kept_offsets_from o (P ++ q) =
  kept_offsets_from o P ++ kept_offsets_from (o + List.length (List.concat P)) q.
Proof.
  revert o. induction P as [|t P IH]; intros o; simpl.
  - rewrite Nat.add_0_r. reflexivity.
  - rewrite IH, <- app_assoc, length_app, Nat.add_assoc. reflexivity.
Qed.

Lemma kept_inv_step P st tt :
  kept_inv P st -> kept_inv (P ++ [tt]) (retokenize_step st tt).
Proof.
  intros [Ho Hk]. unfold kept_inv, retokenize_step.
  rewrite kept_offsets_from_app, <- Hk, concat_app, length_app. simpl.
  rewrite app_nil_r.
  destruct (is_blank tt) eqn:E; simpl.
  - rewrite Ho, !app_nil_r. split; reflexivity.
  - rewrite Ho. split; [reflexivity|].
    unfold pending_entry at 2. simpl.
    destruct tt as [|a r]; [discriminate E|].
    unfold pending_entry.
    destruct (pending_token_text st) as [|c cs] eqn:Ep; simpl.
    + rewrite app_nil_r. reflexivity.
    + rewrite map_app. simpl. rewrite <- !app_assoc. reflexivity.
Qed.

Lemma kept_inv_fold ps : forall P st,
  kept_inv P st -> kept_inv (P ++ ps) (fold_left retokenize_step ps st).
Proof.
  induction ps as [|tt ps IH]; intros P st H; simpl.
  - rewrite app_nil_r. exact H.
  - replace (P ++ tt :: ps) with ((P ++ [tt]) ++ ps)
      by (rewrite <- app_assoc; reflexivity).
    apply IH, kept_inv_step, H.
Qed.

Lemma kept_inv_init : kept_inv [] retokenize_init.
Proof. split; reflexivity. Qed.

Lemma kept_finish st ws :
  map text_and_offset (retokenize_finish st ws) =
  map text_and_offset (texts_with_whitespace st) ++ pending_entry st.
Proof.
  unfold retokenize_finish, pending_entry.
  destruct (pending_token_text st) as [|c cs]; simpl.
  - rewrite app_nil_r. reflexivity.
  - rewrite map_app. reflexivity.
Qed.

Lemma kept_offsets_sub_at P : forall pre,
  Forall (fun '(s, o) => sub_at o s (pre ++ List.concat P))
    (kept_offsets_from (List.length pre) P).
Proof.
  induction P as [|t P IH]; intros pre; simpl; [constructor|].
  apply Forall_app. split.
  - destruct (is_blank t); constructor; [|constructor].
    exists pre, (List.concat P). split; reflexivity.
  - rewrite <- length_app. rewrite app_assoc. apply IH.
Qed.

Lemma kept_offsets_blank ts o :
  is_blank (List.concat ts) = true -> kept_offsets_from o ts = [].
Proof.
  revert o. induction ts as [|t ts IH]; intros o; simpl; [reflexivity|].
  rewrite is_blank_app. intros H. apply andb_true_iff in H as [H1 H2].
  rewrite H1, IH by exact H2. reflexivity.
Qed.

Lemma Forall2_map_same {A B C} (f : A -> B) (g : A -> C) (R : B -> C -> Prop) l :
  (forall a, In a l -> R (f a) (g a)) -> Forall2 R (map f l) (map g l).
Proof.
  induction l as [|a l IH]; intros H; simpl; constructor.
  - apply H. left. reflexivity.
  - apply IH. intros b Hb. apply H. right. exact Hb.
Qed.

(** Claim C2 (as amended): the sub-tokens produced by
    [retokenize_layout_token], with a tokenizer whose output strings
    concatenate back to the text, correspond one to one and in order to
    the strings of the tokenizer output that are not whitespace only,
    each paired with its character offset (the total length of the
    strings before it, whitespace included): the sub-token has that
    string as text and keeps the original font, the string occurs in the
    original text at that offset, and when the token has no coordinates
    neither has the sub-token, otherwise the sub-token's y and height are
    the original ones and its x is the original x plus the original width
    times that offset over the total text length. *)
Theorem retokenize_relative_coordinates (fn : str -> list str) (tok : LayoutToken) :
  List.concat (fn (text tok)) = text tok ->
  Forall2 (fun t' '(s, o) =>
      text t' = s /\ font t' = font tok /\ sub_at o s (text tok) /\
      match coordinates tok with
      | None => coordinates t' = None
      | Some c =>
          exists c', coordinates t' = Some c' /\ y c' = y c /\ height c' = height c /\
            x c' == x c + (width c * inject_Z (Z.of_nat o))
                          / inject_Z (Z.of_nat (List.length (text tok)))
      end)
    (retokenize_layout_token fn tok) (kept_offsets_from 0 (fn (text tok))).
Proof.
  intros Hc. unfold retokenize_layout_token.
  destruct (is_blank (text tok)) eqn:Eb.
  { rewrite kept_offsets_blank by (rewrite Hc; exact Eb). constructor. }
  destruct (str_list_eqb (fn (text tok)) [text tok]) eqn:Eq.
  - apply str_list_eqb_true in Eq. rewrite Eq. simpl. rewrite Eb. simpl.
    constructor; [|constructor].
    split; [reflexivity|]. split; [reflexivity|].
    split; [exists [], []; rewrite app_nil_r; split; reflexivity|].
    destruct (coordinates tok) as [c|]; [|reflexivity].
    exists c. repeat split; try reflexivity.
    simpl. unfold inject_Z, Qdiv. ring.
  - set (st := fold_left retokenize_step (fn (text tok)) retokenize_init).
    pose proof (kept_inv_fold (fn (text tok)) [] retokenize_init kept_inv_init) as [_ Hk].
    simpl in Hk. fold st in Hk.
    rewrite <- Hk, <- kept_finish with (ws := whitespace tok).
    pose proof (kept_offsets_sub_at (fn (text tok)) []) as Hs.
    simpl in Hs. rewrite Hc, <- Hk, <- kept_finish with (ws := whitespace tok) in Hs.
    rewrite Forall_forall in Hs.
    apply Forall2_map_same. intros [[t w] o] Hin.
    specialize (Hs (t, o) (in_map text_and_offset _ _ Hin)). simpl in Hs.
    cbn [text font text_and_offset coordinates].
    split; [reflexivity|]. split; [reflexivity|]. split; [exact Hs|].
    destruct (coordinates tok) as [c|]; [|reflexivity].
    eexists. split; [reflexivity|]. simpl. split; [reflexivity|]. split; [reflexivity|].
    rewrite sum_lengths_concat, Hc. reflexivity.
Qed.

(** The text "a b a": the two sub-tokens "a" are at offsets 0 and 4. *)
Lemma retokenize_relative_coordinates_witness :
  let tok := mkToken (T "a b a") EMPTY_FONT (T " ") (Some (mkCoords 10 5 50 8)) in
  List.concat (split_runs (text tok)) = text tok /\
  kept_offsets_from 0 (split_runs (text tok)) = [(T "a", 0%nat); (T "b", 2%nat); (T "a", 4%nat)] /\
  Forall2 (fun t' '(s, o) =>
      text t' = s /\ font t' = font tok /\ sub_at o s (text tok) /\
      match coordinates tok with
      | None => coordinates t' = None
      | Some c =>
          exists c', coordinates t' = Some c' /\ y c' = y c /\ height c' = height c /\
            x c' == x c + (width c * inject_Z (Z.of_nat o))
                          / inject_Z (Z.of_nat (List.length (text tok)))
      end)
    (retokenize_layout_token split_runs tok) (kept_offsets_from 0 (split_runs (text tok))).
Proof.
  intros tok.
  assert (Hc : List.concat (split_runs (text tok)) = text tok) by reflexivity.
  split; [exact Hc|]. split; [reflexivity|].
  exact (retokenize_relative_coordinates split_runs tok Hc).
Defined.

(** Claim C2 (as stated) fails: the widths of the sub-tokens do not add
    up to the original width when the tokenizer output contains
    whitespace, since the whitespace counts in the total text length but
    gets no sub-token of its own. *)
Lemma retokenize_width_sum_counterexample :
  ~ (forall (fn : str -> list str) (tok : LayoutToken) (c : LayoutCoordinates),
       List.concat (fn (text tok)) = text tok ->
       coordinates tok = Some c ->
       sum_widths (retokenize_layout_token fn tok) == width c).
Proof.
  intros H.
  specialize (H split_runs (mkToken (T "a b") EMPTY_FONT (T " ") (Some (mkCoords 0 0 3 1)))
                (mkCoords 0 0 3 1) eq_refl eq_refl).
  vm_compute in H. discriminate H.
Qed.

(** The width of every sub-token is computed from the text left in
    [pending_token_text] after the loop: here "abc" gets the width of "d". *)
Example retokenize_widths_from_last_text :
  map (fun t => option_map width (coordinates t))
    (retokenize_layout_token split_runs
       (mkToken (T "abc d") EMPTY_FONT (T " ") (Some (mkCoords 0 0 5 1))))
  = [Some (5 * 1 / 5); Some (5 * 1 / 5)].
Proof. reflexivity. Qed.

(** ** Bounding boxes *)
Module BoundingBoxFacts.
Import BoundingBox.

(** Replace every [Qmin]/[Qmax] by a fresh variable with its defining
    disjunction, to be closed by [lra]. *)
Ltac abstract_minmax :=
  repeat match goal with
  | |- context [Qmin ?a ?b] =>
      let m := fresh "m" in let H := fresh "Hm" in
      pose proof (Q.min_spec a b) as H; cbv [QHasMinMax.min Q_as_OT.lt Q_as_OT.eq Q_as_OT.le] in H;
      set (m := Qmin a b) in *; clearbody m
  | |- context [Qmax ?a ?b] =>
      let m := fresh "m" in let H := fresh "Hm" in
      pose proof (Q.max_spec a b) as H; cbv [QHasMinMax.max Q_as_OT.lt Q_as_OT.eq Q_as_OT.le] in H;
      set (m := Qmax a b) in *; clearbody m
  | _ : context [Qmin ?a ?b] |- _ =>
      let m := fresh "m" in let H := fresh "Hm" in
      pose proof (Q.min_spec a b) as H; cbv [QHasMinMax.min Q_as_OT.lt Q_as_OT.eq Q_as_OT.le] in H;
      set (m := Qmin a b) in *; clearbody m
  | _ : context [Qmax ?a ?b] |- _ =>
      let m := fresh "m" in let H := fresh "Hm" in
      pose proof (Q.max_spec a b) as H; cbv [QHasMinMax.max Q_as_OT.lt Q_as_OT.eq Q_as_OT.le] in H;
      set (m := Qmax a b) in *; clearbody m
  end.

Ltac split_minmax :=
  repeat match goal with
  | H : _ \/ _ |- _ => destruct H as [[? ?]|[? ?]]
  end.





Lemma not_empty_pos a : nonneg a -> is_empty a = false -> 0 < width a /\ 0 < height a.
Proof.
  intros [Hw Hh] H. unfold is_empty in H. apply orb_false_iff in H as [H1 H2].
  split; apply Qle_lteq in Hw, Hh;
  [destruct Hw as [Hw|Hw]; [exact Hw|] | destruct Hh as [Hh|Hh]; [exact Hh|]];
  [rewrite <- Hw in H1 | rewrite <- Hh in H2]; discriminate.
Qed.

Lemma pos_not_empty a : 0 < width a -> 0 < height a -> is_empty a = false.
Proof.
  intros Hw Hh. unfold is_empty.
  destruct (Qeq_bool (width a) 0) eqn:E1; [apply Qeq_bool_eq in E1; lra|].
  destruct (Qeq_bool (height a) 0) eqn:E2; [apply Qeq_bool_eq in E2; lra|].
  reflexivity.
Qed.

Lemma include_nonempty_pos a b :
  0 < width a -> 0 < height a ->
  0 < width (include_nonempty a b) /\ 0 < height (include_nonempty a b).
Proof. intros Hw Hh. unfold include_nonempty; simpl. abstract_minmax. split_minmax; lra. Qed.

Lemma include_nonneg a b : nonneg a -> nonneg b -> nonneg (include a b).
Proof.
  intros Ha Hb. unfold include.
  destruct (is_empty b) eqn:Eb; [exact Ha|].
  destruct (is_empty a) eqn:Ea; [exact Hb|].
  destruct (not_empty_pos a Ha Ea) as [Hw Hh].
  destruct (include_nonempty_pos a b Hw Hh). split; simpl in *; lra.
Qed.

Lemma include_is_empty a b :
  nonneg a -> nonneg b -> is_empty (include a b) = (is_empty a && is_empty b)%bool.
Proof.
  intros Ha Hb. unfold include.
  destruct (is_empty b) eqn:Eb; [rewrite andb_true_r; reflexivity|].
  destruct (is_empty a) eqn:Ea; [exact Eb|].
  destruct (not_empty_pos a Ha Ea) as [Hw Hh].
  destruct (include_nonempty_pos a b Hw Hh).
  apply pos_not_empty; assumption.
Qed.









(** Claim C10: [merge_bounding_boxes] of an empty list fails (the
    [TypeError] of [reduce]) instead of returning the empty bounding box;
    on a non-empty list it is the left fold of [include] from the first box. *)
Theorem merge_bounding_boxes_reduce :
  merge_bounding_boxes [] = None /\
  merge_bounding_boxes [] <> Some EMPTY_BOUNDING_BOX /\
  (forall b bs, merge_bounding_boxes (b :: bs) = Some (fold_left include bs b)).
Proof.
  split; [reflexivity|]. split; [discriminate|].
  intros b bs. unfold merge_bounding_boxes, reduce. f_equal.
  revert b. induction bs as [|b' bs IH]; intros b; simpl; [reflexivity|]. apply IH.
Qed.

End BoundingBoxFacts.

(** ** Boundary status *)

Local Open Scope Z_scope.

(** Claim C6: the line status is LINEEND at index [count - 1] (so also for
    the only token of a one-token line), otherwise LINESTART at index 0 and
    LINEIN elsewhere; the block status is BLOCKEND exactly for a LINEEND on
    the block's last line, BLOCKSTART exactly for a LINESTART on its first
    line, and BLOCKIN otherwise. *)
Theorem line_and_block_status :
  (forall i n, i = n - 1 -> get_line_status i n = "LINEEND"%string) /\
  (forall i n, i = 0 -> i <> n - 1 -> get_line_status i n = "LINESTART"%string) /\
  (forall i n, i <> 0 -> i <> n - 1 -> get_line_status i n = "LINEIN"%string) /\
  get_line_status 0 1 = "LINEEND"%string /\
  (forall li lc ls,
     (get_block_status li lc ls = "BLOCKEND"%string <-> li = lc - 1 /\ ls = "LINEEND"%string) /\
     (get_block_status li lc ls = "BLOCKSTART"%string <-> li = 0 /\ ls = "LINESTART"%string) /\
     (get_block_status li lc ls = "BLOCKIN"%string <->
        ~ (li = lc - 1 /\ ls = "LINEEND"%string) /\ ~ (li = 0 /\ ls = "LINESTART"%string))).
Proof.
  split; [intros i n ->; unfold get_line_status; rewrite Z.eqb_refl; reflexivity|].
  split.
  { intros i n H1 H2. unfold get_line_status.
    apply Z.eqb_neq in H2. rewrite H2, H1. reflexivity. }
  split.
  { intros i n H1 H2. unfold get_line_status.
    apply Z.eqb_neq in H1, H2. rewrite H2, H1. reflexivity. }
  split; [reflexivity|].
  intros li lc ls. unfold get_block_status.
  destruct (Z.eqb_spec li (lc - 1)) as [E1|E1];
  destruct (String.eqb_spec ls "LINEEND"%string) as [E2|E2];
  destruct (Z.eqb_spec li 0) as [E3|E3];
  destruct (String.eqb_spec ls "LINESTART"%string) as [E4|E4]; simpl;
  subst; repeat split; intros; try discriminate; try tauto;
  match goal with
  | H : _ /\ _ |- _ => destruct H; try congruence
  | _ => idtac
  end.
Qed.

(** ** Capitalisation *)

Lemma digit_not_lower c : is_digit c = true -> is_lower c = false.
Proof.
  destruct c as [[] [] [] [] [] [] [] []]; vm_compute; congruence.
Qed.

Lemma isdigit_no_lower s : str_isdigit s = true -> existsb is_lower s = false.
Proof.
  destruct s as [|c r]; [discriminate|]. unfold str_isdigit. intros H.
  rewrite forallb_forall in H.
  destruct (existsb is_lower (c :: r)) eqn:E; [|reflexivity].
  apply existsb_exists in E as (c' & Hin & Hl).
  rewrite (digit_not_lower c' (H c' Hin)) in Hl. discriminate Hl.
Qed.

Lemma forallb_not_lower s :
  forallb (fun c => negb (is_lower c)) s = negb (existsb is_lower s).
Proof.
  induction s as [|c s IH]; simpl; [reflexivity|].
  rewrite IH. destruct (is_lower c); reflexivity.
Qed.

Lemma digit_feature_alldigit s :
  String.eqb (get_digit_feature s) "ALLDIGIT" = str_isdigit s.
Proof.
  unfold get_digit_feature.
  destruct (str_isdigit s); [reflexivity|]. destruct (existsb is_digit s); reflexivity.
Qed.

(** Claim C5 (as amended): the capitalisation status is ALLCAP exactly for
    a non-empty text with no lowercase letter that is not all digits (a
    letter is not required); INITCAP exactly when the text has a lowercase
    letter and its first character is uppercase; NOCAPS otherwise, that is
    for the empty text, all-digit text, and text with a lowercase letter
    whose first character is not uppercase. *)
Theorem capitalisation_status_spec (s : str) :
  (get_capitalisation_status s = "ALLCAP"%string <->
     s <> [] /\ existsb is_lower s = false /\ str_isdigit s = false) /\
  (get_capitalisation_status s = "INITCAP"%string <->
     existsb is_lower s = true /\ exists c r, s = c :: r /\ is_upper c = true) /\
  (get_capitalisation_status s = "NOCAPS"%string <->
     s = [] \/ str_isdigit s = true \/
     (existsb is_lower s = true /\ forall c r, s = c :: r -> is_upper c = false)).
Proof.
  unfold get_capitalisation_status. rewrite digit_feature_alldigit.
  destruct (str_isdigit s) eqn:D.
  - pose proof (isdigit_no_lower s D) as L. rewrite L.
    split; [split; [discriminate | intros (_ & _ & H); discriminate H]|].
    split; [split; [discriminate | intros (H & _); discriminate H]|].
    split; [intros _; right; left; reflexivity | reflexivity].
  - destruct s as [|c r].
    + split; [split; [discriminate | intros (H & _); contradiction H; reflexivity]|].
      split; [split; [discriminate | intros (H & _); discriminate H]|].
      split; [intros _; left; reflexivity | reflexivity].
    + unfold get_capitalisation_feature. rewrite forallb_not_lower.
      destruct (existsb is_lower (c :: r)) eqn:L; simpl.
      * destruct (is_upper c) eqn:U.
        -- split; [split; [discriminate | intros (_ & H & _); discriminate H]|].
           split; [split; [intros _; split; [reflexivity | exists c, r; auto] | reflexivity]|].
           split; [discriminate|].
           intros [H|[H|(_ & H)]]; [discriminate H | discriminate H |].
           rewrite (H c r eq_refl) in U. discriminate U.
        -- split; [split; [discriminate | intros (_ & H & _); discriminate H]|].
           split; [split; [discriminate|] | ].
           { intros (_ & c' & r' & E & U'). injection E as -> ->. congruence. }
           split; [|reflexivity]. intros _. right; right. split; [reflexivity|].
           intros c' r' E. injection E as -> ->. exact U.
      * split; [split; [intros _; repeat split; discriminate | reflexivity]|].
        split; [split; [discriminate | intros (H & _); discriminate H]|].
        split; [discriminate|]. intros [H|[H|(H & _)]]; discriminate H.
Qed.

(** The examples of claim C5 on the code, and Latin-1 letters: "\xe0"
    is lowercase, "\xc7a" begins with an uppercase letter and "\xb2" (a
    superscript two) is a digit for [str.isdigit]. *)
Example capitalisation_examples :
  get_capitalisation_status (T "ABC") = "ALLCAP"%string /\
  get_capitalisation_status (T "Abc") = "INITCAP"%string /\
  get_capitalisation_status (T "abc") = "NOCAPS"%string /\
  get_capitalisation_status (T "123") = "NOCAPS"%string /\
  get_capitalisation_status [ascii_of_nat 224] = "NOCAPS"%string /\
  get_capitalisation_status [ascii_of_nat 199; "a"%char] = "INITCAP"%string /\
  get_capitalisation_status [ascii_of_nat 201; ascii_of_nat 192] = "ALLCAP"%string /\
  get_capitalisation_status [ascii_of_nat 178] = "NOCAPS"%string.
Proof. repeat split; reflexivity. Qed.

(** Claim C5 (as stated) fails: "." has no lowercase and no letter, yet
    its status is ALLCAP, not NOCAPS. *)
Lemma capitalisation_status_counterexample :
  ~ (forall s : str,
       get_capitalisation_status s = "ALLCAP"%string <->
       existsb is_lower s = false /\ existsb is_alpha s = true).
Proof.
  intros H. destruct (H (T ".")) as [H1 _].
  destruct (H1 eq_refl) as [_ H2]. discriminate H2.
Qed.

(** ** Structure preservation of [flat_map_layout_tokens] *)

Lemma Forall2_map_self {A B} (R : A -> B -> Prop) (f : A -> B) (l : list A) :
  (forall a, In a l -> R a (f a)) -> Forall2 R l (map f l).
Proof.
  induction l as [|a l IH]; intros H; simpl; constructor.
  - apply H. left. reflexivity.
  - apply IH. intros a' Hin. apply H. right. exact Hin.
Qed.

(** Claim C7: [flat_map_layout_tokens fn] keeps the number of pages, of
    blocks in each page and of lines in each block, and each resulting
    line's tokens are the in-order concatenation of [fn] applied to that
    line's tokens. *)
Theorem flat_map_layout_tokens_structure (fn : LayoutToken -> list LayoutToken)
    (d : LayoutDocument) :
  List.length (pages (flat_map_layout_tokens fn d)) = List.length (pages d) /\
  Forall2 (fun p p' =>
    List.length (blocks p') = List.length (blocks p) /\
    Forall2 (fun b b' =>
      List.length (lines b') = List.length (lines b) /\
      Forall2 (fun l l' => tokens l' = List.concat (map fn (tokens l)))
        (lines b) (lines b'))
      (blocks p) (blocks p'))
    (pages d) (pages (flat_map_layout_tokens fn d)).
Proof.
  split; [simpl; apply length_map|].
  apply Forall2_map_self. intros p _. simpl.
  split; [apply length_map|].
  apply Forall2_map_self. intros b _. simpl.
  split; [apply length_map|].
  apply Forall2_map_self. intros l _. simpl.
  apply flat_map_concat_map.
Qed.

(** ** TEI style runs *)

Lemma styles_eqb_refl a : styles_eqb a a = true.
Proof. unfold styles_eqb. destruct (list_eq_dec string_dec a a); congruence. Qed.

Lemma styles_eqb_true a b : styles_eqb a b = true -> a = b.
Proof. unfold styles_eqb. destruct (list_eq_dec string_dec a b); congruence. Qed.

Lemma styles_eqb_false a b : a <> b -> styles_eqb a b = false.
Proof. unfold styles_eqb. destruct (list_eq_dec string_dec a b); congruence. Qed.

Lemma tei_step_same out S PT PW t :
  get_required_styles t = S ->
  tei_step (mkTei out S PT PW) t = mkTei out S (PT ++ PW ++ text t) (whitespace t).
Proof.
  intros H. unfold tei_step. cbv zeta. cbn [pending_styles pending_text pending_ws yielded]. rewrite H, styles_eqb_refl. simpl.
  destruct PW as [|c PW]; simpl; [reflexivity|]. rewrite <- app_assoc. reflexivity.
Qed.

Lemma tei_step_diff out S PT PW t :
  get_required_styles t <> S ->
  tei_step (mkTei out S PT PW) t =
  mkTei (out ++ element_if S PT ++ text_if PW) (get_required_styles t) (text t) (whitespace t).
Proof.
  intros H. unfold tei_step. cbv zeta. cbn [pending_styles pending_text pending_ws yielded]. rewrite (styles_eqb_false _ _ H). simpl.
  unfold element_if, text_if.
  destruct PT as [|a PT]; destruct PW as [|b PW]; simpl;
  rewrite ?app_nil_r, <- ?app_assoc; reflexivity.
Qed.

Lemma last_whitespace_cons2 t t' ts :
  last_whitespace (t :: t' :: ts) = last_whitespace (t' :: ts).
Proof.
  unfold last_whitespace. change (rev (t :: t' :: ts)) with (rev (t' :: ts) ++ [t]).
  destruct (rev (t' :: ts)) eqn:E; [|reflexivity].
  apply (f_equal (@List.length _)) in E. simpl in E. rewrite length_app in E. simpl in E. lia.
Qed.

Lemma tei_fold_same ts : forall t out S PT PW,
  Forall (fun t => get_required_styles t = S) (t :: ts) ->
  fold_left tei_step (t :: ts) (mkTei out S PT PW) =
  mkTei out S (PT ++ PW ++ join_layout_tokens (t :: ts)) (last_whitespace (t :: ts)).
Proof.
  induction ts as [|t' ts IH]; intros t out S PT PW H;
  apply Forall_cons_iff in H as [Ht Hts].
  - simpl. rewrite tei_step_same by exact Ht. reflexivity.
  - cbn [fold_left]. rewrite tei_step_same by exact Ht.
    cbn [fold_left] in IH. rewrite IH by exact Hts.
    rewrite last_whitespace_cons2. cbn [join_layout_tokens].
    rewrite <- !app_assoc. reflexivity.
Qed.

Lemma tei_fold_runs runs : forall out S PT PW,
  runs <> [] -> runs_homogeneous runs -> adjacent_distinct runs ->
  first_styles runs <> Some S ->
  tei_finish (fold_left tei_step (List.concat (map snd runs)) (mkTei out S PT PW)) =
  out ++ element_if S PT ++ text_if PW ++ render_runs runs.
Proof.
  induction runs as [|[s1 r1] rest IH]; intros out S PT PW Hne Hh Hd Hf; [contradiction|].
  apply Forall_cons_iff in Hh as [[Hr1 Hall] Hrest].
  destruct r1 as [|t r1']; [contradiction|].
  pose proof Hall as Hall'. apply Forall_cons_iff in Hall' as [Ht Hr1s].
  cbn [map snd]. rewrite concat_cons, fold_left_app. cbn [fold_left].
  rewrite tei_step_diff by (intros E; apply Hf; simpl; rewrite <- Ht, E; reflexivity).
  rewrite Ht.
  set (out' := out ++ element_if S PT ++ text_if PW).
  assert (Hrun : fold_left tei_step r1' (mkTei out' s1 (text t) (whitespace t)) =
                 mkTei out' s1 (join_layout_tokens (t :: r1')) (last_whitespace (t :: r1'))).
  { destruct r1' as [|t' r1'']; [reflexivity|].
    rewrite tei_fold_same by exact Hr1s. rewrite last_whitespace_cons2. reflexivity. }
  rewrite Hrun.
  destruct rest as [|[s2 r2] rest'].
  - cbn [List.concat map fold_left]. rewrite ?app_nil_r.
    unfold tei_finish, out', element_if. cbn [yielded pending_text pending_styles render_runs].
    unfold element_if.
    destruct (is_nonempty (join_layout_tokens (t :: r1'))); rewrite <- ?app_assoc, ?app_nil_r;
    reflexivity.
  - rewrite IH; [| discriminate | exact Hrest | exact (proj2 Hd) |].
    + unfold out'. rewrite <- !app_assoc. reflexivity.
    + simpl. intros E. injection E as E. apply (proj1 Hd). symmetry. exact E.
Qed.

Lemma tei_fold_runs_same runs : forall out S,
  runs_homogeneous runs -> adjacent_distinct runs -> first_styles runs = Some S ->
  tei_finish (fold_left tei_step (List.concat (map snd runs)) (mkTei out S [] [])) =
  out ++ render_runs runs.
Proof.
  intros out S Hh Hd Hf.
  destruct runs as [|[s1 r1] rest]; [discriminate Hf|].
  injection Hf as ->.
  apply Forall_cons_iff in Hh as [[Hr1 Hall] Hrest].
  destruct r1 as [|t r1']; [contradiction|].
  cbn [map snd]. rewrite concat_cons, fold_left_app.
  rewrite tei_fold_same by exact Hall.
  destruct rest as [|[s2 r2] rest'].
  - cbn [List.concat map fold_left]. unfold tei_finish, element_if.
    cbn [yielded pending_text pending_styles render_runs app]. unfold element_if.
    destruct (is_nonempty (join_layout_tokens (t :: r1'))); rewrite ?app_nil_r; reflexivity.
  - rewrite tei_fold_runs; [| discriminate | exact Hrest | exact (proj2 Hd) |].
    + cbn [app]. reflexivity.
    + simpl. intros E. injection E as E. apply (proj1 Hd). symmetry. exact E.
Qed.

Lemma group_runs_concat ts : List.concat (map snd (group_runs ts)) = ts.
Proof.
  induction ts as [|t rest IH]; [reflexivity|]. simpl.
  destruct (group_runs rest) as [|[s r] runs]; simpl in IH |- *.
  - rewrite <- IH. reflexivity.
  - destruct (styles_eqb (get_required_styles t) s); simpl; rewrite IH; reflexivity.
Qed.

Lemma group_runs_homogeneous ts : runs_homogeneous (group_runs ts).
Proof.
  unfold runs_homogeneous.
  induction ts as [|t rest IH]; [constructor|]. simpl.
  destruct (group_runs rest) as [|[s r] runs].
  - constructor; [|constructor]. split; [discriminate|]. constructor; [reflexivity|constructor].
  - apply Forall_cons_iff in IH as [[Hr Hall] Hruns].
    destruct (styles_eqb (get_required_styles t) s) eqn:E.
    + constructor; [|exact Hruns]. split; [discriminate|].
      constructor; [apply styles_eqb_true; exact E | exact Hall].
    + constructor; [|constructor; [split; assumption | exact Hruns]].
      split; [discriminate|]. constructor; [reflexivity|constructor].
Qed.

Lemma adjacent_distinct_head s r r' runs :
  adjacent_distinct ((s, r) :: runs) -> adjacent_distinct ((s, r') :: runs).
Proof. destruct runs as [|[s2 r2] runs]; simpl; auto. Qed.

Lemma group_runs_adjacent ts : adjacent_distinct (group_runs ts).
Proof.
  induction ts as [|t rest IH]; [exact I|]. simpl.
  destruct (group_runs rest) as [|[s r] runs]; [exact I|].
  destruct (styles_eqb (get_required_styles t) s) eqn:E.
  - eapply adjacent_distinct_head. exact IH.
  - split; [|exact IH]. intros H. rewrite H, styles_eqb_refl in E. discriminate E.
Qed.

Lemma get_element_for_styles_nesting styles s :
  get_element_for_styles styles s = fold_right HiNode (TextNode s) styles.
Proof.
  destruct styles as [|st styles]; [reflexivity|].
  unfold get_element_for_styles.
  assert (Hrev : forall (g : option TeiNode -> string -> option TeiNode) l i,
    fold_left g (rev l) i = fold_right (fun x y => g y x) i l).
  { intros g l. induction l as [|a l IHl]; intros i; [reflexivity|].
    simpl. rewrite fold_left_app, IHl. reflexivity. }
  rewrite Hrev.
  assert (H : forall l, l <> [] ->
    fold_right (fun style child =>
      match child with
      | Some c => Some (HiNode style c)
      | None => Some (HiNode style (TextNode s))
      end) None l = Some (fold_right HiNode (TextNode s) l)).
  { induction l as [|a l IHl]; intros Hne; [contradiction|].
    destruct l as [|b l]; [reflexivity|].
    simpl. simpl in IHl. rewrite IHl by discriminate. reflexivity. }
  rewrite H by discriminate. reflexivity.
Qed.

(** Claim C4 (as amended): the children of a block are, after the
    coordinates attribute when enabled, one node per maximal run of
    consecutive tokens with the same required styles (the run's texts
    joined with the whitespace between them, wrapped in nested [hi]
    elements with the first listed style outermost, or the plain text when
    the run has no style; nothing when that text is empty), each run but
    the last followed by its trailing whitespace as a text node when that
    is not empty; the runs partition the tokens in order and neighbouring
    runs differ in style. *)
Theorem tei_style_runs (merged_coords : string) (layout_block : LayoutBlock)
    (enable_coordinates : bool) :
  let runs := group_runs (block_tokens layout_block) in
  iter_layout_block_tei_children merged_coords layout_block enable_coordinates =
    (if enable_coordinates then [AttribItem merged_coords] else []) ++ render_runs runs /\
  List.concat (map snd runs) = block_tokens layout_block /\
  runs_homogeneous runs /\ adjacent_distinct runs /\
  (forall styles s, get_element_for_styles styles s = fold_right HiNode (TextNode s) styles).
Proof.
  intros runs.
  split; [|split; [apply group_runs_concat|]];
    [|split; [apply group_runs_homogeneous|split; [apply group_runs_adjacent|]]];
    [|exact get_element_for_styles_nesting].
  unfold iter_layout_block_tei_children.
  set (out := if enable_coordinates then [AttribItem merged_coords] else []).
  rewrite <- (group_runs_concat (block_tokens layout_block)). fold runs.
  pose proof (group_runs_homogeneous (block_tokens layout_block)) as Hh.
  pose proof (group_runs_adjacent (block_tokens layout_block)) as Hd.
  fold runs in Hh, Hd.
  destruct runs as [|[s1 r1] rest] eqn:Er.
  - unfold tei_finish. simpl. rewrite app_nil_r. reflexivity.
  - destruct (list_eq_dec string_dec s1 []) as [->|Hs].
    + apply tei_fold_runs_same; [exact Hh | exact Hd | reflexivity].
    + rewrite tei_fold_runs; [reflexivity | discriminate | exact Hh | exact Hd |].
      simpl. intros E. injection E as E. contradiction.
Qed.

(** Claim C4 fails as stated: a run whose joined text is empty emits no
    node, so a block with a bold token, a plain token of empty text and
    another bold token has three style runs but yields two adjacent
    [hi rend=bold] elements and no plain text run between them. *)
Example tei_style_runs_counterexample :
  let bold := mkFont "bold"%string None None (Some true) None in
  let blk := mkBlock [mkLine [mkToken (T "a") bold [] None;
                              mkToken [] EMPTY_FONT [] None;
                              mkToken (T "b") bold [] None]] in
  List.length (group_runs (block_tokens blk)) = 3%nat /\
  iter_layout_block_tei_children EmptyString blk false =
    [NodeItem (HiNode "bold" (TextNode (T "a")));
     NodeItem (HiNode "bold" (TextNode (T "b")))].
Proof. split; vm_compute; reflexivity. Qed.

(** ** Segmentation feature rows *)


Lemma no_space_iff s : no_space s = true <-> (forall c, In c s -> code c <> 32%nat).
Proof.
  unfold no_space. rewrite forallb_forall. split; intros H c Hc.
  - specialize (H c Hc). apply negb_true_iff, Nat.eqb_neq in H. exact H.
  - apply negb_true_iff, Nat.eqb_neq. exact (H c Hc).
Qed.

Lemma no_space_incl s s' : (forall c, In c s' -> In c s) -> no_space s = true -> no_space s' = true.
Proof. rewrite !no_space_iff. intros Hi H c Hc. exact (H c (Hi c Hc)). Qed.

Lemma drop_while_incl f s c : In c (drop_while f s) -> In c s.
Proof. induction s as [|a s IH]; simpl; [tauto|]. destruct (f a); simpl; auto. Qed.

Lemma py_strip_incl s c : In c (py_strip s) -> In c s.
Proof.
  unfold py_strip. intros H. apply in_rev in H. apply drop_while_incl in H.
  apply in_rev in H. apply drop_while_incl in H. exact H.
Qed.

Lemma re_split_acc_no_space s : forall cur, no_space cur = true ->
  Forall (fun p => no_space p = true) (re_split_acc cur s).
Proof.
  induction s as [|c s IH]; intros cur Hcur; simpl.
  - constructor; [|constructor]. apply (no_space_incl cur); [|exact Hcur].
    intros a Ha. apply in_rev. exact Ha.
  - destruct (is_split_sep c) eqn:Ec.
    + constructor; [|apply IH; reflexivity].
      apply (no_space_incl cur); [|exact Hcur]. intros a Ha. apply in_rev. exact Ha.
    + apply IH. simpl. rewrite Hcur, andb_true_r. apply negb_true_iff, Nat.eqb_neq.
      intros E. unfold is_split_sep in Ec. rewrite E in Ec. discriminate Ec.
Qed.

Lemma str_of_nat_aux_no_space fuel : forall n acc, no_space acc = true ->
  no_space (str_of_nat_aux fuel n acc) = true.
Proof.
  induction fuel as [|fuel IH]; intros n acc Hacc; [exact Hacc|].
  cbn [str_of_nat_aux].
  assert (Hd : no_space (ascii_of_nat (48 + n mod 10) :: acc) = true).
  { unfold no_space. cbn [forallb]. fold (no_space acc).
    rewrite Hacc, andb_true_r. apply negb_true_iff, Nat.eqb_neq.
    pose proof (Nat.mod_upper_bound n 10) as Hb.
    unfold code. rewrite nat_ascii_embedding; lia. }
  destruct (n <? 10)%nat; [exact Hd | apply IH; exact Hd].
Qed.

Lemma str_of_Z_no_space z : no_space (str_of_Z z) = true.
Proof.
  unfold str_of_Z. destruct (z <? 0)%Z.
  - cbn [no_space forallb]. rewrite str_of_nat_aux_no_space; reflexivity.
  - apply str_of_nat_aux_no_space. reflexivity.
Qed.

Lemma format_feature_text_no_space s : no_space (format_feature_text s) = true.
Proof.
  apply no_space_iff. unfold format_feature_text. intros c Hc.
  apply in_map_iff in Hc as [a [<- _]].
  destruct (code a =? 32)%nat eqn:E; simpl.
  - discriminate.
  - destruct (code a =? 9)%nat; simpl; [discriminate|]. apply Nat.eqb_neq. exact E.
Qed.

Lemma py_split_space_acc_end s : forall cur, no_space s = true ->
  py_split_space_acc cur s = [rev cur ++ s].
Proof.
  induction s as [|c s IH]; intros cur H; simpl.
  - rewrite app_nil_r. reflexivity.
  - simpl in H. apply andb_true_iff in H as [Hc H]. apply negb_true_iff in Hc.
    rewrite Hc, IH by exact H. simpl. rewrite <- app_assoc. reflexivity.
Qed.

Lemma py_split_space_acc_app s rest : forall cur, no_space s = true ->
  py_split_space_acc cur (s ++ " "%char :: rest) = (rev cur ++ s) :: py_split_space_acc [] rest.
Proof.
  induction s as [|c s IH]; intros cur H; simpl.
  - rewrite app_nil_r. reflexivity.
  - simpl in H. apply andb_true_iff in H as [Hc H]. apply negb_true_iff in Hc.
    rewrite Hc, IH by exact H. simpl. rewrite <- app_assoc. reflexivity.
Qed.

Lemma py_split_join_space l : l <> [] -> Forall (fun s => no_space s = true) l ->
  py_split_space (join_space l) = l.
Proof.
  induction l as [|s l IH]; intros Hne Hl; [contradiction|].
  apply Forall_cons_iff in Hl as [Hs Hl]. unfold py_split_space.
  destruct l as [|s2 l].
  - simpl. rewrite py_split_space_acc_end by exact Hs. reflexivity.
  - change (join_space (s :: s2 :: l)) with (s ++ " "%char :: join_space (s2 :: l)).
    rewrite py_split_space_acc_app by exact Hs. simpl.
    f_equal. apply IH; [discriminate | exact Hl].
Qed.


Section SegmentationFacts.

Variable line_text : LayoutLine -> str.

Lemma iter_block_lines_facts pb bi bl m dtc ls : forall li prev dti,
  let r := iter_block_lines line_text pb bi bl m dtc ls li prev dti in
  (snd (fst r) = None \/ snd (fst r) = Some IndexError) /\
  Forall texts_no_space (fst (fst r)).
Proof.
  induction ls as [|line rest IH]; intros li prev dti; simpl; [auto|].
  pose proof (re_split_acc_no_space (line_text line) [] eq_refl) as Hsp.
  unfold re_split. destruct (re_split_acc [] (line_text line)) as [|p0 ps]; [apply IH|].
  destruct (tokens line) as [|tok toks]; [simpl; auto|].
  specialize (IH (S li) (Some tok) (dti + List.length (tok :: toks))%nat).
  destruct (iter_block_lines line_text pb bi bl m dtc rest (S li) (Some tok)
              (dti + List.length (tok :: toks))) as [[fs e] st].
  simpl in IH |- *. destruct IH as [He Hf]. split; [exact He|].
  constructor; [|exact Hf].
  apply Forall_cons_iff in Hsp as [H0 Hps]. split; simpl.
  - apply (no_space_incl p0); [apply py_strip_incl | exact H0].
  - destruct ps as [|p1 ps]; [reflexivity|]. apply Forall_cons_iff in Hps. apply Hps.
Qed.

Lemma iter_page_blocks_facts pb dtc bs : forall bi prev dti,
  let r := iter_page_blocks line_text pb dtc bs bi prev dti in
  snd (fst r) <> Some AssertionError /\ Forall texts_no_space (fst (fst r)).
Proof.
  induction bs as [|block rest IH]; intros bi prev dti; cbn [iter_page_blocks].
  - split; [discriminate | constructor].
  - destruct (lines block) as [|l ls]; [split; [discriminate | constructor]|].
    match goal with
    | |- context [iter_block_lines line_text ?a1 ?a2 ?a3 ?a4 ?a5 ?a6 ?a7 ?a8 ?a9] =>
        pose proof (iter_block_lines_facts a1 a2 a3 a4 a5 a6 a7 a8 a9) as Hb;
        destruct (iter_block_lines line_text a1 a2 a3 a4 a5 a6 a7 a8 a9) as [[fs e] st]
    end.
    cbn in Hb. destruct Hb as [He Hf].
    destruct e as [e|].
    + cbn. split; [destruct He as [He|He]; congruence | exact Hf].
    + specialize (IH (S bi) (fst st) (snd st)).
      destruct (iter_page_blocks line_text pb dtc rest (S bi) (fst st) (snd st))
        as [[fs2 e2] st2].
      cbn in IH |- *. destruct IH as [He2 Hf2].
      split; [exact He2 | apply Forall_app; split; assumption].
Qed.

Lemma iter_pages_facts dtc ps : forall prev dti,
  let r := iter_pages line_text dtc ps prev dti in
  snd r <> Some AssertionError /\ Forall texts_no_space (fst r).
Proof.
  induction ps as [|page rest IH]; intros prev dti; cbn [iter_pages].
  - split; [discriminate | constructor].
  - pose proof (iter_page_blocks_facts (blocks page) dtc (blocks page) 0 prev dti) as Hb.
    destruct (iter_page_blocks line_text (blocks page) dtc (blocks page) 0 prev dti)
      as [[fs e] st].
    cbn in Hb. destruct Hb as [He Hf].
    destruct e as [e|].
    + cbn. split; assumption.
    + specialize (IH (fst st) (snd st)).
      destruct (iter_pages line_text dtc rest (fst st) (snd st)) as [fs2 e2].
      cbn in IH |- *. destruct IH as [He2 Hf2].
      split; [exact He2 | apply Forall_app; split; assumption].
Qed.

Lemma iter_line_features_facts layout_document :
  snd (iter_line_features line_text layout_document) <> Some AssertionError /\
  Forall texts_no_space (fst (iter_line_features line_text layout_document)).
Proof. unfold iter_line_features. apply iter_pages_facts. Qed.

End SegmentationFacts.

Ltac solve_const_features :=
  repeat match goal with
         | |- context [if ?b then _ else _] => destruct b
         | |- context [match ?x with _ => _ end] => destruct x
         end; reflexivity.

Lemma seg_get_block_status_no_space i n : no_space (seg_get_block_status i n) = true.
Proof. unfold seg_get_block_status. solve_const_features. Qed.

Lemma get_page_status_no_space i n s : no_space (get_page_status i n s) = true.
Proof. unfold get_page_status. solve_const_features. Qed.

Lemma get_token_font_status_no_space p t : no_space (get_token_font_status p t) = true.
Proof. unfold get_token_font_status. solve_const_features. Qed.

Lemma get_token_font_size_feature_no_space p t :
  no_space (get_token_font_size_feature p t) = true.
Proof. unfold get_token_font_size_feature. solve_const_features. Qed.

Lemma get_str_bool_feature_value_no_space v : no_space (get_str_bool_feature_value v) = true.
Proof. unfold get_str_bool_feature_value. solve_const_features. Qed.

Section SegmentationRows.

Variable line_text : LayoutLine -> str.
Variable _LINESCALE : Z.
Variable get_lower_token_text : SegmentationLineFeatures -> str.
Variable get_prefix : nat -> SegmentationLineFeatures -> str.
Variable get_capitalisation_status_using_allcap : SegmentationLineFeatures -> str.
Variable get_digit_status_using_containsdigits : SegmentationLineFeatures -> str.
Variable get_dummy_str_relative_page_position : SegmentationLineFeatures -> str.
Variable get_line_punctuation_profile : SegmentationLineFeatures -> str.
Variable get_line_punctuation_profile_length_feature : SegmentationLineFeatures -> str.
Variable get_dummy_str_is_bitmap_around : SegmentationLineFeatures -> str.
Variable get_dummy_str_is_vector_around : SegmentationLineFeatures -> str.

Local Abbreviation LF := (line_features _LINESCALE get_lower_token_text get_prefix
  get_capitalisation_status_using_allcap get_digit_status_using_containsdigits
  get_dummy_str_relative_page_position get_line_punctuation_profile
  get_line_punctuation_profile_length_feature get_dummy_str_is_bitmap_around
  get_dummy_str_is_vector_around).

Local Abbreviation ROWS := (iter_model_data _LINESCALE get_lower_token_text get_prefix
  get_capitalisation_status_using_allcap get_digit_status_using_containsdigits
  get_dummy_str_relative_page_position get_line_punctuation_profile
  get_line_punctuation_profile_length_feature get_dummy_str_is_bitmap_around
  get_dummy_str_is_vector_around).

Local Abbreviation GEN := (iter_model_data_for_layout_document line_text _LINESCALE
  get_lower_token_text get_prefix
  get_capitalisation_status_using_allcap get_digit_status_using_containsdigits
  get_dummy_str_relative_page_position get_line_punctuation_profile
  get_line_punctuation_profile_length_feature get_dummy_str_is_bitmap_around
  get_dummy_str_is_vector_around).

Local Abbreviation MF := (missing_features get_lower_token_text get_prefix
  get_capitalisation_status_using_allcap get_digit_status_using_containsdigits
  get_dummy_str_relative_page_position get_line_punctuation_profile
  get_line_punctuation_profile_length_feature get_dummy_str_is_bitmap_around
  get_dummy_str_is_vector_around).

Lemma line_features_length f : List.length (LF f) = 34%nat.
Proof. reflexivity. Qed.

Lemma iter_model_data_rows fs :
  ROWS fs = (map (fun f => mkModelData (join_space (LF f)) (sf_layout_line f)) fs, None).
Proof.
  induction fs as [|f fs IH]; [reflexivity|].
  cbn [iter_model_data]. rewrite line_features_length. cbn [Nat.eqb negb].
  rewrite IH. reflexivity.
Qed.

Lemma line_features_no_space f :
  texts_no_space f -> forallb no_space (MF f) = true ->
  Forall (fun s => no_space s = true) (LF f).
Proof.
  intros [Ht Hs] Hm. unfold missing_features in Hm. cbn [forallb] in Hm.
  rewrite !andb_true_iff in Hm.
  destruct Hm as [H1 [H2 [H3 [H4 [H5 [H6 [H7 [H8 [H9 [H10 [H11 [H12 _]]]]]]]]]]]].
  apply Forall_forall. intros s Hin. unfold line_features in Hin. cbn [In] in Hin.
  repeat destruct Hin as [<-|Hin];
    first [ assumption
          | apply seg_get_block_status_no_space
          | apply get_page_status_no_space
          | apply get_token_font_status_no_space
          | apply get_token_font_size_feature_no_space
          | apply get_str_bool_feature_value_no_space
          | apply str_of_Z_no_space
          | apply format_feature_text_no_space
          | destruct (is_nonempty (sf_second_token_text f)); assumption
          | reflexivity
          | contradiction ].
Qed.

(** Claim C3: every row the segmentation generator yields is the
    space-joined list of the 34 feature values of one yielded line, for
    every document and whatever the getters not in this module return; the
    generator's only exceptions are those of [iter_line_features]
    ([ValueError] for a block without lines, [IndexError] for a line
    without tokens), never the length-mismatch [AssertionError]; and when
    those getters return values without a space, splitting a row on
    spaces gives back exactly its 34 columns. *)
Theorem segmentation_rows_34 (layout_document : LayoutDocument) :
  GEN layout_document =
    (map (fun f => mkModelData (join_space (LF f)) (sf_layout_line f))
         (fst (iter_line_features line_text layout_document)),
     snd (iter_line_features line_text layout_document)) /\
  snd (GEN layout_document) <> Some AssertionError /\
  (forall f, List.length (LF f) = 34%nat) /\
  ((forall f, forallb no_space (MF f) = true) ->
   forall f, In f (fst (iter_line_features line_text layout_document)) ->
   py_split_space (join_space (LF f)) = LF f /\
   List.length (py_split_space (join_space (LF f))) = 34%nat).
Proof.
  destruct (iter_line_features_facts line_text layout_document) as [He Hf].
  assert (Hgen : GEN layout_document =
    (map (fun f => mkModelData (join_space (LF f)) (sf_layout_line f))
         (fst (iter_line_features line_text layout_document)),
     snd (iter_line_features line_text layout_document))).
  { unfold iter_model_data_for_layout_document.
    destruct (iter_line_features line_text layout_document) as [fs e1].
    rewrite iter_model_data_rows. reflexivity. }
  split; [exact Hgen|]. split; [rewrite Hgen; exact He|].
  split; [exact line_features_length|].
  intros Hm f Hin.
  assert (Hs : py_split_space (join_space (LF f)) = LF f).
  { apply py_split_join_space; [discriminate|].
    apply line_features_no_space; [|apply Hm].
    rewrite Forall_forall in Hf. apply Hf. exact Hin. }
  split; [exact Hs|]. rewrite Hs. reflexivity.
Qed.

End SegmentationRows.

(** The row property at a one-line document whose line text is the join
    of its tokens, with getters that return ["0"]. *)
Lemma segmentation_rows_34_witness :
  let lt := fun l => join_layout_tokens (tokens l) in
  let g0 := fun _ : SegmentationLineFeatures => T "0" in
  let d := mkDocument [mkPage [mkBlock [mkLine
             [mkToken (T "Hello") EMPTY_FONT (T " ") None;
              mkToken (T "world") EMPTY_FONT (T " ") None]]]] in
  let LF0 := line_features 10 g0 (fun _ => g0) g0 g0 g0 g0 g0 g0 g0 in
  List.length (fst (iter_line_features lt d)) = 1%nat /\
  (forall f, In f (fst (iter_line_features lt d)) ->
   py_split_space (join_space (LF0 f)) = LF0 f /\
   List.length (py_split_space (join_space (LF0 f))) = 34%nat).
Proof.
  intros lt g0 d LF0. split; [vm_compute; reflexivity|].
  apply (proj2 (proj2 (proj2
    (segmentation_rows_34 lt 10 g0 (fun _ => g0) g0 g0 g0 g0 g0 g0 g0 d)))).
  intros f. reflexivity.
Defined.

Module AffiliationAddressFacts.
Import AffiliationAddress.

Lemma leaf_class_eqb_true a b : leaf_class_eqb a b = true <-> a = b.
Proof.
  split.
  - destruct a, b; cbn; congruence.
  - intros ->. destruct b; reflexivity.
Qed.

Lemma existsb_class_in (leaves : list SemanticLeaf) cls :
  existsb (fun l => leaf_class_eqb (fst l) cls) leaves = true <-> In cls (map fst leaves).
Proof.
  rewrite existsb_exists, in_map_iff. split.
  - intros (l & Hin & Heq). apply leaf_class_eqb_true in Heq. exists l. auto.
  - intros (l & Heq & Hin). exists l. split; [exact Hin|]. apply leaf_class_eqb_true, Heq.
Qed.

(** Claim C9: on the entity blocks [(<marker>, m)], [(<institution>, i1)],
    [(<institution>, i2)] the affiliation extractor emits exactly two
    affiliations: the first holds the marker [m] and the institution [i1],
    the second starts at, and holds only, the second institution [i2].
    This follows the general rule of one step of the extractor on an open
    affiliation: a marker or institution tag whose class the open
    affiliation already holds emits it and opens a fresh affiliation
    holding only the new leaf, and one whose class it does not hold yet is
    added to it; any other tag but [O] is added to the open affiliation,
    which stays open, nothing being emitted. *)
Theorem split_affiliation_on_second_institution (m i1 i2 : string) :
  iter_semantic_content_for_entity_blocks
    [("<marker>", m); ("<institution>", i1); ("<institution>", i2)]%string =
  [SemanticAffiliationAddress [(SemanticMarker, m); (SemanticInstitution, i1)];
   SemanticAffiliationAddress [(SemanticInstitution, i2)]] /\
  (forall (st : AffState) (leaves : list SemanticLeaf) (tag txt : string)
          (cls : SemanticLeafClass),
     In (tag, cls) [("<marker>", SemanticMarker); ("<institution>", SemanticInstitution)]%string ->
     current st = Some leaves ->
     (In cls (map fst leaves) ->
        aff_step st (tag, txt) =
          mkAff (emitted st ++ [SemanticAffiliationAddress leaves]) (Some [(cls, txt)])) /\
     (~ In cls (map fst leaves) ->
        aff_step st (tag, txt) = mkAff (emitted st) (Some (leaves ++ [(cls, txt)])))) /\
  (forall (st : AffState) (leaves : list SemanticLeaf) (tag txt : string),
     ~ In tag ["O"; "<marker>"; "<institution>"]%string ->
     current st = Some leaves ->
     exists leaf, aff_step st (tag, txt) = mkAff (emitted st) (Some (leaves ++ [leaf]))).
Proof.
  split; [reflexivity|]. split.
  - intros st leaves tag txt cls Htag Hcur.
    destruct Htag as [E|[E|[]]]; injection E as <- <-;
      unfold aff_step; cbn -[existsb]; rewrite Hcur; cbn -[existsb];
      (split; [intros Hin; apply existsb_class_in in Hin; rewrite Hin; reflexivity
              |intros Hn; destruct (existsb (fun l => leaf_class_eqb (fst l) _) leaves) eqn:Ex;
                 [apply existsb_class_in in Ex; contradiction | reflexivity]]).
  - intros st leaves tag txt Htag Hcur. unfold aff_step.
    destruct (String.eqb tag "O") eqn:EO.
    { apply String.eqb_eq in EO. subst tag. exfalso. apply Htag. left. reflexivity. }
    rewrite Hcur.
    replace (existsb (String.eqb tag) SPLIT_TAGS) with false.
    + cbn [andb]. eexists. reflexivity.
    + unfold SPLIT_TAGS. cbn [existsb].
      destruct (String.eqb tag "<marker>") eqn:E1.
      { apply String.eqb_eq in E1. subst tag. exfalso. apply Htag. right. left. reflexivity. }
      destruct (String.eqb tag "<institution>") eqn:E2.
      { apply String.eqb_eq in E2. subst tag. exfalso. apply Htag. right. right. left. reflexivity. }
      reflexivity.
Qed.

(** The texts the tests look up by leaf class. *)
Example split_affiliation_views :
  let out := iter_semantic_content_for_entity_blocks
    [("<marker>", "1"); ("<institution>", "Institution 1");
     ("<institution>", "Institution 2")]%string in
  List.length out = 2%nat /\
  map (view_text SemanticMarker) out = ["1"; EmptyString]%string /\
  map (view_text SemanticInstitution) out = ["Institution 1"; "Institution 2"]%string.
Proof. vm_compute. repeat split. Qed.

(** The other scenarios of the extractor's tests: preceding [O] text is
    a note before the affiliation, and a country loses its trailing dot. *)
Example affiliation_other_and_country :
  iter_semantic_content_for_entity_blocks
    [("O", "Other 1"); ("<marker>", "1"); ("<institution>", "Institution 1")]%string =
  [SemanticNote "Other 1";
   SemanticAffiliationAddress [(SemanticMarker, "1"); (SemanticInstitution, "Institution 1")]]%string /\
  iter_semantic_content_for_entity_blocks
    [("<marker>", "1"); ("<country>", "Country1.")]%string =
  [SemanticAffiliationAddress [(SemanticMarker, "1"); (SemanticCountry, "Country1")]]%string.
Proof. split; vm_compute; reflexivity. Qed.

End AffiliationAddressFacts.

(** ** Removing empty lines, blocks and pages *)

Lemma flat_map_filter_nil {A B : Type} (f : A -> list B) (keep : A -> bool) l :
  (forall a, keep a = false -> f a = []) -> flat_map f (filter keep l) = flat_map f l.
Proof.
  intros H. induction l as [|a l IH]; [reflexivity|]. simpl.
  destruct (keep a) eqn:E; simpl; rewrite IH; [reflexivity|].
  rewrite (H a E). reflexivity.
Qed.

Lemma flat_map_flat_map' {A B C : Type} (f : B -> list C) (g : A -> list B) l :
  flat_map f (flat_map g l) = flat_map (fun a => flat_map f (g a)) l.
Proof.
  induction l as [|a l IH]; [reflexivity|]. simpl. rewrite flat_map_app, IH. reflexivity.
Qed.

Lemma flat_map_map' {A B C : Type} (f : B -> list C) (g : A -> B) l :
  flat_map f (map g l) = flat_map (fun a => f (g a)) l.
Proof. induction l as [|a l IH]; [reflexivity|]. simpl. rewrite IH. reflexivity. Qed.

Lemma flat_map_ext' {A B : Type} (f g : A -> list B) l :
  (forall a, f a = g a) -> flat_map f l = flat_map g l.
Proof. intros H. induction l as [|a l IH]; [reflexivity|]. simpl. rewrite H, IH. reflexivity. Qed.

Lemma block_tokens_remove_empty_lines b :
  flat_map tokens (lines (block_remove_empty_lines b)) = flat_map tokens (lines b).
Proof.
  unfold block_remove_empty_lines. cbn [lines]. apply flat_map_filter_nil.
  intros l. destruct (tokens l); [reflexivity | discriminate].
Qed.

Lemma page_tokens_remove_empty_blocks p :
  flat_map (fun b => flat_map tokens (lines b)) (blocks (page_remove_empty_blocks p)) =
  flat_map (fun b => flat_map tokens (lines b)) (blocks p).
Proof.
  unfold page_remove_empty_blocks. cbn [blocks].
  rewrite flat_map_filter_nil.
  - rewrite flat_map_map'. apply flat_map_ext'. apply block_tokens_remove_empty_lines.
  - intros b. destruct (lines b); [reflexivity | discriminate].
Qed.

(** Removing empty lines, blocks and pages keeps every token of the
    document, in document order. *)
Theorem remove_empty_blocks_keeps_tokens d :
  iter_all_tokens (remove_empty_blocks d) = iter_all_tokens d.
Proof.
  unfold iter_all_tokens, iter_all_blocks, remove_empty_blocks. cbn [pages].
  rewrite !flat_map_flat_map', flat_map_filter_nil.
  - rewrite flat_map_map'. apply flat_map_ext'. apply page_tokens_remove_empty_blocks.
  - intros p. destruct (blocks p); [reflexivity | discriminate].
Qed.

(** After removing empty parts, no page, block or line is empty, and
    removing them again changes nothing. *)
Theorem remove_empty_blocks_no_empty_idempotent d :
  no_empty_parts (remove_empty_blocks d) /\
  remove_empty_blocks (remove_empty_blocks d) = remove_empty_blocks d.
Proof.
  assert (HL : forall b, Forall (fun l => tokens l <> []) (lines (block_remove_empty_lines b))).
  { intros b. apply Forall_forall. intros l Hl. unfold block_remove_empty_lines in Hl.
    apply filter_In in Hl as [_ Hk]. destruct (tokens l); [discriminate | discriminate]. }
  assert (Hb : forall p, Forall (fun b => lines b <> [] /\
      Forall (fun l => tokens l <> []) (lines b)) (blocks (page_remove_empty_blocks p))).
  { intros p. apply Forall_forall. intros b Hb. unfold page_remove_empty_blocks in Hb.
    cbn [blocks] in Hb. apply filter_In in Hb as [Hin Hne].
    apply in_map_iff in Hin as [b0 [<- _]]. split; [|apply HL].
    destruct (lines (block_remove_empty_lines b0)); [discriminate Hne | discriminate]. }
  split.
  - unfold no_empty_parts. apply Forall_forall. intros p Hp.
    unfold remove_empty_blocks in Hp. cbn [pages] in Hp. apply filter_In in Hp as [Hin Hne].
    apply in_map_iff in Hin as [p0 [<- _]]. split; [|apply Hb].
    destruct (blocks (page_remove_empty_blocks p0)); [discriminate Hne | discriminate].
  - assert (Hfl : forall b, Forall (fun l => tokens l <> []) (lines b) ->
               block_remove_empty_lines b = b).
    { intros [ls] H. unfold block_remove_empty_lines. cbn [lines] in *. f_equal.
      apply forallb_filter_id. apply forallb_forall. intros l Hl.
      rewrite Forall_forall in H. specialize (H l Hl). destruct (tokens l); [contradiction | reflexivity]. }
    assert (Hfp : forall p, Forall (fun b => lines b <> [] /\
               Forall (fun l => tokens l <> []) (lines b)) (blocks p) ->
               page_remove_empty_blocks p = p).
    { intros [bs] H. unfold page_remove_empty_blocks. cbn [blocks] in *. f_equal.
      rewrite map_ext_in with (g := fun b => b).
      - rewrite map_id. apply forallb_filter_id. apply forallb_forall. intros b Hin.
        rewrite Forall_forall in H. destruct (H b Hin) as [Hne _].
        destruct (lines b); [contradiction | reflexivity].
      - intros b Hin. rewrite Forall_forall in H. apply Hfl, (H b Hin). }
    unfold remove_empty_blocks at 1. set (d' := remove_empty_blocks d).
    assert (Hd' : Forall (fun p => blocks p <> [] /\ Forall (fun b => lines b <> [] /\
               Forall (fun l => tokens l <> []) (lines b)) (blocks p)) (pages d')).
    { subst d'. unfold remove_empty_blocks. cbn [pages]. apply Forall_forall.
      intros p Hp. apply filter_In in Hp as [Hin Hne]. apply in_map_iff in Hin as [p0 [<- _]].
      split; [|apply Hb]. destruct (blocks (page_remove_empty_blocks p0)); [discriminate Hne | discriminate]. }
    destruct d' as [ps]. cbn [pages] in *. f_equal.
    rewrite map_ext_in with (g := fun p => p).
    + rewrite map_id. apply forallb_filter_id. apply forallb_forall. intros p Hin.
      rewrite Forall_forall in Hd'. destruct (Hd' p Hin) as [Hne _].
      destruct (blocks p); [contradiction | reflexivity].
    + intros p Hin. rewrite Forall_forall in Hd'. apply Hfp, (Hd' p Hin).
Qed.

(** ** Mapping tokens over a document *)

(** The tokens of [flat_map_layout_tokens fn d], in document order, are
    [fn] applied to each token of [d] in turn. *)
Theorem iter_all_tokens_flat_map fn d :
  iter_all_tokens (flat_map_layout_tokens fn d) = flat_map fn (iter_all_tokens d).
Proof.
  unfold iter_all_tokens, iter_all_blocks, flat_map_layout_tokens. cbn [pages].
  rewrite ?flat_map_flat_map', ?flat_map_map'. apply flat_map_ext'.
  intros p. unfold page_flat_map_layout_tokens. cbn [blocks].
  rewrite ?flat_map_flat_map', ?flat_map_map'. apply flat_map_ext'.
  intros b. unfold block_flat_map_layout_tokens. cbn [lines].
  rewrite ?flat_map_flat_map', ?flat_map_map'. apply flat_map_ext'.
  intros l. reflexivity.
Qed.

(** Mapping with [f] and then with [g] is mapping once with
    [fun t => flat_map g (f t)], and mapping with [fun t => [t]] returns
    the document unchanged. *)
Theorem flat_map_layout_tokens_compose f g d :
  flat_map_layout_tokens g (flat_map_layout_tokens f d) =
    flat_map_layout_tokens (fun t => flat_map g (f t)) d /\
  flat_map_layout_tokens (fun t => [t]) d = d.
Proof.
  split.
  - destruct d as [ps]. unfold flat_map_layout_tokens. cbn [pages]. f_equal.
    rewrite map_map. apply map_ext. intros [bs]. unfold page_flat_map_layout_tokens.
    cbn [blocks]. f_equal. rewrite map_map. apply map_ext. intros [ls].
    unfold block_flat_map_layout_tokens. cbn [lines]. f_equal. rewrite map_map.
    apply map_ext. intros [ts]. unfold line_flat_map_layout_tokens. cbn [tokens].
    f_equal. apply flat_map_flat_map'.
  - destruct d as [ps]. unfold flat_map_layout_tokens. cbn [pages]. f_equal.
    rewrite <- (map_id ps) at 2. apply map_ext. intros [bs].
    unfold page_flat_map_layout_tokens. cbn [blocks]. f_equal.
    rewrite <- (map_id bs) at 2. apply map_ext. intros [ls].
    unfold block_flat_map_layout_tokens. cbn [lines]. f_equal.
    rewrite <- (map_id ls) at 2. apply map_ext. intros [ts].
    unfold line_flat_map_layout_tokens. cbn [tokens]. f_equal.
    induction ts as [|t ts IH]; [reflexivity|]. simpl. rewrite IH. reflexivity.
Qed.

(** ** The texts of retokenized tokens *)

Lemma retok_texts_inv_fold ts : forall pre st,
  retok_texts_inv pre st ->
  retok_texts_inv (pre ++ ts) (fold_left retokenize_step ts st).
Proof.
  induction ts as [|s ts IH]; intros pre st H.
  - rewrite app_nil_r. exact H.
  - cbn [fold_left]. replace (pre ++ s :: ts) with ((pre ++ [s]) ++ ts)
      by (rewrite <- app_assoc; reflexivity).
    apply IH.
    unfold retok_texts_inv in *. rewrite filter_app. cbn [filter].
    unfold retokenize_step. destruct (is_blank s) eqn:Eb; cbn [negb].
    + rewrite app_nil_r. exact H.
    + right. cbn [pending_token_text texts_with_whitespace].
      split; [apply not_blank_nonempty; exact Eb|].
      destruct H as [[Hp [Ht Hf]] | [Hp Hf]].
      * rewrite Hp, Ht, Hf. reflexivity.
      * destruct (pending_token_text st) as [|c cs] eqn:E; [contradiction|].
        rewrite map_app, <- Hf. cbn. rewrite <- app_assoc. reflexivity.
Qed.

(** The sub-tokens of [retokenize_layout_token] carry, in order, the
    strings of the tokenizer's output that are not whitespace only (none
    when the token's text is whitespace only), and all keep the original
    token's font. *)
Theorem retokenize_texts_and_font tokenize_fn layout_token :
  map text (retokenize_layout_token tokenize_fn layout_token) =
    (if is_blank (text layout_token) then []
     else filter (fun s => negb (is_blank s)) (tokenize_fn (text layout_token))) /\
  Forall (fun t => font t = font layout_token)
    (retokenize_layout_token tokenize_fn layout_token).
Proof.
  unfold retokenize_layout_token.
  destruct (is_blank (text layout_token)) eqn:Eb; [split; [reflexivity | constructor]|].
  destruct (str_list_eqb (tokenize_fn (text layout_token)) [text layout_token]) eqn:Eq.
  - apply str_list_eqb_true in Eq. rewrite Eq. cbn. rewrite Eb. cbn.
    split; [reflexivity | constructor; [reflexivity | constructor]].
  - split.
    + rewrite map_map.
      assert (H := retok_texts_inv_fold (tokenize_fn (text layout_token)) []
                    retokenize_init (or_introl (conj eq_refl (conj eq_refl eq_refl)))).
      cbn [app] in H.
      destruct (fold_left retokenize_step (tokenize_fn (text layout_token)) retokenize_init)
        as [tw pt pw o po].
      unfold retok_texts_inv in H. cbn [pending_token_text texts_with_whitespace] in H.
      unfold retokenize_finish. cbn [pending_token_text texts_with_whitespace
        pending_whitespace pending_text_character_offset].
      destruct H as [[Hp [Ht Hf]] | [Hp Hf]].
      * subst pt tw. rewrite Hf. reflexivity.
      * destruct pt as [|c cs]; [contradiction|].
        rewrite <- Hf, map_app. cbn [map]. f_equal.
        apply map_ext. intros [[a b] c']. reflexivity.
    + apply Forall_forall. intros t Ht. apply in_map_iff in Ht as [[[a b] c] [<- _]].
      reflexivity.
Qed.

(** ** Merged bounding boxes cover their parts *)
Module BoundingBoxMergeFacts.
Import BoundingBox BoundingBoxFacts.

Lemma box_contains_refl a : box_contains a a.
Proof. unfold box_contains. repeat split; lra. Qed.

Lemma box_contains_trans a b c : box_contains a b -> box_contains b c -> box_contains a c.
Proof. unfold box_contains. intros H1 H2. lra. Qed.

Lemma include_contains_left a b : box_contains (include a b) a \/ is_empty a = true.
Proof.
  unfold include. destruct (is_empty b); [left; apply box_contains_refl|].
  destruct (is_empty a) eqn:Ea; [right; reflexivity|]. left.
  unfold box_contains; cbn [BoundingBox.x BoundingBox.y BoundingBox.width BoundingBox.height].
  abstract_minmax. split_minmax; lra.
Qed.

Lemma include_contains_right a b : is_empty b = false -> box_contains (include a b) b.
Proof.
  intros Eb. unfold include. rewrite Eb.
  destruct (is_empty a); [apply box_contains_refl|].
  unfold box_contains; cbn [BoundingBox.x BoundingBox.y BoundingBox.width BoundingBox.height].
  abstract_minmax. split_minmax; lra.
Qed.

Lemma contains_nonempty a b : nonneg b -> is_empty b = false -> box_contains a b ->
  is_empty a = false.
Proof.
  intros Hb Eb Hc. destruct (not_empty_pos b Hb Eb) as [Hw Hh].
  unfold box_contains in Hc. apply pos_not_empty; lra.
Qed.

Lemma fold_include_facts bs : forall acc, nonneg acc -> Forall nonneg bs ->
  nonneg (fold_left include bs acc) /\
  is_empty (fold_left include bs acc) = forallb is_empty (acc :: bs) /\
  (forall b, In b (acc :: bs) -> is_empty b = false -> box_contains (fold_left include bs acc) b).
Proof.
  induction bs as [|b0 bs IH]; intros acc Hacc Hbs.
  - cbn. rewrite andb_true_r. split; [exact Hacc|]. split; [reflexivity|].
    intros b [->|[]] _. apply box_contains_refl.
  - apply Forall_cons_iff in Hbs as [Hb0 Hbs]. cbn [fold_left].
    destruct (IH (include acc b0) (include_nonneg acc b0 Hacc Hb0) Hbs) as [Hn [He Hc]].
    split; [exact Hn|]. split.
    + rewrite He. cbn [forallb]. rewrite include_is_empty by assumption.
      rewrite andb_assoc. reflexivity.
    + assert (Hinc : is_empty (include acc b0) = false ->
                box_contains (fold_left include bs (include acc b0)) (include acc b0))
        by (intros E; apply Hc; [left; reflexivity | exact E]).
      intros b [->|[->|Hin]] Eb.
      * destruct (include_contains_left b b0) as [H|H]; [|congruence].
        apply (box_contains_trans _ _ _ (Hinc (contains_nonempty _ _ Hacc Eb H)) H).
      * pose proof (include_contains_right acc b Eb) as H.
        apply (box_contains_trans _ _ _ (Hinc (contains_nonempty _ _ Hb0 Eb H)) H).
      * apply Hc; [right; exact Hin | exact Eb].
Qed.

End BoundingBoxMergeFacts.

(** ** The bounding box of an SVG path *)
Module SvgFacts.
Import Svg SvgPoints.
Local Open Scope Q_scope.

Lemma ascii_upper_not_lower c : is_command_lower (ascii_upper c) = false.
Proof.
  unfold ascii_upper. destruct (is_command_lower c) eqn:E; [|exact E].
  unfold is_command_lower, code in *. apply andb_true_iff in E as [E1 E2].
  apply Nat.leb_le in E1, E2. rewrite nat_ascii_embedding by lia.
  apply andb_false_iff. left. apply Nat.leb_gt. lia.
Qed.

Lemma iter_absolute_from_length l : forall px py,
  List.length (iter_absolute_path_instructions_from px py l) = List.length l.
Proof. induction l as [|a l IH]; intros px py; cbn; [reflexivity|]. rewrite IH. reflexivity. Qed.

Lemma iter_absolute_from_nth l : forall px py i p, nth_error l i = Some p ->
  nth_error (iter_absolute_path_instructions_from px py l) i =
    Some (if negb (is_command_lower (command p)) then p
          else let '(qx, qy) := previous_point px py (iter_absolute_path_instructions_from px py l) i in
               mkInstr (ascii_upper (command p)) (qx + x p) (qy + y p)).
Proof.
  induction l as [|a l IH]; intros px py i p Hp; [destruct i; discriminate|].
  destruct i as [|j]; cbn [nth_error] in Hp; cbn [nth_error iter_absolute_path_instructions_from].
  - injection Hp as <-. reflexivity.
  - rewrite (IH _ _ j p Hp). destruct (negb (is_command_lower (command p))); [reflexivity|].
    destruct j as [|k]; [reflexivity|]. cbn [previous_point nth_error].
    match goal with |- context [nth_error ?t k] => destruct (nth_error t k) eqn:Ek end;
      [reflexivity|].
    exfalso. apply nth_error_None in Ek. rewrite iter_absolute_from_length in Ek.
    assert (S k < List.length l)%nat by (apply nth_error_Some; congruence). lia.
Qed.

Lemma iter_absolute_from_not_lower l : forall px py,
  Forall (fun p => is_command_lower (command p) = false) (iter_absolute_path_instructions_from px py l).
Proof.
  induction l as [|a l IH]; intros px py; cbn; constructor; [|apply IH].
  destruct (is_command_lower (command a)) eqn:E; cbn; [apply ascii_upper_not_lower | exact E].
Qed.

Lemma fold_min_le l : forall a, fold_left Qmin l a <= a /\ Forall (fun b => fold_left Qmin l a <= b) l.
Proof.
  induction l as [|b l IH]; intros a; cbn; [split; [apply Qle_refl | constructor]|].
  destruct (IH (Qmin a b)) as [H1 H2]. split; [|constructor; [|exact H2]].
  - apply (Qle_trans _ _ _ H1), Q.le_min_l.
  - apply (Qle_trans _ _ _ H1), Q.le_min_r.
Qed.

Lemma fold_max_ge l : forall a, a <= fold_left Qmax l a /\ Forall (fun b => b <= fold_left Qmax l a) l.
Proof.
  induction l as [|b l IH]; intros a; cbn; [split; [apply Qle_refl | constructor]|].
  destruct (IH (Qmax a b)) as [H1 H2]. split; [|constructor; [|exact H2]].
  - apply (fun H => Qle_trans _ _ _ H H1), Q.le_max_l.
  - apply (fun H => Qle_trans _ _ _ H H1), Q.le_max_r.
Qed.

Lemma qmin_cases a b : Qmin a b = a \/ Qmin a b = b.
Proof. unfold Qmin, GenericMinMax.gmin. destruct (a ?= b); auto. Qed.

Lemma qmax_cases a b : Qmax a b = a \/ Qmax a b = b.
Proof. unfold Qmax, GenericMinMax.gmax. destruct (a ?= b); auto. Qed.

Lemma fold_min_in l : forall a, In (fold_left Qmin l a) (a :: l).
Proof.
  induction l as [|b l IH]; intros a; cbn; [left; reflexivity|].
  remember (fold_left Qmin l (Qmin a b)) as m eqn:Em.
  destruct (IH (Qmin a b)) as [H|H]; rewrite <- Em in H.
  - destruct (qmin_cases a b) as [E|E]; rewrite E in H; auto.
  - right; right; exact H.
Qed.

Lemma fold_max_in l : forall a, In (fold_left Qmax l a) (a :: l).
Proof.
  induction l as [|b l IH]; intros a; cbn; [left; reflexivity|].
  remember (fold_left Qmax l (Qmax a b)) as m eqn:Em.
  destruct (IH (Qmax a b)) as [H|H]; rewrite <- Em in H.
  - destruct (qmax_cases a b) as [E|E]; rewrite E in H; auto.
  - right; right; exact H.
Qed.

(** [iter_absolute_path_instructions] yields one instruction per input
    instruction, none with a lowercase command: an absolute (non-lowercase)
    instruction is passed through unchanged, and a relative one becomes its
    uppercase command with its offset added to the previous absolute point
    (the origin for the first instruction). *)
Theorem iter_absolute_path_instructions_resolves l :
  List.length (iter_absolute_path_instructions l) = List.length l /\
  Forall (fun p => is_command_lower (command p) = false) (iter_absolute_path_instructions l) /\
  (forall i p, nth_error l i = Some p ->
     nth_error (iter_absolute_path_instructions l) i =
       Some (if negb (is_command_lower (command p)) then p
             else let '(qx, qy) := previous_point 0 0 (iter_absolute_path_instructions l) i in
                  mkInstr (ascii_upper (command p)) (qx + x p) (qy + y p))).
Proof.
  unfold iter_absolute_path_instructions.
  split; [apply iter_absolute_from_length|]. split; [apply iter_absolute_from_not_lower|].
  intros i p Hp. apply iter_absolute_from_nth, Hp.
Qed.

(** [get_bounding_box_from_path_instructions] fails (Python's [ValueError])
    exactly on an empty path; otherwise the x and y of its box are the
    smallest x and y of the absolute points of the path, and its width and
    height are the largest x and y minus them: every point lies between
    the smallest and the largest, each of the four is the coordinate of
    some point, and the width and height are non-negative. *)
Theorem get_bounding_box_from_path_instructions_tight l :
  match get_bounding_box_from_path_instructions l with
  | None => l = []
  | Some b =>
      exists mx my,
        BoundingBox.width b = mx - BoundingBox.x b /\
        BoundingBox.height b = my - BoundingBox.y b /\
        BoundingBox.nonneg b /\
        Forall (fun p => BoundingBox.x b <= x p <= mx /\ BoundingBox.y b <= y p <= my)
          (iter_absolute_path_instructions l) /\
        (exists p, In p (iter_absolute_path_instructions l) /\ x p = BoundingBox.x b) /\
        (exists p, In p (iter_absolute_path_instructions l) /\ y p = BoundingBox.y b) /\
        (exists p, In p (iter_absolute_path_instructions l) /\ x p = mx) /\
        (exists p, In p (iter_absolute_path_instructions l) /\ y p = my)
  end.
Proof.
  unfold get_bounding_box_from_path_instructions.
  destruct (iter_absolute_path_instructions l) as [|p0 ps] eqn:Habs.
  - pose proof (iter_absolute_from_length l 0 0) as HL. unfold iter_absolute_path_instructions in Habs.
    rewrite Habs in HL. destruct l; [reflexivity|discriminate HL].
  - cbn [map list_min list_max].
    destruct (fold_min_le (map x ps) (x p0)) as [Hx1 Hx2].
    destruct (fold_min_le (map y ps) (y p0)) as [Hy1 Hy2].
    destruct (fold_max_ge (map x ps) (x p0)) as [HX1 HX2].
    destruct (fold_max_ge (map y ps) (y p0)) as [HY1 HY2].
    rewrite Forall_map in Hx2, Hy2, HX2, HY2.
    exists (fold_left Qmax (map x ps) (x p0)), (fold_left Qmax (map y ps) (y p0)).
    unfold BoundingBox.nonneg; cbn [BoundingBox.x BoundingBox.y BoundingBox.width BoundingBox.height].
    split; [reflexivity|]. split; [reflexivity|].
    split; [split; lra|]. split.
    { constructor; [lra|].
      apply Forall_forall. intros p Hp.
      rewrite Forall_forall in Hx2, Hy2, HX2, HY2.
      specialize (Hx2 p Hp). specialize (Hy2 p Hp). specialize (HX2 p Hp). specialize (HY2 p Hp).
      lra. }
    assert (Hin : forall f (g : list Q -> Q -> Q), In (g (map f ps) (f p0)) (f p0 :: map f ps) ->
              exists p, In p (p0 :: ps) /\ f p = g (map f ps) (f p0)).
    { intros f g [H|H]; [exists p0; split; [left|]; auto|].
      apply in_map_iff in H as [p [Hp Hps]]. exists p. split; [right|]; auto. }
    split; [apply (Hin x (fun l a => fold_left Qmin l a)), fold_min_in|].
    split; [apply (Hin y (fun l a => fold_left Qmin l a)), fold_min_in|].
    split; [apply (Hin x (fun l a => fold_left Qmax l a)), fold_max_in|].
    apply (Hin y (fun l a => fold_left Qmax l a)), fold_max_in.
Qed.

End SvgFacts.

(** ** Token features of [pygrobid/models/data.py] *)
Module DataFeatureFacts.
Local Open Scope Q_scope.

Lemma scaled_floor_bounds pos total bin_count :
  (0 < pos < total)%Z -> (0 <= bin_count)%Z ->
  (0 <= Qfloor ((inject_Z pos / inject_Z total) * inject_Z bin_count))%Z /\
  (Qfloor ((inject_Z pos / inject_Z total) * inject_Z bin_count) <= bin_count)%Z /\
  ((0 < bin_count)%Z -> (Qfloor ((inject_Z pos / inject_Z total) * inject_Z bin_count) < bin_count)%Z).
Proof.
  intros [Hp Ht] Hb.
  assert (Hp' : 0 < inject_Z pos) by (change 0 with (inject_Z 0); rewrite <- Zlt_Qlt; exact Hp).
  assert (Ht' : 0 < inject_Z total) by (change 0 with (inject_Z 0); rewrite <- Zlt_Qlt; lia).
  assert (Hpt : inject_Z pos < inject_Z total) by (rewrite <- Zlt_Qlt; exact Ht).
  assert (Hb' : 0 <= inject_Z bin_count) by (change 0 with (inject_Z 0); rewrite <- Zle_Qle; exact Hb).
  set (q := inject_Z pos / inject_Z total).
  assert (Hq0 : 0 <= q) by (apply Qle_shift_div_l; [exact Ht'|]; nra).
  assert (Hq1 : q < 1) by (apply Qlt_shift_div_r; [exact Ht'|]; lra).
  split; [|split].
  - change 0%Z with (Qfloor 0). apply Qfloor_resp_le. nra.
  - apply Z.le_trans with (Qfloor (inject_Z bin_count));
      [apply Qfloor_resp_le; nra | rewrite Qfloor_Z; lia].
  - intros E.
    assert (Hbp : 0 < inject_Z bin_count) by (change 0 with (inject_Z 0); rewrite <- Zlt_Qlt; lia).
    rewrite Zlt_Qlt. apply (Qle_lt_trans _ _ _ (Qfloor_le _)). nra.
Qed.

Lemma scaled_floor_monotone pos1 pos2 total bin_count :
  (0 < pos1)%Z -> (pos1 <= pos2)%Z -> (0 < total)%Z -> (0 <= bin_count)%Z ->
  (Qfloor ((inject_Z pos1 / inject_Z total) * inject_Z bin_count) <=
   Qfloor ((inject_Z pos2 / inject_Z total) * inject_Z bin_count))%Z.
Proof.
  intros H1 H12 Ht Hb. apply Qfloor_resp_le.
  assert (H12' : inject_Z pos1 <= inject_Z pos2) by (rewrite <- Zle_Qle; exact H12).
  assert (Hb' : 0 <= inject_Z bin_count) by (change 0 with (inject_Z 0); rewrite <- Zle_Qle; exact Hb).
  assert (Ht' : 0 < inject_Z total) by (change 0 with (inject_Z 0); rewrite <- Zlt_Qlt; exact Ht).
  apply Qmult_le_compat_r; [|exact Hb']. unfold Qdiv.
  apply Qmult_le_compat_r; [exact H12'|]. apply Qinv_le_0_compat. lra.
Qed.

(** For a non-negative [bin_count], [feature_linear_scaling_int] lies in
    [0, bin_count], does not decrease as [pos] grows, and (for a positive
    [bin_count]) reaches [bin_count] exactly when [pos >= total]. *)
Theorem feature_linear_scaling_int_range_monotone (total bin_count : Z)
    (Hb : (0 <= bin_count)%Z) :
  (forall pos, (0 <= feature_linear_scaling_int pos total bin_count <= bin_count)%Z) /\
  (forall pos1 pos2, (pos1 <= pos2)%Z ->
     (feature_linear_scaling_int pos1 total bin_count <=
      feature_linear_scaling_int pos2 total bin_count)%Z) /\
  ((0 < bin_count)%Z -> forall pos,
     feature_linear_scaling_int pos total bin_count = bin_count <-> (total <= pos)%Z).
Proof.
  unfold feature_linear_scaling_int. split; [|split].
  - intros pos. destruct (Z.leb_spec total pos); [lia|].
    destruct (Z.leb_spec pos 0); [lia|].
    pose proof (scaled_floor_bounds pos total bin_count ltac:(lia) Hb) as [F1 [F2 F3]]. lia.
  - intros pos1 pos2 H12.
    destruct (Z.leb_spec total pos2), (Z.leb_spec total pos1); try lia.
    + destruct (Z.leb_spec pos1 0); [lia|].
      pose proof (scaled_floor_bounds pos1 total bin_count ltac:(lia) Hb) as [F1 [F2 F3]]. lia.
    + destruct (Z.leb_spec pos2 0), (Z.leb_spec pos1 0); try lia.
      * pose proof (scaled_floor_bounds pos2 total bin_count ltac:(lia) Hb) as [F1 [F2 F3]]. lia.
      * apply scaled_floor_monotone; lia.
  - intros Hbp pos. destruct (Z.leb_spec total pos); [split; intros; lia|].
    split; [|lia]. destruct (Z.leb_spec pos 0); [lia|].
    pose proof (scaled_floor_bounds pos total bin_count ltac:(lia) Hb) as [F1 [F2 F3]]. lia.
Qed.

Lemma feature_linear_scaling_int_range_monotone_witness :
  (0 <= 10)%Z /\
  (0 <= feature_linear_scaling_int 3 7 10 <= 10)%Z /\
  (feature_linear_scaling_int 3 7 10 <= feature_linear_scaling_int 5 7 10)%Z.
Proof.
  destruct (feature_linear_scaling_int_range_monotone 7 10 ltac:(lia)) as [H1 [H2 _]].
  split; [lia|]. split; [apply H1 | apply H2; lia].
Defined.

(** Swapping the previous and the current token: [SAMEFONTSIZE] stays
    [SAMEFONTSIZE], and [LOWERFONT] occurs exactly when the swapped call
    gives [HIGHERFONT] and both font sizes are set and non-zero; without a
    previous token, or when a font size is missing or zero, the feature is
    always [HIGHERFONT]. *)
Theorem get_token_font_size_feature_swap a b :
  (get_token_font_size_feature (Some a) b = T "SAMEFONTSIZE" <->
   get_token_font_size_feature (Some b) a = T "SAMEFONTSIZE") /\
  (get_token_font_size_feature (Some a) b = T "LOWERFONT" <->
   get_token_font_size_feature (Some b) a = T "HIGHERFONT" /\
   falsy_size (font_size (font a)) = false /\ falsy_size (font_size (font b)) = false) /\
  get_token_font_size_feature None b = T "HIGHERFONT" /\
  ((falsy_size (font_size (font a)) || falsy_size (font_size (font b)))%bool = true ->
   get_token_font_size_feature (Some a) b = T "HIGHERFONT").
Proof.
  split; [|split; [|split; [reflexivity|]]].
  3: { intros H. unfold get_token_font_size_feature. rewrite H. reflexivity. }
  all: unfold get_token_font_size_feature;
    destruct (font_size (font a)) as [sa|], (font_size (font b)) as [sb|];
    cbn [falsy_size orb];
    try destruct (Qeq_bool sa 0); try destruct (Qeq_bool sb 0); cbn [orb];
    repeat destruct Qlt_le_dec;
    intuition (first [discriminate | lra | reflexivity]).
Qed.

End DataFeatureFacts.

(** ** [RelativeFontSizeFeature] *)
Module RelativeFontSizeFacts.
Local Open Scope Q_scope.

Lemma in_truthy_font_sizes s layout_tokens :
  In s (truthy_font_sizes layout_tokens) <->
  exists t, In t layout_tokens /\ font_size (font t) = Some s /\ ~ s == 0.
Proof.
  unfold truthy_font_sizes. rewrite in_flat_map. split.
  - intros [t [Ht Hs]]. exists t. split; [exact Ht|].
    destruct (font_size (font t)) as [s'|]; [|destruct Hs].
    destruct (Qeq_bool s' 0) eqn:E; [destruct Hs|].
    destruct Hs as [<-|[]]. split; [reflexivity|].
    intros H. apply Qeq_bool_iff in H. congruence.
  - intros [t [Ht [Hs Hz]]]. exists t. split; [exact Ht|]. rewrite Hs.
    destruct (Qeq_bool s 0) eqn:E; [apply Qeq_bool_iff in E; contradiction|]. left; reflexivity.
Qed.

(** The statistics of [RelativeFontSizeFeature]: every truthy font size of
    its tokens lies between the smallest and the largest, and some token
    has the largest and some the smallest size. Without any truthy size
    all three are [0.0], and exactly the tokens of font size [0.0] count
    as largest and as smallest. (The mean, a float sum divided by the
    count, is not bounded here: rounding can put it below the smallest
    size, as for three sizes [0.7].) *)
Theorem relative_font_size_feature_bounds layout_tokens :
  let self := new_RelativeFontSizeFeature layout_tokens in
  (forall t s, In t layout_tokens -> font_size (font t) = Some s -> ~ s == 0 ->
     smallest_font_size self <= s <= largest_font_size self) /\
  (truthy_font_sizes layout_tokens <> [] ->
     (exists t, In t layout_tokens /\ is_largest_font_size self t = true) /\
     (exists t, In t layout_tokens /\ is_smallest_font_size self t = true)) /\
  (truthy_font_sizes layout_tokens = [] ->
     mean_font_size self = 0 /\ forall t,
     is_largest_font_size self t = font_size_eq (font_size (font t)) 0 /\
     is_smallest_font_size self t = font_size_eq (font_size (font t)) 0).
Proof.
  intros self. unfold self, new_RelativeFontSizeFeature.
  destruct (truthy_font_sizes layout_tokens) as [|a rest] eqn:Hfs.
  - split; [|split; [intros H; contradiction H; reflexivity
                    |intros _; split; [reflexivity|intros t; split; reflexivity]]].
    intros t s Ht Hs Hz. exfalso.
    assert (Hin : In s (truthy_font_sizes layout_tokens))
      by (apply in_truthy_font_sizes; exists t; auto).
    rewrite Hfs in Hin. destruct Hin.
  - cbn [largest_font_size smallest_font_size mean_font_size].
    destruct (SvgFacts.fold_min_le rest a) as [Hmin1 Hmin2].
    destruct (SvgFacts.fold_max_ge rest a) as [Hmax1 Hmax2].
    set (mn := fold_left Qmin rest a) in *. set (mx := fold_left Qmax rest a) in *.
    assert (Hall : Forall (fun e => mn <= e <= mx) (a :: rest)).
    { constructor; [split; assumption|].
      apply Forall_forall. intros e He.
      rewrite Forall_forall in Hmin2, Hmax2. split; [apply Hmin2 | apply Hmax2]; exact He. }
    split.
    { intros t s Ht Hs Hz.
      assert (Hin : In s (a :: rest))
        by (rewrite <- Hfs; apply in_truthy_font_sizes; exists t; auto).
      rewrite Forall_forall in Hall. apply Hall, Hin. }
    split; [|intros H; discriminate H].
    intros _. split.
    + assert (Hin : In mx (truthy_font_sizes layout_tokens))
        by (rewrite Hfs; apply SvgFacts.fold_max_in).
      apply in_truthy_font_sizes in Hin as [t [Ht [Hs _]]].
      exists t. split; [exact Ht|]. unfold is_largest_font_size. rewrite Hs.
      cbn [font_size_eq largest_font_size]. apply Qeq_bool_iff. reflexivity.
    + assert (Hin : In mn (truthy_font_sizes layout_tokens))
        by (rewrite Hfs; apply SvgFacts.fold_min_in).
      apply in_truthy_font_sizes in Hin as [t [Ht [Hs _]]].
      exists t. split; [exact Ht|]. unfold is_smallest_font_size. rewrite Hs.
      cbn [font_size_eq smallest_font_size]. apply Qeq_bool_iff. reflexivity.
Qed.

End RelativeFontSizeFacts.

(** ** [get_word_shape_feature] *)
Module WordShapeFacts.

Section Classifiers.
Variables py_isdigit py_isalpha py_isupper : ascii -> bool.
Local Abbreviation CS := (get_char_shape_feature py_isdigit py_isalpha py_isupper).
Local Abbreviation WS := (get_word_shape_feature py_isdigit py_isalpha py_isupper).

Lemma char_shape_length ch : List.length (CS ch) = 1%nat.
Proof.
  unfold get_char_shape_feature.
  destruct (py_isdigit ch), (py_isalpha ch), (py_isupper ch); reflexivity.
Qed.

Lemma concat_length_one (l : list str) :
  Forall (fun s => List.length s = 1%nat) l -> List.length (List.concat l) = List.length l.
Proof.
  induction l as [|s l IH]; intros H; [reflexivity|].
  apply Forall_cons_iff in H as [Hs H]. cbn [List.concat]. rewrite length_app, Hs, IH by exact H.
  reflexivity.
Qed.

Lemma without_duplicates_facts rest : forall last,
  no_adjacent_duplicates (last :: without_consequitive_duplicates_from last rest) /\
  (List.length (without_consequitive_duplicates_from last rest) <= List.length rest)%nat /\
  incl (without_consequitive_duplicates_from last rest) rest.
Proof.
  induction rest as [|ch rest IH]; intros last; cbn [without_consequitive_duplicates_from].
  - split; [exact I|]. split; [constructor|]. intros a [].
  - destruct (list_eq_dec ascii_dec ch last) as [E|E].
    + destruct (IH last) as [H1 [H2 H3]]. split; [exact H1|]. split; [cbn; lia|].
      intros a Ha. right. apply H3, Ha.
    + destruct (IH ch) as [H1 [H2 H3]]. split; [split; [congruence|exact H1]|].
      split; [cbn; lia|]. intros a [<-|Ha]; [left; reflexivity|right; apply H3, Ha].
Qed.

(** The runs of equal neighbouring shapes: each string [s] with a count
    [n] stands for [S n] copies of [s]. *)
Lemma without_duplicates_runs rest : forall last,
  exists k (r : list (str * nat)),
    rest = repeat last k ++ List.concat (map (fun '(s, n) => repeat s (S n)) r) /\
    without_consequitive_duplicates_from last rest = map fst r.
Proof.
  induction rest as [|ch rest IH]; intros last; cbn [without_consequitive_duplicates_from].
  - exists 0%nat, []. split; reflexivity.
  - destruct (list_eq_dec ascii_dec ch last) as [E|E].
    + destruct (IH last) as [k [r [H1 H2]]]. exists (S k), r. subst ch.
      split; [rewrite H1 at 1; reflexivity | exact H2].
    + destruct (IH ch) as [k [r [H1 H2]]]. exists 0%nat, ((ch, k) :: r).
      split; [|rewrite H2; reflexivity].
      simpl. rewrite H1 at 1. reflexivity.
Qed.

Lemma word_shape_long c0 mid c1 c2 :
  WS (c0 :: mid ++ [c1; c2]) =
  CS c0 ++ List.concat
    (match map CS mid with
     | [] => []
     | first :: rest => first :: without_consequitive_duplicates_from first rest
     end) ++ CS c1 ++ CS c2.
Proof.
  unfold get_word_shape_feature.
  rewrite map_cons, map_app. cbn [firstn skipn map].
  rewrite length_cons, length_app, length_map. cbn [List.length].
  replace (S (List.length mid + 2) - 3)%nat with (List.length (map CS mid)) by (rewrite length_map; lia).
  rewrite firstn_app, Nat.sub_diag, firstn_O, app_nil_r, firstn_all.
  rewrite ?length_app, ?length_map. cbn [List.length].
  replace (List.length mid + 2 - 2)%nat with (List.length (map CS mid)) by (rewrite length_map; lia).
  rewrite skipn_app, Nat.sub_diag, skipn_all. cbn [app skipn].
  cbn [List.concat]. rewrite concat_app. cbn [List.concat]. rewrite app_nil_r. reflexivity.
Qed.

Lemma three_or_more (l : list ascii) : (3 <= List.length l)%nat ->
  exists c0 mid c1 c2, l = c0 :: mid ++ [c1; c2].
Proof.
  intros H. destruct l as [|c0 l]; [cbn in H; lia|].
  destruct (exists_last (l := l)) as [l1 [c2 E2]]; [intros ->; cbn in H; lia|].
  destruct (exists_last (l := l1)) as [mid [c1 E1]];
    [intros ->; subst l; cbn in H; lia|].
  exists c0, mid, c1, c2. subst. rewrite <- app_assoc. reflexivity.
Qed.

(** For any character classification, [get_word_shape_feature] keeps the
    shapes of the first and of the last two characters and collapses every
    run of equal neighbouring shapes in between to one shape: the shapes in
    between are the runs, each of one or more copies of a shape, and the
    kept shapes are the shapes of the runs, no two neighbours equal; so a text of [n] characters
    gives a shape of at least [min n 3] and at most [n] characters, equal
    to the character shapes when [n <= 3]. *)
Theorem get_word_shape_feature_structure text :
  (Nat.min (List.length text) 3 <= List.length (WS text) <= List.length text)%nat /\
  ((List.length text <= 3)%nat -> WS text = List.concat (map CS text)) /\
  (forall c0 mid c1 c2, text = c0 :: mid ++ [c1; c2] ->
     exists m, WS text = CS c0 ++ List.concat m ++ CS c1 ++ CS c2 /\
       Forall (fun s => List.length s = 1%nat) m /\ incl m (map CS mid) /\
       (mid <> [] -> m <> []) /\ no_adjacent_duplicates m /\
       exists r : list (str * nat),
         map CS mid = List.concat (map (fun '(s, n) => repeat s (S n)) r) /\ m = map fst r).
Proof.
  assert (Hstruct : forall c0 mid c1 c2,
     exists m, WS (c0 :: mid ++ [c1; c2]) = CS c0 ++ List.concat m ++ CS c1 ++ CS c2 /\
       Forall (fun s => List.length s = 1%nat) m /\ incl m (map CS mid) /\
       (mid <> [] -> m <> []) /\ no_adjacent_duplicates m /\
       (exists r : list (str * nat),
          map CS mid = List.concat (map (fun '(s, n) => repeat s (S n)) r) /\ m = map fst r) /\
       (List.length m <= List.length mid)%nat).
  { intros c0 mid c1 c2. rewrite word_shape_long.
    destruct (map CS mid) as [|first rest] eqn:Hm.
    - exists []. split; [reflexivity|]. split; [constructor|]. split; [intros a []|].
      split; [intros Hmid; destruct mid; [contradiction Hmid; reflexivity|discriminate Hm]|].
      split; [exact I|]. split; [exists []; split; reflexivity|cbn; lia].
    - destruct (without_duplicates_facts rest first) as [H1 [H2 H3]].
      exists (first :: without_consequitive_duplicates_from first rest).
      split; [reflexivity|].
      assert (Hincl : incl (first :: without_consequitive_duplicates_from first rest) (first :: rest)).
      { intros a [<-|Ha]; [left; reflexivity|right; apply H3, Ha]. }
      split.
      { apply Forall_forall. intros s Hs. apply Hincl in Hs. rewrite <- Hm in Hs.
        apply in_map_iff in Hs as [ch [<- _]].
        apply char_shape_length. }
      split; [exact Hincl|]. split; [discriminate|]. split; [exact H1|].
      split.
      { destruct (without_duplicates_runs rest first) as [k [r [R1 R2]]].
        exists ((first, k) :: r). split.
        - cbn [map List.concat repeat app]. rewrite R1 at 1. reflexivity.
        - rewrite R2. reflexivity. }
      rewrite <- (length_map CS mid), Hm. cbn [List.length]. apply le_n_S, H2. }
  split; [|split].
  - destruct (Nat.le_gt_cases 3 (List.length text)) as [H3|H3].
    + destruct (three_or_more text H3) as [c0 [mid [c1 [c2 ->]]]].
      destruct (Hstruct c0 mid c1 c2) as [m [E [Hone [_ [Hne [_ [_ Hlen]]]]]]].
      rewrite E, !length_app, !char_shape_length, concat_length_one by exact Hone.
      rewrite length_cons, length_app. cbn [List.length]. unfold str in *.
      destruct mid as [|a mid]; [cbn in Hlen |- *; lia|].
      assert (m <> []) by (apply Hne; discriminate). destruct m; [contradiction|].
      cbn [List.length] in *. lia.
    + destruct text as [|a [|b [|c rest]]]; cbn [List.length] in H3 |- *; try lia.
      all: unfold get_word_shape_feature;
        cbn [map firstn skipn List.length Nat.sub app List.concat];
        rewrite ?app_nil_r, ?length_app, ?char_shape_length; cbn; lia.
  - intros H3. destruct text as [|a [|b [|c [|d rest]]]]; cbn [List.length] in H3; try lia.
    + reflexivity.
    + unfold get_word_shape_feature.
      cbn [map firstn skipn List.length Nat.sub app List.concat]. reflexivity.
    + unfold get_word_shape_feature.
      cbn [map firstn skipn List.length Nat.sub app List.concat]. rewrite !app_nil_r. reflexivity.
    + change [a; b; c] with (a :: [] ++ [b; c]). rewrite word_shape_long.
      cbn [map app List.concat]. rewrite !app_nil_r. reflexivity.
  - intros c0 mid c1 c2 ->. destruct (Hstruct c0 mid c1 c2) as [m [E [H1 [H2 [H3 [H4 [H5 _]]]]]]].
    exists m. repeat split; assumption.
Qed.

End Classifiers.
End WordShapeFacts.

(** ** [LineIndentationStatusFeature] *)
Module LineIndentationFacts.
Local Open Scope Q_scope.

Ltac finish_indent :=
  cbn; split; [reflexivity|]; split; [reflexivity|]; split; [intros; reflexivity|];
  intros Hne;
  first
    [ contradiction Hne; reflexivity
    | split; [reflexivity|]; split; [discriminate|];
      eexists _, _; split; [reflexivity|]; split; [reflexivity|];
      first [ left; split; [reflexivity|assumption]
            | right; split; [reflexivity|assumption] ] ].

Lemma indent_update_changes_aux self layout_token :
  let '(is_indented, self') := get_is_indented_and_update self layout_token in
  is_indented = _is_indented self' /\ _is_new_line self' = false /\
  (forall layout_token', get_is_indented_and_update self' layout_token' = (is_indented, self')) /\
  (is_indented <> _is_indented self ->
     _is_new_line self = true /\ text layout_token <> [] /\
     exists c p, coordinates layout_token = Some c /\ _line_start_x self = Some p /\
       let character_width := width c / inject_Z (Z.of_nat (List.length (text layout_token))) in
       (is_indented = true /\ character_width < x c - p \/
        is_indented = false /\ character_width < p - x c)).
Proof.
  unfold get_is_indented_and_update.
  destruct self as [lsx nl ind]; cbn [_is_new_line _line_start_x _is_indented].
  destruct nl; [|finish_indent].
  destruct (coordinates layout_token) as [c|]; [|finish_indent].
  destruct (text layout_token) as [|ch rest]; [finish_indent|].
  destruct lsx as [p|]; [|finish_indent].
  cbn zeta.
  destruct (Qlt_le_dec _ (x c - p)), (Qlt_le_dec _ (p - x c)); finish_indent.
Qed.


Lemma indent_update_value self layout_token :
  let '(is_indented, self') := get_is_indented_and_update self layout_token in
  (forall c, _is_new_line self = true -> coordinates layout_token = Some c ->
     text layout_token <> [] ->
     _line_start_x self' = Some (x c) /\
     let character_width := width c / inject_Z (Z.of_nat (List.length (text layout_token))) in
     match _line_start_x self with
     | None => is_indented = _is_indented self
     | Some p =>
         (character_width < p - x c -> is_indented = false) /\
         (~ character_width < p - x c -> character_width < x c - p -> is_indented = true) /\
         (~ character_width < p - x c -> ~ character_width < x c - p ->
            is_indented = _is_indented self)
     end) /\
  (_is_new_line self = false \/ coordinates layout_token = None \/ text layout_token = [] ->
     is_indented = _is_indented self /\ _line_start_x self' = _line_start_x self).
Proof.
  unfold get_is_indented_and_update.
  destruct self as [lsx nl ind]; cbn [_is_new_line _line_start_x _is_indented].
  destruct nl.
  2: { split; [intros c H; discriminate H|intros _; split; reflexivity]. }
  destruct (coordinates layout_token) as [c|].
  2: { split; [intros c' _ H; discriminate H|intros _; split; reflexivity]. }
  destruct (text layout_token) as [|ch rest].
  { split; [intros c' _ _ H; contradiction H; reflexivity|intros _; split; reflexivity]. }
  split.
  2: { intros [H|[H|H]]; discriminate H. }
  intros c' _ E _. injection E as <-. cbn zeta.
  destruct lsx as [p|]; cbn [_line_start_x _is_indented]; split; try reflexivity.
  destruct (Qlt_le_dec _ (x c - p)) as [L1|L1], (Qlt_le_dec _ (p - x c)) as [L2|L2];
    repeat split; intros; try reflexivity; lra.
Qed.

(** [get_is_indented_and_update] returns the flag it stores and clears
    [_is_new_line], so that further calls before the next [on_new_line]
    return the same flag and change nothing. At the first token of a line
    that has coordinates and text, the line start becomes the token's x;
    when a previous line start is known, the flag becomes false when the
    line starts more than one character width left of it, otherwise true
    when it starts more than one character width right of it, and else
    stays as it was; without a previous line start it stays as it was.
    At any other token the flag and the line start stay as they were. So
    the flag only changes at such a first token, with a previous line
    start known, in the two cases above. *)
Theorem get_is_indented_and_update_changes self layout_token :
  let '(is_indented, self') := get_is_indented_and_update self layout_token in
  is_indented = _is_indented self' /\ _is_new_line self' = false /\
  (forall layout_token', get_is_indented_and_update self' layout_token' = (is_indented, self')) /\
  (is_indented <> _is_indented self ->
     _is_new_line self = true /\ text layout_token <> [] /\
     exists c p, coordinates layout_token = Some c /\ _line_start_x self = Some p /\
       let character_width := width c / inject_Z (Z.of_nat (List.length (text layout_token))) in
       (is_indented = true /\ character_width < x c - p \/
        is_indented = false /\ character_width < p - x c)) /\
  (forall c, _is_new_line self = true -> coordinates layout_token = Some c ->
     text layout_token <> [] ->
     _line_start_x self' = Some (x c) /\
     let character_width := width c / inject_Z (Z.of_nat (List.length (text layout_token))) in
     match _line_start_x self with
     | None => is_indented = _is_indented self
     | Some p =>
         (character_width < p - x c -> is_indented = false) /\
         (~ character_width < p - x c -> character_width < x c - p -> is_indented = true) /\
         (~ character_width < p - x c -> ~ character_width < x c - p ->
            is_indented = _is_indented self)
     end) /\
  (_is_new_line self = false \/ coordinates layout_token = None \/ text layout_token = [] ->
     is_indented = _is_indented self /\ _line_start_x self' = _line_start_x self).
Proof.
  pose proof (indent_update_changes_aux self layout_token) as H1.
  pose proof (indent_update_value self layout_token) as H2.
  destruct (get_is_indented_and_update self layout_token) as [is_indented self'].
  destruct H1 as (A & B & C & D). destruct H2 as [E F].
  exact (conj A (conj B (conj C (conj D (conj E F))))).
Qed.

End LineIndentationFacts.

(** ** One feature object per line in [iter_line_features] *)
Section LineFeatureFacts.
Variable line_text : LayoutLine -> str.

Lemma re_split_acc_not_nil s : forall cur, re_split_acc cur s <> [].
Proof.
  induction s as [|c s IH]; intros cur; cbn [re_split_acc]; [discriminate|].
  destruct (is_split_sep c); [discriminate|apply IH].
Qed.

Lemma skipn_cons_nth {A} n (l : list A) x r : skipn n l = x :: r ->
  nth_error l n = Some x /\ skipn (S n) l = r.
Proof.
  revert l. induction n as [|n IH]; intros l H; destruct l as [|a l]; try discriminate.
  - cbn in H |- *. injection H as -> ->. split; reflexivity.
  - cbn in H |- *. apply IH, H.
Qed.

Lemma last_map_some_cons {A} (a : list A) : forall (x : A) prev,
  last (map Some (x :: a)) prev = last (map Some a) (Some x).
Proof.
  induction a as [|y a IH]; intros x prev; [reflexivity|].
  transitivity (last (map Some a) (Some y)); [apply (IH y prev)|symmetry; apply (IH y (Some x))].
Qed.

Lemma previous_items_app {A} (a b : list A) : forall prev,
  previous_items prev (a ++ b) =
  previous_items prev a ++ previous_items (last (map Some a) prev) b.
Proof.
  induction a as [|x a IH]; intros prev; [reflexivity|].
  cbn [app previous_items]. rewrite IH, last_map_some_cons. reflexivity.
Qed.

Lemma last_map_some_app {A} (a b : list A) prev :
  last (map Some (a ++ b)) prev = last (map Some b) (last (map Some a) prev).
Proof.
  revert prev. induction a as [|x a IH]; intros prev; [reflexivity|].
  change ((x :: a) ++ b) with (x :: (a ++ b)). rewrite !last_map_some_cons. apply IH.
Qed.

Lemma running_sums_app (a b : list nat) : forall acc,
  running_sums acc (a ++ b) = running_sums acc a ++ running_sums (acc + list_sum a) b.
Proof.
  induction a as [|n a IH]; intros acc; cbn [app running_sums list_sum fold_right].
  - rewrite Nat.add_0_r. reflexivity.
  - rewrite IH, Nat.add_assoc. reflexivity.
Qed.

Lemma iter_block_lines_layout pb bi bl m dtc ls : forall li prev dti,
  skipn li bl = ls ->
  let '(fs, e, st) := iter_block_lines line_text pb bi bl m dtc ls li prev dti in
  Forall (fun f => nth_error (sf_block_lines f) (sf_block_line_index f) = Some (sf_layout_line f) /\
                   sf_block_lines f = bl /\ sf_page_blocks f = pb /\ sf_page_block_index f = bi /\
                   sf_document_token_count f = dtc) fs /\
  (e = None <-> Forall (fun l => tokens l <> []) ls) /\
  (e = None ->
     map sf_layout_line fs = ls /\
     map sf_layout_token fs = first_tokens ls /\
     map sf_previous_layout_token fs = previous_items prev (map sf_layout_token fs) /\
     fst st = last (map Some (map sf_layout_token fs)) prev /\
     map sf_document_token_index fs = running_sums dti (map ntok ls) /\
     snd st = (dti + list_sum (map ntok ls))%nat).
Proof.
  induction ls as [|l ls IH]; intros li prev dti Hskip.
  - cbn. split; [constructor|]. split; [split; constructor|].
    intros _. repeat split; lia.
  - apply skipn_cons_nth in Hskip as [Hnth Hskip].
    cbn [iter_block_lines]. unfold re_split.
    destruct (re_split_acc [] (line_text l)) as [|t0 ts0] eqn:Hs;
      [exfalso; exact (re_split_acc_not_nil _ _ Hs)|].
    destruct (tokens l) as [|t ts] eqn:Ht.
    + split; [constructor|]. split; [|intros H; discriminate H].
      split; [intros H; discriminate H|intros H; inversion H; contradiction].
    + specialize (IH (S li) (Some t) (dti + List.length (t :: ts))%nat Hskip).
      destruct (iter_block_lines line_text pb bi bl m dtc ls (S li) (Some t)
                  (dti + List.length (t :: ts))) as [[fs e] st].
      destruct IH as [Hpos [He Hok]].
      split; [constructor; [cbn; auto|exact Hpos]|].
      split.
      { rewrite He. split; [intros H; constructor; [congruence|exact H]|].
        intros H; inversion H; assumption. }
      intros E. destruct (Hok E) as [H1 [H2 [H3 [H4 [H5 H6]]]]].
      cbn [map sf_layout_line sf_layout_token sf_previous_layout_token sf_document_token_index].
      unfold first_tokens; cbn [flat_map]; rewrite Ht; cbn [firstn app].
      fold (first_tokens ls).
      split; [f_equal; exact H1|]. split; [f_equal; exact H2|].
      split; [cbn [previous_items]; f_equal; exact H3|].
      split; [exact (eq_trans H4 (eq_sym (last_map_some_cons _ t prev)))|].
      split; [cbn [running_sums]; unfold ntok at 1; rewrite Ht; f_equal; exact H5|].
      rewrite H6. change (list_sum (ntok l :: map ntok ls)) with (ntok l + list_sum (map ntok ls))%nat.
      replace (ntok l) with (List.length (t :: ts)) by (unfold ntok; rewrite Ht; reflexivity). lia.
Qed.

Lemma iter_page_blocks_layout pb dtc bs : forall bi prev dti,
  skipn bi pb = bs ->
  let '(fs, e, st) := iter_page_blocks line_text pb dtc bs bi prev dti in
  Forall (fun f => nth_error (sf_block_lines f) (sf_block_line_index f) = Some (sf_layout_line f) /\
     (exists b, nth_error (sf_page_blocks f) (sf_page_block_index f) = Some b /\
                lines b = sf_block_lines f) /\
     sf_document_token_count f = dtc) fs /\
  (e = None <-> Forall block_ok bs) /\
  (e = None ->
     map sf_layout_line fs = flat_map lines bs /\
     map sf_layout_token fs = first_tokens (flat_map lines bs) /\
     map sf_previous_layout_token fs = previous_items prev (map sf_layout_token fs) /\
     fst st = last (map Some (map sf_layout_token fs)) prev /\
     map sf_document_token_index fs = running_sums dti (map ntok (flat_map lines bs)) /\
     snd st = (dti + list_sum (map ntok (flat_map lines bs)))%nat).
Proof.
  induction bs as [|b bs IH]; intros bi prev dti Hskip.
  - cbn. split; [constructor|]. split; [split; constructor|]. intros _. repeat split; lia.
  - apply skipn_cons_nth in Hskip as [Hnth Hskip].
    cbn [iter_page_blocks].
    destruct (lines b) as [|l ls] eqn:Hl.
    + split; [constructor|]. split; [|intros H; discriminate H].
      split; [intros H; discriminate H|intros H; inversion H as [|? ? [Hb _]]; contradiction (Hb Hl)].
    + match goal with
      | |- context [iter_block_lines line_text ?a1 ?a2 ?a3 ?a4 ?a5 ?a6 ?a7 ?a8 ?a9] =>
          pose proof (iter_block_lines_layout a1 a2 a3 a4 a5 a6 a7 a8 a9 eq_refl) as HB;
          destruct (iter_block_lines line_text a1 a2 a3 a4 a5 a6 a7 a8 a9) as [[fs e] st]
      end.
      destruct HB as [Hpos [He Hok]].
      assert (Hpos' : Forall (fun f =>
          nth_error (sf_block_lines f) (sf_block_line_index f) = Some (sf_layout_line f) /\
          (exists b0, nth_error (sf_page_blocks f) (sf_page_block_index f) = Some b0 /\
                      lines b0 = sf_block_lines f) /\
          sf_document_token_count f = dtc) fs).
      { refine (Forall_impl _ _ Hpos). intros f [H1 [H2 [H3 [H4 H5]]]].
        split; [exact H1|]. split; [|exact H5]. exists b. rewrite H3, H4, H2. split; assumption. }
      destruct e as [err|].
      * split; [exact Hpos'|]. split; [|intros H; discriminate H].
        split; [intros H; discriminate H|].
        intros H. inversion H as [|? ? [_ Hb] _]. rewrite Hl in Hb. apply He in Hb. discriminate Hb.
      * specialize (IH (S bi) (fst st) (snd st) Hskip).
        destruct (iter_page_blocks line_text pb dtc bs (S bi) (fst st) (snd st))
          as [[fs2 e2] st2].
        destruct IH as [Hpos2 [He2 Hok2]].
        split; [apply Forall_app; split; assumption|].
        split.
        { rewrite He2. split.
          - intros H. constructor; [|exact H]. unfold block_ok. rewrite Hl.
            split; [discriminate|]. apply He. reflexivity.
          - intros H. inversion H. assumption. }
        intros E. destruct (Hok eq_refl) as [H1 [H2 [H3 [H4 [H5 H6]]]]].
        destruct (Hok2 E) as [G1 [G2 [G3 [G4 [G5 G6]]]]].
        cbn [flat_map]. rewrite Hl. unfold first_tokens in *.
        rewrite !map_app, flat_map_app.
        split; [rewrite H1, G1; reflexivity|]. split; [rewrite H2, G2; reflexivity|].
        split; [rewrite previous_items_app, H3, G3, H4; reflexivity|].
        split; [rewrite <- map_app, last_map_some_app, G4, H4; reflexivity|].
        split; [rewrite running_sums_app, H5, G5, H6; reflexivity|].
        rewrite G6, H6, list_sum_app. lia.
Qed.

Lemma iter_pages_layout dtc ps : forall prev dti,
  let '(fs, e) := iter_pages line_text dtc ps prev dti in
  Forall (fun f => nth_error (sf_block_lines f) (sf_block_line_index f) = Some (sf_layout_line f) /\
     (exists b, nth_error (sf_page_blocks f) (sf_page_block_index f) = Some b /\
                lines b = sf_block_lines f) /\
     sf_document_token_count f = dtc) fs /\
  (e = None <-> Forall block_ok (flat_map blocks ps)) /\
  (e = None ->
     map sf_layout_line fs = flat_map lines (flat_map blocks ps) /\
     map sf_layout_token fs = first_tokens (flat_map lines (flat_map blocks ps)) /\
     map sf_previous_layout_token fs = previous_items prev (map sf_layout_token fs) /\
     map sf_document_token_index fs = running_sums dti (map ntok (flat_map lines (flat_map blocks ps)))).
Proof.
  induction ps as [|page ps IH]; intros prev dti.
  - cbn. split; [constructor|]. split; [split; constructor|]. intros _. repeat split.
  - cbn [iter_pages].
    pose proof (iter_page_blocks_layout (blocks page) dtc (blocks page) 0 prev dti eq_refl) as HB.
    destruct (iter_page_blocks line_text (blocks page) dtc (blocks page) 0 prev dti)
      as [[fs e] st].
    destruct HB as [Hpos [He Hok]].
    destruct e as [err|].
    + split; [exact Hpos|]. split; [|intros H; discriminate H].
      split; [intros H; discriminate H|].
      intros H. cbn [flat_map] in H. apply Forall_app in H as [H _].
      apply He in H. discriminate H.
    + specialize (IH (fst st) (snd st)).
      destruct (iter_pages line_text dtc ps (fst st) (snd st)) as [fs2 e2].
      destruct IH as [Hpos2 [He2 Hok2]].
      split; [apply Forall_app; split; assumption|].
      cbn [flat_map]. rewrite Forall_app, He2.
      split; [split; [intros H; split; [apply He; reflexivity|exact H]|intros [_ H]; exact H]|].
      intros E. destruct (Hok eq_refl) as [H1 [H2 [H3 [H4 [H5 H6]]]]].
      destruct (Hok2 (proj2 He2 E)) as [G1 [G2 [G3 G5]]].
      unfold first_tokens in *.
      rewrite !flat_map_app, !map_app.
      split; [rewrite H1, G1; reflexivity|]. split; [rewrite H2, G2; reflexivity|].
      split; [rewrite previous_items_app, H3, G3, H4; reflexivity|].
      rewrite running_sums_app, H5, G5, H6; reflexivity.
Qed.

Lemma document_token_count_lines bs :
  list_sum (map (fun b => list_sum (map (fun l => List.length (tokens l)) (lines b))) bs) =
  list_sum (map ntok (flat_map lines bs)).
Proof.
  induction bs as [|b bs IH]; [reflexivity|].
  cbn [flat_map map list_sum fold_right]. rewrite map_app, list_sum_app.
  fold (list_sum (map (fun b => list_sum (map (fun l => List.length (tokens l)) (lines b))) bs)).
  rewrite IH. reflexivity.
Qed.

(** [iter_line_features] yields one feature object per line, in document
    order, and stops with an exception exactly when some block has no
    lines (the [ValueError] of [max] over no line lengths) or some line of
    a block has no tokens (the [IndexError] of [line_tokens[0]]); the
    [continue] on an empty split is never taken. Every yielded object
    points at its line through [block_lines[block_line_index]] and at a
    block with those lines through [page_blocks[page_block_index]]. When
    no exception is raised, the objects carry, in order, every line of
    the document and its first token; the previous token of each is the
    first token of the line before (across blocks and pages), and its
    document token index is the number of tokens of all earlier lines,
    out of the total number of tokens. *)
Theorem iter_line_features_one_per_line d :
  let '(fs, e) := iter_line_features line_text d in
  let all_lines := flat_map lines (iter_all_blocks d) in
  Forall (fun f => nth_error (sf_block_lines f) (sf_block_line_index f) = Some (sf_layout_line f) /\
     exists b, nth_error (sf_page_blocks f) (sf_page_block_index f) = Some b /\
               lines b = sf_block_lines f) fs /\
  (e = None <-> Forall block_ok (iter_all_blocks d)) /\
  (e = None ->
     map sf_layout_line fs = all_lines /\
     map sf_layout_token fs = first_tokens all_lines /\
     map sf_previous_layout_token fs = previous_items None (map sf_layout_token fs) /\
     map sf_document_token_index fs = running_sums 0 (map ntok all_lines) /\
     Forall (fun f => sf_document_token_count f = list_sum (map ntok all_lines)) fs).
Proof.
  unfold iter_line_features.
  pose proof (iter_pages_layout
    (list_sum (map (fun b => list_sum (map (fun l => List.length (tokens l)) (lines b)))
                   (iter_all_blocks d))) (pages d) None 0) as H.
  destruct (iter_pages line_text _ (pages d) None 0) as [fs e].
  destruct H as [Hpos [He Hok]]. rewrite document_token_count_lines in Hpos.
  unfold iter_all_blocks in *.
  split; [refine (Forall_impl _ _ Hpos); intros f [H1 [H2 _]]; split; assumption|].
  split; [exact He|].
  intros E. destruct (Hok E) as [H1 [H2 [H3 H4]]].
  split; [exact H1|]. split; [exact H2|]. split; [exact H3|]. split; [exact H4|].
  refine (Forall_impl _ _ Hpos). intros f [_ [_ H]]. exact H.
Qed.

End LineFeatureFacts.

(** ** The label token of a segmentation row *)
Section SegmentationLabels.

Variable line_text : LayoutLine -> str.
Variable _LINESCALE : Z.
Variable get_lower_token_text : SegmentationLineFeatures -> str.
Variable get_prefix : nat -> SegmentationLineFeatures -> str.
Variable get_capitalisation_status_using_allcap : SegmentationLineFeatures -> str.
Variable get_digit_status_using_containsdigits : SegmentationLineFeatures -> str.
Variable get_dummy_str_relative_page_position : SegmentationLineFeatures -> str.
Variable get_line_punctuation_profile : SegmentationLineFeatures -> str.
Variable get_line_punctuation_profile_length_feature : SegmentationLineFeatures -> str.
Variable get_dummy_str_is_bitmap_around : SegmentationLineFeatures -> str.
Variable get_dummy_str_is_vector_around : SegmentationLineFeatures -> str.

(** The segmentation rows give back, through [label_token_text], the
    token text of their lines, in order, whatever the other feature values
    hold (spaces included): the first column is the token text and that
    never contains a space. *)
Theorem label_token_text_of_rows layout_document :
  map label_token_text
    (fst (iter_model_data_for_layout_document line_text _LINESCALE
            get_lower_token_text get_prefix
            get_capitalisation_status_using_allcap get_digit_status_using_containsdigits
            get_dummy_str_relative_page_position get_line_punctuation_profile
            get_line_punctuation_profile_length_feature get_dummy_str_is_bitmap_around
            get_dummy_str_is_vector_around layout_document)) =
  map sf_token_text (fst (iter_line_features line_text layout_document)).
Proof.
  destruct (iter_line_features_facts line_text layout_document) as [_ Hf].
  unfold iter_model_data_for_layout_document.
  destruct (iter_line_features line_text layout_document) as [fs e]. cbn [fst] in Hf |- *.
  rewrite iter_model_data_rows. cbn [fst]. rewrite map_map.
  apply map_ext_in. intros f Hin. rewrite Forall_forall in Hf. destruct (Hf f Hin) as [Ht _].
  unfold label_token_text. cbn [data_line]. unfold line_features. cbn [join_space].
  unfold py_split_space. rewrite py_split_space_acc_app by exact Ht. reflexivity.
Qed.

End SegmentationLabels.

(** ** [format_feature_text] *)
Module FormatFeatureFacts.

Lemma drop_while_suffix f s : exists pre, s = pre ++ drop_while f s.
Proof.
  induction s as [|c s IH]; [exists []; reflexivity|]. cbn [drop_while].
  destruct (f c); [|exists []; reflexivity].
  destruct IH as [pre E]. exists (c :: pre). cbn. f_equal. exact E.
Qed.

Lemma drop_while_head f s :
  drop_while f s = [] \/ exists c r, drop_while f s = c :: r /\ f c = false.
Proof.
  induction s as [|c s IH]; [left; reflexivity|]. cbn [drop_while].
  destruct (f c) eqn:E; [exact IH|]. right. exists c, s. split; [reflexivity|exact E].
Qed.

Lemma drop_while_stop f c r : f c = false -> drop_while f (c :: r) = c :: r.
Proof. intros E. cbn. rewrite E. reflexivity. Qed.

Lemma py_strip_stripped s : stripped (py_strip s).
Proof.
  unfold py_strip, stripped.
  set (a := drop_while py_isspace s).
  destruct (drop_while_suffix py_isspace (rev a)) as [pre Hpre].
  destruct (drop_while_head py_isspace (rev a)) as [Hn|[c [r [Hb Hc]]]].
  - left. rewrite Hn. reflexivity.
  - right. rewrite Hb. cbn [rev]. split.
    + destruct (drop_while_head py_isspace s) as [Ha|[c' [r' [Ha Hc']]]];
        fold a in Ha; [rewrite Ha in Hb; discriminate Hb|].
      assert (Ea : a = (rev r ++ [c]) ++ rev pre).
      { rewrite <- (rev_involutive a), Hpre, Hb, rev_app_distr. reflexivity. }
      destruct (rev r) as [|c1 r1] eqn:Er.
      * exists c, []. split; [reflexivity|exact Hc].
      * exists c1, (r1 ++ [c]). split; [reflexivity|].
        rewrite Ea in Ha. injection Ha as -> _. exact Hc'.
    + exists (rev r), c. split; [reflexivity|exact Hc].
Qed.

Lemma stripped_py_strip s : stripped s -> py_strip s = s.
Proof.
  intros [->|[[c [r [E1 H1]]] [r' [c' [E2 H2]]]]]; [reflexivity|].
  unfold py_strip. rewrite E1, drop_while_stop by exact H1. rewrite <- E1, E2.
  rewrite rev_app_distr. cbn [rev app]. rewrite drop_while_stop by exact H2.
  cbn [rev]. rewrite rev_involutive. reflexivity.
Qed.

Lemma format_char_not_space c : py_isspace c = false -> format_char c = c.
Proof.
  revert c. intros c. destruct c as [[] [] [] [] [] [] [] []]; vm_compute; congruence.
Qed.

Lemma format_char_idempotent c : format_char (format_char c) = format_char c.
Proof.
  unfold format_char. destruct ((code c =? 32)%nat || (code c =? 9)%nat)%bool eqn:E.
  - destruct ((code NBSP =? 32)%nat || (code NBSP =? 9)%nat)%bool; reflexivity.
  - rewrite E. reflexivity.
Qed.

Lemma format_char_space_tab c : code (format_char c) <> 32%nat /\ code (format_char c) <> 9%nat.
Proof.
  unfold format_char. destruct ((code c =? 32)%nat || (code c =? 9)%nat)%bool eqn:E.
  - split; discriminate.
  - apply orb_false_iff in E as [E1 E2]. apply Nat.eqb_neq in E1, E2. split; assumption.
Qed.

(** [format_feature_text] leaves neither a space nor a tab in its result,
    and applying it again changes nothing. *)
Theorem format_feature_text_idempotent text :
  Forall (fun c => code c <> 32%nat /\ code c <> 9%nat) (format_feature_text text) /\
  format_feature_text (format_feature_text text) = format_feature_text text.
Proof.
  change (format_feature_text text) with (map format_char (py_strip text)).
  split.
  - apply Forall_forall. intros c Hc. apply in_map_iff in Hc as [a [<- _]].
    apply format_char_space_tab.
  - change (format_feature_text (map format_char (py_strip text)))
      with (map format_char (py_strip (map format_char (py_strip text)))).
    destruct (py_strip_stripped text) as [E|[[c [r [E1 H1]]] [r' [c' [E2 H2]]]]].
    + rewrite E. reflexivity.
    + rewrite stripped_py_strip.
      * rewrite map_map. apply map_ext. apply format_char_idempotent.
      * right. split.
        -- exists c, (map format_char r). rewrite E1. cbn [map].
           rewrite format_char_not_space by exact H1. split; [reflexivity|exact H1].
        -- exists (map format_char r'), c'. rewrite E2, map_app. cbn [map].
           rewrite format_char_not_space by exact H2. split; [reflexivity|exact H2].
Qed.

End FormatFeatureFacts.

(** ** Page status of the yielded segmentation lines *)
Module PageStatusFacts.

Lemma page_status_cases li n bi bn :
  (li < n)%nat -> (bi < bn)%nat ->
  let s := get_page_status (Z.of_nat bi) (Z.of_nat bn)
             (seg_get_block_status (Z.of_nat li) (Z.of_nat n)) in
  (s = T "PAGESTART" <-> bi = 0%nat /\ li = 0%nat) /\
  (s = T "PAGEEND" <-> S bi = bn /\ S li = n /\ li <> 0%nat) /\
  (s = T "PAGESTART" \/ s = T "PAGEEND" \/ s = T "PAGEIN").
Proof.
  intros Hl Hb s. unfold s, get_page_status, seg_get_block_status.
  destruct (Z.eqb_spec (Z.of_nat li) 0), (Z.eqb_spec (Z.of_nat li) (Z.of_nat n - 1)),
    (Z.eqb_spec (Z.of_nat bi) 0), (Z.eqb_spec (Z.of_nat bi) (Z.of_nat bn - 1));
    cbn [andb];
    repeat match goal with
           | |- context [str_list_eqb ?a ?b] =>
               let v := eval vm_compute in (str_list_eqb a b) in change (str_list_eqb a b) with v
           end; cbn [andb];
    intuition (first [discriminate | lia | reflexivity]).
Qed.

(** For every line [iter_line_features] yields, the page status is
    [PAGESTART] exactly for the first line of the first block of its page,
    and [PAGEEND] exactly for the last line of the last block when that
    line is not also the block's first line (so a page whose last block
    has a single line has no [PAGEEND] line); every other line is
    [PAGEIN]. *)
Theorem iter_line_features_page_status line_text d :
  Forall (fun f =>
    (sf_get_page_status f = T "PAGESTART" <->
       sf_page_block_index f = 0%nat /\ sf_block_line_index f = 0%nat) /\
    (sf_get_page_status f = T "PAGEEND" <->
       S (sf_page_block_index f) = List.length (sf_page_blocks f) /\
       S (sf_block_line_index f) = List.length (sf_block_lines f) /\
       sf_block_line_index f <> 0%nat) /\
    (sf_get_page_status f = T "PAGESTART" \/ sf_get_page_status f = T "PAGEEND" \/
     sf_get_page_status f = T "PAGEIN"))
    (fst (iter_line_features line_text d)).
Proof.
  unfold iter_line_features.
  match goal with
  | |- context [iter_pages line_text ?dtc (pages d) None 0] =>
      pose proof (iter_pages_layout line_text dtc (pages d) None 0) as H;
      destruct (iter_pages line_text dtc (pages d) None 0) as [fs e]
  end.
  destruct H as [Hpos _].
  refine (Forall_impl _ _ Hpos). intros f [Hl [[b [Hb _]] _]].
  apply page_status_cases.
  - apply nth_error_Some. congruence.
  - apply nth_error_Some. congruence.
Qed.

End PageStatusFacts.

(** ** The token contexts of the context-aware generator *)
Module ContextFeatureFacts.

Lemma iter_line_contexts_facts rfs line li lc ts : forall ti prev,
  skipn ti (tokens line) = ts ->
  let '(cs, p) := iter_line_contexts rfs line li lc (List.length (tokens line)) ts ti prev in
  map cf_layout_token cs = ts /\
  map cf_previous_layout_token cs = previous_items prev ts /\
  p = last (map Some ts) prev /\
  Forall (fun c => nth_error (tokens line) (cf_token_index c) = Some (cf_layout_token c) /\
                   cf_layout_line c = line /\
                   cf_token_count c = List.length (tokens line) /\
                   cf_line_index c = li /\ cf_line_count c = lc /\
                   cf_relative_font_size_feature c = rfs) cs.
Proof.
  induction ts as [|t ts IH]; intros ti prev Hskip.
  - cbn. repeat split. constructor.
  - apply skipn_cons_nth in Hskip as [Hnth Hskip]. cbn [iter_line_contexts].
    specialize (IH (S ti) (Some t) Hskip).
    destruct (iter_line_contexts rfs line li lc (List.length (tokens line)) ts (S ti) (Some t))
      as [cs p].
    destruct IH as [H1 [H2 [H3 H4]]].
    cbn [map previous_items]. rewrite H1, H2.
    split; [reflexivity|]. split; [reflexivity|].
    split; [rewrite H3; symmetry; apply last_map_some_cons|].
    constructor; [cbn; repeat split; exact Hnth|exact H4].
Qed.

Lemma context_ok_incl rfs bs bs' c : incl bs bs' -> context_ok rfs bs c -> context_ok rfs bs' c.
Proof.
  intros Hi [H1 [H2 [[b [Hb H3]] H4]]]. split; [exact H1|]. split; [exact H2|].
  split; [exists b; split; [apply Hi, Hb|exact H3]|exact H4].
Qed.

Lemma iter_block_contexts_facts rfs b ls : forall li prev,
  skipn li (lines b) = ls ->
  let '(cs, p) := iter_block_contexts rfs (List.length (lines b)) ls li prev in
  map cf_layout_token cs = flat_map tokens ls /\
  map cf_previous_layout_token cs = previous_items prev (flat_map tokens ls) /\
  p = last (map Some (flat_map tokens ls)) prev /\
  Forall (context_ok rfs [b]) cs.
Proof.
  induction ls as [|l ls IH]; intros li prev Hskip.
  - cbn. repeat split. constructor.
  - apply skipn_cons_nth in Hskip as [Hnth Hskip]. cbn [iter_block_contexts flat_map].
    pose proof (iter_line_contexts_facts rfs l li (List.length (lines b)) (tokens l) 0 prev
                  eq_refl) as HL.
    destruct (iter_line_contexts rfs l li (List.length (lines b)) (List.length (tokens l))
                (tokens l) 0 prev) as [cs p].
    destruct HL as [H1 [H2 [H3 H4]]].
    specialize (IH (S li) p Hskip).
    destruct (iter_block_contexts rfs (List.length (lines b)) ls (S li) p) as [cs2 p2].
    destruct IH as [G1 [G2 [G3 G4]]].
    rewrite !map_app, H1, G1, H2, G2, previous_items_app, <- H3.
    split; [reflexivity|]. split; [reflexivity|].
    split; [rewrite G3, <- map_app, last_map_some_app, <- H3; reflexivity|].
    apply Forall_app. split; [|exact G4].
    refine (Forall_impl _ _ H4). intros c [K1 [K2 [K3 [K4 [K5 K6]]]]].
    split; [rewrite K2; exact K1|]. split; [rewrite K3, K2; reflexivity|].
    split; [exists b; split; [left; reflexivity|]; rewrite K4, K2; split; assumption|].
    exact K6.
Qed.

Lemma iter_document_contexts_facts rfs bs : forall prev,
  let '(cs, p) := iter_document_contexts rfs bs prev in
  map cf_layout_token cs = flat_map (fun b => flat_map tokens (lines b)) bs /\
  map cf_previous_layout_token cs =
    previous_items prev (flat_map (fun b => flat_map tokens (lines b)) bs) /\
  p = last (map Some (flat_map (fun b => flat_map tokens (lines b)) bs)) prev /\
  Forall (context_ok rfs bs) cs.
Proof.
  induction bs as [|b bs IH]; intros prev.
  - cbn. repeat split. constructor.
  - cbn [iter_document_contexts flat_map].
    pose proof (iter_block_contexts_facts rfs b (lines b) 0 prev eq_refl) as HB.
    destruct (iter_block_contexts rfs (List.length (lines b)) (lines b) 0 prev) as [cs p].
    destruct HB as [H1 [H2 [H3 H4]]].
    specialize (IH p).
    destruct (iter_document_contexts rfs bs p) as [cs2 p2].
    destruct IH as [G1 [G2 [G3 G4]]].
    rewrite !map_app, H1, G1, H2, G2, previous_items_app, <- H3.
    split; [reflexivity|]. split; [reflexivity|].
    split; [rewrite G3, <- map_app, last_map_some_app, <- H3; reflexivity|].
    apply Forall_app. split.
    + refine (Forall_impl _ _ H4). intros c. apply context_ok_incl.
      intros x [<-|[]]. left. reflexivity.
    + refine (Forall_impl _ _ G4). intros c. apply context_ok_incl.
      intros x Hx. right. exact Hx.
Qed.

(** The context-aware generator builds one feature object per token of
    the document, in document order; the previous token of each is the
    token just before it in the document (across lines, blocks and pages;
    none for the first). Each object's token is at [token_index] of its
    line, [token_count] is the number of tokens of that line, the line is
    at [line_index] of a block of the document with [line_count] lines,
    and all objects share the [RelativeFontSizeFeature] of all the
    document's tokens. *)
Theorem iter_context_layout_token_features_follow_tokens layout_document :
  let cs := iter_context_layout_token_features layout_document in
  map cf_layout_token cs = iter_all_tokens layout_document /\
  map cf_previous_layout_token cs = previous_items None (iter_all_tokens layout_document) /\
  Forall (context_ok (new_RelativeFontSizeFeature (iter_all_tokens layout_document))
                     (iter_all_blocks layout_document)) cs.
Proof.
  unfold iter_context_layout_token_features.
  pose proof (iter_document_contexts_facts
                (new_RelativeFontSizeFeature (iter_all_tokens layout_document))
                (iter_all_blocks layout_document) None) as H.
  destruct (iter_document_contexts _ _ None) as [cs p]. cbn [fst].
  destruct H as [H1 [H2 [_ H4]]].
  split; [exact H1|]. split; [exact H2|exact H4].
Qed.

End ContextFeatureFacts.

(** ** [iter_parse_path] *)
Module SvgParseFacts.
Import Svg SvgPoints SvgParse.
Local Open Scope Q_scope.

Lemma parse_point_cases px py fp c vs :
  match parse_point px py fp c vs with
  | inl _ => item_ok (c, vs)
  | inr AssertionError => fp = None /\ ascii_upper c = "Z"%char
  | inr IndexError => (List.length vs < path_values_needed c)%nat
  end.
Proof.
  unfold parse_point, item_ok, path_values_needed; cbn [fst snd].
  destruct (Ascii.eqb (ascii_upper c) "Z") eqn:EZ.
  - destruct fp; [lia|]. split; [reflexivity|]. apply Ascii.eqb_eq, EZ.
  - destruct (Ascii.eqb (ascii_upper c) "H") eqn:EH; cbn [orb].
    + destruct vs; cbn; lia.
    + destruct (Ascii.eqb (ascii_upper c) "V") eqn:EV.
      * destruct vs; cbn; lia.
      * assert (Hl : List.length (rev vs) = List.length vs) by apply length_rev.
        destruct (rev vs) as [|a [|b r]]; cbn in Hl |- *; lia.
Qed.

Lemma parse_head_z c vs rest : ascii_upper c = "Z"%char ->
  iter_parse_path ((c, vs) :: rest) = ([], Some AssertionError).
Proof.
  intros HZ. unfold iter_parse_path. cbn [iter_parse_path_from].
  unfold parse_point. rewrite HZ. reflexivity.
Qed.

Lemma parse_from_errors items : forall px py fp out e,
  iter_parse_path_from px py fp items = (out, e) ->
  (List.length out <= List.length items)%nat /\
  map command out = firstn (List.length out) (map fst items) /\
  Forall item_ok (firstn (List.length out) items) /\
  (e = None -> List.length out = List.length items) /\
  (forall err, e = Some err -> exists c vs,
     nth_error items (List.length out) = Some (c, vs) /\
     ((err = AssertionError /\ fp = None /\ List.length out = O /\ ascii_upper c = "Z"%char) \/
      (err = IndexError /\ (List.length vs < path_values_needed c)%nat))).
Proof.
  induction items as [|[c vs] rest IH]; intros px py fp out e Hr.
  - injection Hr as <- <-. cbn. repeat split; try constructor.
    intros err Herr; discriminate.
  - cbn [iter_parse_path_from] in Hr.
    pose proof (parse_point_cases px py fp c vs) as Hc.
    destruct (parse_point px py fp c vs) as [[x0 y0]|e0].
    + destruct (iter_parse_path_from x0 y0 _ rest) as [out' e'] eqn:Er.
      injection Hr as <- <-.
      destruct (IH _ _ _ _ _ Er) as [G1 [G2 [G3 [G4 G5]]]].
      cbn [List.length map firstn]. rewrite G2.
      split; [lia|]. split; [reflexivity|]. split; [constructor; assumption|].
      split; [intros He; rewrite (G4 He); reflexivity|].
      intros err Herr. destruct (G5 err Herr) as [c' [vs' [K1 [K2|K2]]]].
      * exfalso. destruct K2 as [_ [K2 _]]. destruct fp; discriminate.
      * exists c', vs'. split; [exact K1|right; exact K2].
    + injection Hr as <- <-. cbn [List.length firstn map].
      split; [lia|]. split; [reflexivity|]. split; [constructor|].
      split; [discriminate|].
      intros err Herr. injection Herr as <-. exists c, vs. split; [reflexivity|].
      destruct e0; [left|right]; repeat split; tauto.
Qed.

(** For parsed path items (a command letter and its values),
    [iter_parse_path] raises no exception exactly when the first command
    is not a close path ([Z] or [z]) and every command has the values it
    reads (none for [Z], one for [H] and [V], two for the others, either
    case). The yielded instructions keep the item's commands in order,
    one per item when there is no exception. It raises [AssertionError]
    exactly when the first command is a close path, before yielding
    anything; otherwise an [IndexError] comes from the first item with too
    few values, after one instruction for each earlier item. *)
Theorem iter_parse_path_errors items :
  let '(out, e) := iter_parse_path items in
  (e = None <-> (forall c vs, hd_error items = Some (c, vs) -> ascii_upper c <> "Z"%char) /\
                Forall item_ok items) /\
  map command out = firstn (List.length out) (map fst items) /\
  (e = None -> List.length out = List.length items) /\
  (e = Some AssertionError <->
     out = [] /\ exists c vs, hd_error items = Some (c, vs) /\ ascii_upper c = "Z"%char) /\
  (e = Some IndexError -> exists c vs,
     nth_error items (List.length out) = Some (c, vs) /\
     (List.length vs < path_values_needed c)%nat /\
     Forall item_ok (firstn (List.length out) items)).
Proof.
  destruct (iter_parse_path items) as [out e] eqn:Er.
  destruct (parse_from_errors items 0 0 None out e Er) as [G1 [G2 [G3 [G4 G5]]]].
  split; [split|]; [| |split; [exact G2|split; [exact G4|split; [split|]]]].
  - intros He. split.
    + intros c vs Hh HZ. destruct items as [|[c' vs'] rest]; [discriminate|].
      injection Hh as -> ->. rewrite (parse_head_z c vs rest HZ) in Er. congruence.
    + rewrite <- (firstn_all items), <- (G4 He). exact G3.
  - intros [Hh Hok]. destruct e as [err|]; [exfalso|reflexivity].
    destruct (G5 err eq_refl) as [c [vs [K1 [K2|K2]]]].
    + destruct K2 as [_ [_ [K2 K3]]]. rewrite K2 in K1.
      destruct items as [|it rest]; [discriminate|]. exact (Hh c vs K1 K3).
    + rewrite Forall_forall in Hok. apply nth_error_In in K1.
      specialize (Hok _ K1). unfold item_ok in Hok. cbn [fst snd] in Hok. lia.
  - intros He. destruct (G5 AssertionError He) as [c [vs [K1 [K2|K2]]]].
    + destruct K2 as [_ [_ [K2 K3]]]. destruct out; [|discriminate].
      split; [reflexivity|]. exists c, vs. split; [|exact K3].
      destruct items; [discriminate|exact K1].
    + destruct K2 as [K2 _]. discriminate.
  - intros [-> [c [vs [Hh HZ]]]]. destruct items as [|[c' vs'] rest]; [discriminate|].
    injection Hh as -> ->. rewrite (parse_head_z c vs rest HZ) in Er. congruence.
  - intros He. destruct (G5 IndexError He) as [c [vs [K1 [K2|K2]]]].
    + destruct K2 as [K2 _]. discriminate.
    + exists c, vs. split; [exact K1|]. split; [exact (proj2 K2)|exact G3].
Qed.

End SvgParseFacts.

Module SvgParsePointFacts.
Import Svg SvgPoints SvgParse.
Local Open Scope Q_scope.

Lemma previous_point_cons px py q out j : nth_error out j <> None ->
  previous_point px py (q :: out) (S j) = previous_point (x q) (y q) out j.
Proof.
  intros Hj. destruct j as [|k]; [reflexivity|]. cbn [previous_point nth_error].
  destruct (nth_error out k) eqn:Ek; [reflexivity|].
  exfalso. apply Hj, nth_error_None. apply nth_error_None in Ek. lia.
Qed.

Lemma parse_from_nth items : forall px py fp out e,
  iter_parse_path_from px py fp items = (out, e) ->
  forall i ci, nth_error out i = Some ci -> exists vs,
    nth_error items i = Some (command ci, vs) /\
    let '(rx, ry) := previous_point px py out i in
    parse_point rx ry (first_point_at fp out i) (command ci) vs = inl (x ci, y ci).
Proof.
  induction items as [|[c vs] rest IH]; intros px py fp out e Hr i ci Hi.
  - injection Hr as <- <-. destruct i; discriminate.
  - cbn [iter_parse_path_from] in Hr.
    destruct (parse_point px py fp c vs) as [[x0 y0]|e0] eqn:Ep;
      [|injection Hr as <- <-; destruct i; discriminate].
    destruct (iter_parse_path_from x0 y0 _ rest) as [out' e'] eqn:Er.
    injection Hr as <- <-. destruct i as [|j].
    + injection Hi as <-. exists vs. split; [reflexivity|]. cbn [previous_point command x y].
      destruct fp; exact Ep.
    + cbn [nth_error] in Hi.
      destruct (IH _ _ _ _ _ Er j ci Hi) as [vs' [K1 K2]].
      exists vs'. split; [exact K1|].
      rewrite previous_point_cons by congruence.
      replace (first_point_at fp (mkInstr c x0 y0 :: out') (S j))
        with (first_point_at (match fp with None => Some (x0, y0) | Some p => Some p end) out' j)
        by (destruct fp; reflexivity).
      exact K2.
Qed.

(** After [iter_parse_path] and [iter_absolute_path_instructions], an
    instruction from [h] keeps the y of the previous absolute point and one
    from [v] its x; one from [H] takes as y the y of the previous parsed
    instruction (relative when that one was lower case; 0 first), and one
    from [V] its x likewise. [Z] goes back to the first absolute point,
    while [z] adds the first point to the previous absolute point. *)
Theorem iter_parse_path_absolute_points items :
  let out := fst (iter_parse_path items) in
  let abs := iter_absolute_path_instructions out in
  forall i c a a0, nth_error out i = Some c -> nth_error abs i = Some a ->
  nth_error abs 0 = Some a0 ->
  let '(px, py) := previous_point 0 0 abs i in
  let '(rx, ry) := previous_point 0 0 out i in
  (command c = "h"%char -> y a == py) /\ (command c = "v"%char -> x a == px) /\
  (command c = "H"%char -> y a = ry) /\ (command c = "V"%char -> x a = rx) /\
  (command c = "Z"%char -> x a == x a0 /\ y a == y a0) /\
  (command c = "z"%char -> x a == px + x a0 /\ y a == py + y a0).
Proof.
  cbv zeta. intros i c a a0 Hc Ha Ha0.
  destruct (iter_parse_path items) as [out0 e] eqn:Er.
  unfold iter_parse_path in Er. cbn [fst] in Hc, Ha, Ha0 |- *.
  destruct (parse_from_nth items 0 0 None out0 e Er i c Hc) as [vs [_ Hp]].
  unfold iter_absolute_path_instructions in Ha, Ha0 |- *.
  rewrite (SvgFacts.iter_absolute_from_nth out0 0 0 i c Hc) in Ha.
  assert (Hout0 : exists c0, nth_error out0 0 = Some c0)
    by (destruct out0; [destruct i; discriminate|eexists; reflexivity]).
  destruct Hout0 as [c0 Hc0].
  rewrite (SvgFacts.iter_absolute_from_nth out0 0 0 0 c0 Hc0) in Ha0.
  injection Ha as <-. injection Ha0 as <-.
  destruct (previous_point 0 0 (iter_absolute_path_instructions_from 0 0 out0) i) as [px py].
  destruct (previous_point 0 0 out0 i) as [rx ry].
  destruct c as [cc cx cy]; cbn [command x y] in *.
  split; [|split; [|split; [|split; [|split]]]]; intros ->;
    unfold parse_point in Hp; vm_compute in Hp.
  - destruct vs as [|v vs]; [discriminate|]. injection Hp as _ <-.
    replace (is_command_lower "h"%char) with true by reflexivity. cbn [negb y]. ring.
  - destruct vs as [|v vs]; [discriminate|]. injection Hp as <- _.
    replace (is_command_lower "v"%char) with true by reflexivity. cbn [negb x]. ring.
  - destruct vs as [|v vs]; [discriminate|]. injection Hp as _ <-.
    replace (is_command_lower "H"%char) with false by reflexivity. reflexivity.
  - destruct vs as [|v vs]; [discriminate|]. injection Hp as <- _.
    replace (is_command_lower "V"%char) with false by reflexivity. reflexivity.
  - destruct i as [|j]; [discriminate|]. destruct out0 as [|q rest]; [discriminate|].
    injection Hc0 as <-. destruct q as [qc qx qy]. cbn in Hp. injection Hp as <- <-.
    replace (is_command_lower "Z"%char) with false by reflexivity. cbn [negb x y].
    cbn [command]; destruct (is_command_lower qc); cbn [negb x y]; split; ring.
  - destruct i as [|j]; [discriminate|]. destruct out0 as [|q rest]; [discriminate|].
    injection Hc0 as <-. destruct q as [qc qx qy]. cbn in Hp. injection Hp as <- <-.
    replace (is_command_lower "z"%char) with true by reflexivity. cbn [negb x y].
    cbn [command]; destruct (is_command_lower qc); cbn [negb x y]; split; ring.
Qed.

(** The path [M 1 2 l 3 4 h 5 Z]: its [h] line stays at y = 6. *)
Lemma iter_parse_path_absolute_points_witness :
  let items := [("M"%char, [1; 2]); ("l"%char, [3; 4]); ("h"%char, [5]); ("Z"%char, [])] in
  let out := fst (iter_parse_path items) in
  let abs := iter_absolute_path_instructions out in
  exists c a a0, nth_error out 2 = Some c /\ nth_error abs 2 = Some a /\
    nth_error abs 0 = Some a0 /\ command c = "h"%char /\ y a == 6.
Proof.
  cbv zeta. do 3 eexists.
  split; [reflexivity|]. split; [reflexivity|]. split; [reflexivity|]. split; [reflexivity|].
  pose proof (iter_parse_path_absolute_points
                [("M"%char, [1; 2]); ("l"%char, [3; 4]); ("h"%char, [5]); ("Z"%char, [])]
                2 _ _ _ eq_refl eq_refl eq_refl) as H.
  vm_compute in H. vm_compute. exact (proj1 H eq_refl).
Defined.

End SvgParsePointFacts.

(** ** The text of the TEI children of a block *)
Module TeiTextFacts.

Lemma tei_node_text_styles styles s : tei_node_text (get_element_for_styles styles s) = s.
Proof.
  rewrite get_element_for_styles_nesting.
  induction styles as [|st styles IH]; [reflexivity|exact IH].
Qed.

Lemma tei_items_text_app a b : tei_items_text (a ++ b) = tei_items_text a ++ tei_items_text b.
Proof. unfold tei_items_text. rewrite map_app, concat_app. reflexivity. Qed.

Lemma tei_step_text st t :
  tei_items_text (yielded (tei_step st t)) ++ pending_text (tei_step st t) ++
    pending_ws (tei_step st t) =
  tei_items_text (yielded st) ++ pending_text st ++ pending_ws st ++ text t ++ whitespace t.
Proof.
  unfold tei_step. destruct st as [out ps pt pw]; cbn [yielded pending_styles pending_text pending_ws].
  destruct (negb _); destruct pt as [|a pt]; destruct pw as [|b pw];
    cbv beta iota zeta delta [is_nonempty yielded pending_styles pending_text pending_ws];
    rewrite ?tei_items_text_app; cbn [tei_items_text map List.concat tei_node_text];
    rewrite ?tei_node_text_styles, ?app_nil_r, <- ?app_assoc; reflexivity.
Qed.

Lemma tei_fold_text ts : forall st,
  let st' := fold_left tei_step ts st in
  tei_items_text (yielded st') ++ pending_text st' ++ pending_ws st' =
    tei_items_text (yielded st) ++ pending_text st ++ pending_ws st ++ join_with_whitespace ts /\
  pending_ws st' = match rev ts with [] => pending_ws st | t :: _ => whitespace t end.
Proof.
  induction ts as [|t ts IH]; intros st; cbn [fold_left].
  - cbn. rewrite app_nil_r. split; reflexivity.
  - destruct (IH (tei_step st t)) as [H1 H2]. split.
    + pose proof (tei_step_text st t) as Hs. rewrite H1.
      rewrite !app_assoc in Hs |- *. rewrite Hs.
      unfold join_with_whitespace. cbn [map List.concat]. rewrite !app_assoc. reflexivity.
    + rewrite H2. cbn [rev]. destruct (rev ts) as [|t' r]; [reflexivity|reflexivity].
Qed.

Lemma join_layout_tokens_last_whitespace ts :
  join_layout_tokens ts ++ last_whitespace ts = join_with_whitespace ts.
Proof.
  induction ts as [|t ts IH]; [reflexivity|].
  destruct ts as [|t' ts].
  - unfold last_whitespace, join_with_whitespace. cbn. rewrite !app_nil_r. reflexivity.
  - rewrite last_whitespace_cons2. cbn [join_layout_tokens].
    unfold join_with_whitespace in *. cbn [map List.concat] in *.
    rewrite <- IH, <- !app_assoc. reflexivity.
Qed.

(** No text is lost or reordered in the TEI children of a block: their
    text content, in order, is the texts of the block's tokens joined with
    the whitespace between them, the last token's whitespace left out,
    whether or not the coordinates are enabled. *)
Theorem iter_layout_block_tei_children_text merged_coords layout_block enable_coordinates :
  tei_items_text (iter_layout_block_tei_children merged_coords layout_block enable_coordinates) =
    join_layout_tokens (block_tokens layout_block).
Proof.
  unfold iter_layout_block_tei_children.
  set (st0 := mkTei (if enable_coordinates then [AttribItem merged_coords] else []) [] [] []).
  assert (E0 : tei_items_text (yielded st0) = []) by (destruct enable_coordinates; reflexivity).
  destruct (tei_fold_text (block_tokens layout_block) st0) as [H1 H2]. cbv zeta in H1, H2.
  set (st' := fold_left tei_step (block_tokens layout_block) st0) in *.
  assert (Hw : pending_ws st' = last_whitespace (block_tokens layout_block))
    by (rewrite H2; unfold last_whitespace; destruct (rev _); reflexivity).
  rewrite E0, Hw, <- join_layout_tokens_last_whitespace in H1. cbn [pending_text pending_ws st0] in H1.
  assert (Hf : tei_items_text (tei_finish st') = tei_items_text (yielded st') ++ pending_text st').
  { unfold tei_finish. destruct (pending_text st') as [|a r]; cbn [is_nonempty].
    - rewrite app_nil_r. reflexivity.
    - rewrite tei_items_text_app. cbn. rewrite tei_node_text_styles, app_nil_r. reflexivity. }
  rewrite Hf. rewrite app_assoc in H1. exact (app_inv_tail _ _ _ H1).
Qed.

End TeiTextFacts.

(** ** Block status of the context-aware token features *)
Module ContextStatusFacts.
Import ContextFeatureFacts.

Lemma ctx_block_status_positions c ti tc li lc :
  cf_token_index c = ti -> cf_token_count c = tc -> cf_line_index c = li ->
  cf_line_count c = lc -> (ti < tc)%nat -> (li < lc)%nat ->
  (ctx_get_block_status c = "BLOCKEND"%string <-> S li = lc /\ S ti = tc) /\
  (ctx_get_block_status c = "BLOCKSTART"%string <-> li = O /\ ti = O /\ (2 <= tc)%nat).
Proof.
  intros E1 E2 E3 E4 Ht Hl.
  unfold ctx_get_block_status, ctx_get_line_status, get_block_status, get_line_status.
  rewrite E1, E2, E3, E4.
  destruct (Z.eqb_spec (Z.of_nat ti) (Z.of_nat tc - 1));
  [|destruct (Z.eqb_spec (Z.of_nat ti) 0)];
  destruct (Z.eqb_spec (Z.of_nat li) (Z.of_nat lc - 1));
  destruct (Z.eqb_spec (Z.of_nat li) 0);
  cbn [andb String.eqb Ascii.eqb Bool.eqb]; (split; split; [intros E|intros E| |]);
  try discriminate; try lia;
  try (intros [F1 F2]; lia); try (intros [F1 [F2 F3]]; lia); try (intros _; reflexivity);
  try reflexivity.
Qed.

(** In the context-aware generator, a token's block status is BLOCKEND
    exactly when it is the last token of the last line of its block, and
    BLOCKSTART exactly when it is the first token of the block's first
    line and that line has at least two tokens: the first token of a
    one-token first line is a LINEEND and never a BLOCKSTART. *)
Theorem iter_context_features_block_status layout_document c :
  In c (iter_context_layout_token_features layout_document) ->
  exists b, In b (iter_all_blocks layout_document) /\
    nth_error (lines b) (cf_line_index c) = Some (cf_layout_line c) /\
    (ctx_get_block_status c = "BLOCKEND"%string <->
       S (cf_line_index c) = List.length (lines b) /\
       S (cf_token_index c) = List.length (tokens (cf_layout_line c))) /\
    (ctx_get_block_status c = "BLOCKSTART"%string <->
       cf_line_index c = O /\ cf_token_index c = O /\
       (2 <= List.length (tokens (cf_layout_line c)))%nat).
Proof.
  intros Hin. unfold iter_context_layout_token_features in Hin.
  pose proof (iter_document_contexts_facts
                (new_RelativeFontSizeFeature (iter_all_tokens layout_document))
                (iter_all_blocks layout_document) None) as H.
  destruct (iter_document_contexts _ _ None) as [cs p]. cbn [fst] in Hin.
  destruct H as [_ [_ [_ H4]]]. rewrite Forall_forall in H4.
  destruct (H4 c Hin) as [K1 [K2 [[b [Hb [K3 K4]]] _]]].
  exists b. split; [exact Hb|]. split; [exact K3|].
  assert (Ht : (cf_token_index c < List.length (tokens (cf_layout_line c)))%nat)
    by (apply nth_error_Some; congruence).
  assert (Hl : (cf_line_index c < List.length (lines b))%nat)
    by (apply nth_error_Some; congruence).
  exact (ctx_block_status_positions c _ _ _ _ eq_refl K2 eq_refl K4 Ht Hl).
Qed.

(** A one-block document whose first line has one token. *)
Lemma iter_context_features_block_status_witness :
  let t := mkToken (T "a") EMPTY_FONT [] None in
  let d := mkDocument [mkPage [mkBlock [mkLine [t]; mkLine [t; t]]]] in
  exists c, In c (iter_context_layout_token_features d) /\ cf_line_index c = O /\
    ctx_get_block_status c = "BLOCKIN"%string /\
    exists b, In b (iter_all_blocks d) /\
      nth_error (lines b) (cf_line_index c) = Some (cf_layout_line c).
Proof.
  cbv zeta. eexists. split; [left; reflexivity|].
  split; [reflexivity|]. split; [reflexivity|].
  destruct (iter_context_features_block_status
              (mkDocument [mkPage [mkBlock [mkLine [mkToken (T "a") EMPTY_FONT [] None];
                                            mkLine [mkToken (T "a") EMPTY_FONT [] None;
                                                    mkToken (T "a") EMPTY_FONT [] None]]]])
              _ (or_introl eq_refl)) as [b [Hb [Hn _]]].
  exists b. split; [exact Hb|exact Hn].
Defined.

End ContextStatusFacts.
